(** * Find_Bibliography: bibliography-span detection and reference parsing

    A shallow embedding of the Python sources

      - [ref_parser.py], [ref_style_detector.py], [ref_normalizer.py]
      - [services/ref_extractor.py]
      - [services/delb/find_bibliography.py], [services/delb/keyword_hits.py],
        [services/delb/extract_toc.py], [services/delb/scan_fonts.py],
        [services/delb/detect_chapters.py]
      - [services/bib_style_probe.py] (header terms, page score, interval
        selection)

    Conventions of the embedding.

    - A Python [str] is a list of Unicode code points ([list N]).  String
      constants are written as UTF-8 literals and decoded with [py].
    - White space ([str.isspace], [\s]) and line boundaries
      ([str.splitlines]) follow CPython's tables exactly.  Letters, case and
      digits follow the Unicode tables on U+0000..U+00FF; code points above
      U+00FF that are not white space are classified as caseless symbols.
    - Python exceptions are explicit: a function that can raise returns a
      [result].
    - Regular expressions are kept in the concrete syntax of the source and
      compiled by [Re.compile]; matching is a backtracking matcher with the
      priorities of Python's [re] (ordered alternation, greedy and lazy
      repetition, leftmost match).
    - Python floats (page scores, sampling fractions, similarity ratios) are
      idealised as exact rationals ([Q]); where the rounding of an operation
      decides a result, module [Floats] leaves the operation open. *)

From Stdlib Require Import String Ascii.
From Stdlib Require Import List Bool Arith ZArith NArith QArith Qround Lia Lqa.
From Stdlib Require Import Sorting.Mergesort Sorting.Permutation Sorting.Sorted Orders.
Import ListNotations.

Set Implicit Arguments.
Unset Strict Implicit.
Set Default Proof Using "Type".

Local Open Scope list_scope.

(* ====================================================================== *)
(** * Python strings                                                        *)
(* ====================================================================== *)

Definition char := N.
Definition str := list char.

Module Py.

Local Open Scope N_scope.

(** ** UTF-8 literals *)

Fixpoint bytes_of (s : string) : list N :=
  match s with
  | EmptyString => []
  | String a s' => N_of_ascii a :: bytes_of s'
  end.

Fixpoint utf8_decode (bs : list N) : str :=
  match bs with
  | [] => []
  | b0 :: r =>
      if b0 <? 128 then b0 :: utf8_decode r
      else if b0 <? 224 then
        match r with
        | b1 :: r1 => ((b0 - 192) * 64 + (b1 - 128)) :: utf8_decode r1
        | _ => []
        end
      else if b0 <? 240 then
        match r with
        | b1 :: b2 :: r2 =>
            ((b0 - 224) * 4096 + (b1 - 128) * 64 + (b2 - 128)) :: utf8_decode r2
        | _ => []
        end
      else
        match r with
        | b1 :: b2 :: b3 :: r3 =>
            ((b0 - 240) * 262144 + (b1 - 128) * 4096 + (b2 - 128) * 64 + (b3 - 128))
              :: utf8_decode r3
        | _ => []
        end
  end.

Definition py (s : string) : str := utf8_decode (bytes_of s).

Definition str_eqb (a b : str) : bool :=
  if list_eq_dec N.eq_dec a b then true else false.

(** ** Character classes *)

Definition in_range (lo hi c : char) : bool := (lo <=? c) && (c <=? hi).

(** [str.isspace] on one code point (CPython [_PyUnicode_IsWhitespace]). *)
Definition isspace (c : char) : bool :=
  in_range 9 13 c || in_range 28 31 c || (c =? 32) || (c =? 133) || (c =? 160)
  || (c =? 5760) || in_range 8192 8202 c || (c =? 8232) || (c =? 8233)
  || (c =? 8239) || (c =? 8287) || (c =? 12288).

(** Line boundaries of [str.splitlines] (CPython [_PyUnicode_IsLinebreak]). *)
Definition islinebreak (c : char) : bool :=
  in_range 10 13 c || in_range 28 30 c || (c =? 133) || (c =? 8232) || (c =? 8233).

Definition isupper (c : char) : bool :=
  in_range 65 90 c || in_range 192 214 c || in_range 216 222 c.

Definition islower (c : char) : bool :=
  in_range 97 122 c || in_range 223 246 c || in_range 248 255 c
  || (c =? 170) || (c =? 181) || (c =? 186).

Definition isalpha (c : char) : bool := isupper c || islower c.

(** [\d]: Unicode category Nd. *)
Definition isdecimal (c : char) : bool := in_range 48 57 c.

(** [str.isalnum]: letters, decimals and the other numeric characters. *)
Definition isalnum (c : char) : bool :=
  isalpha c || isdecimal c || (c =? 178) || (c =? 179) || (c =? 185)
  || in_range 188 190 c.

(** [\w] *)
Definition isword (c : char) : bool := isalnum c || (c =? 95).

(** Simple (one to one) case mappings, as used by [re.IGNORECASE]. *)
Definition tolower (c : char) : char := if isupper c then c + 32 else c.

Definition toupper (c : char) : char :=
  if in_range 97 122 c || in_range 224 246 c || in_range 248 254 c then c - 32
  else if c =? 255 then 376
  else if c =? 181 then 924
  else c.

(** ** [str] methods *)

Definition lower (s : str) : str := map tolower s.

(** [str.upper] uses the full mapping: U+00DF becomes "SS". *)
Definition upper (s : str) : str :=
  flat_map (fun c => if c =? 223 then [83; 83] else [toupper c]) s.

(** [str.capitalize]: title-case the first character, lower-case the rest. *)
Definition capitalize (s : str) : str :=
  match s with
  | [] => []
  | c :: r => (if c =? 223 then [83; 115] else [toupper c]) ++ lower r
  end.

Fixpoint lstrip_by (p : char -> bool) (s : str) : str :=
  match s with
  | c :: r => if p c then lstrip_by p r else s
  | [] => []
  end.

Definition rstrip_by (p : char -> bool) (s : str) : str :=
  rev (lstrip_by p (rev s)).

Definition strip_by (p : char -> bool) (s : str) : str :=
  rstrip_by p (lstrip_by p s).

Definition mem (c : char) (cs : str) : bool := existsb (N.eqb c) cs.

(** [s.strip()], [s.rstrip()] and [s.strip(chars)] *)
Definition strip (s : str) : str := strip_by isspace s.
Definition rstrip (s : str) : str := rstrip_by isspace s.
Definition strip_chars (cs : str) (s : str) : str := strip_by (fun c => mem c cs) s.

(** [s.startswith(p)] *)
Fixpoint startswith (p s : str) : bool :=
  match p, s with
  | [], _ => true
  | a :: p', b :: s' => (a =? b) && startswith p' s'
  | _ :: _, [] => false
  end.

(** [s.find(sub)]: index of the first occurrence. *)
Fixpoint find (sub s : str) : option nat :=
  if startswith sub s then Some O
  else match s with
       | [] => None
       | _ :: r => option_map S (find sub r)
       end.

(** [sub in s] *)
Definition contains (sub s : str) : bool :=
  match find sub s with Some _ => true | None => false end.

(** [s.split(sep)] for a non-empty separator. *)
Fixpoint split_on_fuel (fuel : nat) (sep : str) (s : str) (cur : str) : list str :=
  match fuel with
  | O => [rev cur]
  | S f =>
      match s with
      | [] => [rev cur]
      | c :: r =>
          if startswith sep s
          then rev cur :: split_on_fuel f sep (skipn (length sep) s) []
          else split_on_fuel f sep r (c :: cur)
      end
  end.

Definition split_on (sep : str) (s : str) : list str :=
  split_on_fuel (S (length s)) sep s [].

(** [s.split(sep, 1)] *)
Definition split_on1 (sep : str) (s : str) : list str :=
  match find sep s with
  | Some i => [firstn i s; skipn (i + length sep) s]
  | None => [s]
  end.

(** [s.split()]: runs of white space separate, empty pieces are dropped. *)
Fixpoint split_ws_aux (s : str) (cur : str) : list str :=
  match s with
  | [] => match cur with [] => [] | _ => [rev cur] end
  | c :: r =>
      if isspace c
      then match cur with [] => split_ws_aux r [] | _ => rev cur :: split_ws_aux r [] end
      else split_ws_aux r (c :: cur)
  end.

Definition split_ws (s : str) : list str := split_ws_aux s [].

(** [sep.join(parts)] *)
Fixpoint join (sep : str) (parts : list str) : str :=
  match parts with
  | [] => []
  | [p] => p
  | p :: rest => p ++ sep ++ join sep rest
  end.

(** [s.replace(old, new)] for a non-empty [old]. *)
Fixpoint replace_fuel (fuel : nat) (old new : str) (s : str) : str :=
  match fuel with
  | O => s
  | S f =>
      match s with
      | [] => []
      | c :: r =>
          if startswith old s
          then new ++ replace_fuel f old new (skipn (length old) s)
          else c :: replace_fuel f old new r
      end
  end.

Definition replace (old new : str) (s : str) : str :=
  replace_fuel (S (length s)) old new s.

(** [s.splitlines()]: a carriage return followed by a line feed is one
    boundary; a boundary at the very end does not open a further line. *)
Fixpoint splitlines_aux (s : str) (cur : str) : list str :=
  match s with
  | [] => match cur with [] => [] | _ => [rev cur] end
  | c :: r =>
      if islinebreak c then
        match c, r with
        | 13, 10 :: r' => rev cur :: splitlines_aux r' []
        | _, _ => rev cur :: splitlines_aux r []
        end
      else splitlines_aux r (c :: cur)
  end.

Definition splitlines (s : str) : list str := splitlines_aux s [].

(** Truthiness of a string. *)
Definition nonempty (s : str) : bool :=
  match s with [] => false | _ => true end.

(** [int(s)] on a string of decimal digits; [None] stands for [ValueError]. *)
Fixpoint int_digits (acc : N) (s : str) : option N :=
  match s with
  | [] => Some acc
  | c :: r => if isdecimal c then int_digits (acc * 10 + (c - 48)) r else None
  end.

Definition int_of (s : str) : option Z :=
  match s with
  | [] => None
  | _ => option_map Z.of_N (int_digits 0 s)
  end.

End Py.

Import Py.

(* ====================================================================== *)
(** * Exceptions                                                            *)
(* ====================================================================== *)

Inductive exn :=
| IndexError
| ValueError
| KeyError
| StatisticsError
| ZeroDivisionError
| SystemExit (msg : str).

Inductive result (A : Type) :=
| Ok (a : A)
| Raise (e : exn).
Arguments Ok {A} a.
Arguments Raise {A} e.

Definition bind {A B} (x : result A) (f : A -> result B) : result B :=
  match x with
  | Ok a => f a
  | Raise e => Raise e
  end.

Declare Scope result_scope.
Delimit Scope result_scope with result.
Notation "x <- c ;; k" := (bind c (fun x => k))
  (at level 61, c at next level, right associativity) : result_scope.
Notation "' p <- c ;; k" := (bind c (fun x => let p := x in k))
  (at level 61, p pattern, c at next level, right associativity) : result_scope.

(* ====================================================================== *)
(** * Regular expressions (Python [re])                                     *)
(* ====================================================================== *)

Module Re.

Local Open Scope N_scope.

(** An item of a bracket expression. *)
Inductive citem :=
| IChar (c : char)
| IRange (lo hi : char)
| IDigit (positive : bool)       (* \d, \D *)
| ISpace (positive : bool)       (* \s, \S *)
| IWord (positive : bool).       (* \w, \W *)

Inductive re :=
| Empty
| Lit (c : char)
| Any                                   (* .  : anything but a line feed *)
| Class (negated : bool) (items : list citem)
| Seq (a b : re)
| Alt (a b : re)
| Rep (r : re) (lo : nat) (hi : option nat) (greedy : bool)
| Group (idx : nat) (r : re)            (* capturing group number idx *)
| Bol                                   (* ^ *)
| Eol                                   (* $ *)
| WordB                                 (* \b *)
| LookAhead (r : re)                    (* (?=...) *)
| LookBehind (r : re).                  (* (?<=...), one character wide *)

(** A compiled pattern: syntax tree, the IGNORECASE flag, named groups. *)
Record regex := {
  ast : re;
  icase : bool;
  names : list (str * nat)
}.

(** ** Concrete syntax *)

Definition digit_val (c : char) : nat := N.to_nat (c - 48).

Fixpoint read_nat (s : str) (acc : nat) : nat * str :=
  match s with
  | c :: r => if isdecimal c then read_nat r (acc * 10 + digit_val c)%nat else (acc, s)
  | [] => (acc, [])
  end.

(** One escape sequence inside a bracket expression. *)
Definition class_escape (c : char) : citem :=
  if c =? 100 then IDigit true else if c =? 68 then IDigit false
  else if c =? 115 then ISpace true else if c =? 83 then ISpace false
  else if c =? 119 then IWord true else if c =? 87 then IWord false
  else if c =? 116 then IChar 9
  else if c =? 110 then IChar 10
  else IChar c.

Definition hex_val (c : char) : N :=
  if isdecimal c then c - 48
  else if in_range 65 70 c then c - 55
  else if in_range 97 102 c then c - 87
  else 0.

Definition hex4 (a b c d : char) : char :=
  ((hex_val a * 16 + hex_val b) * 16 + hex_val c) * 16 + hex_val d.

(** Items of a bracket expression up to the closing bracket. *)
Fixpoint read_class (s : str) (acc : list citem) : option (list citem * str) :=
  match s with
  | [] => None
  | 93 :: r => Some (rev acc, r)
  | 92 :: 117 :: a :: b :: c :: d :: 45 :: 92 :: 117 :: a' :: b' :: c' :: d' :: r =>
      read_class r (IRange (hex4 a b c d) (hex4 a' b' c' d') :: acc)
  | 92 :: 117 :: a :: b :: c :: d :: r => read_class r (IChar (hex4 a b c d) :: acc)
  | 92 :: e :: r => read_class r (class_escape e :: acc)
  | c :: r =>
      match r with
      | 45 :: 93 :: _ => read_class r (IChar c :: acc)
      | 45 :: 92 :: e :: r' =>
          match class_escape e with
          | IChar hi => read_class r' (IRange c hi :: acc)
          | _ => read_class r (IChar c :: acc)
          end
      | 45 :: hi :: r' => read_class r' (IRange c hi :: acc)
      | _ => read_class r (IChar c :: acc)
      end
  end.

(** A quantifier following an atom, if any. *)
Definition read_quant (a : re) (s : str) : re * str :=
  let lazy (lo : nat) (hi : option nat) (r : str) :=
    match r with
    | 63 :: r' => (Rep a lo hi false, r')
    | _ => (Rep a lo hi true, r)
    end in
  match s with
  | 42 :: r => lazy O None r
  | 43 :: r => lazy 1%nat None r
  | 63 :: r => lazy O (Some 1%nat) r
  | 123 :: r =>
      let '(lo, r1) := read_nat r O in
      match r1 with
      | 125 :: r2 => lazy lo (Some lo) r2
      | 44 :: 125 :: r2 => lazy lo None r2
      | 44 :: r2 =>
          let '(hi, r3) := read_nat r2 O in
          match r3 with
          | 125 :: r4 => lazy lo (Some hi) r4
          | _ => (a, s)
          end
      | _ => (a, s)
      end
  | _ => (a, s)
  end.

Fixpoint read_name (s : str) (acc : str) : str * str :=
  match s with
  | 62 :: r => (rev acc, r)
  | c :: r => read_name r (c :: acc)
  | [] => (rev acc, [])
  end.

Inductive pmode := PAlt | PSeq | PAtom.

(** Parser state: next group number and the named groups seen so far. *)
Definition pstate := (nat * list (str * nat))%type.

Fixpoint parse (fuel : nat) (md : pmode) (s : str) (st : pstate)
  : option (re * str * pstate) :=
  match fuel with
  | O => None
  | S f =>
      match md with
      | PAlt =>
          match parse f PSeq s st with
          | Some (a, 124 :: r, st1) =>
              match parse f PAlt r st1 with
              | Some (b, r', st2) => Some (Alt a b, r', st2)
              | None => None
              end
          | other => other
          end
      | PSeq =>
          match s with
          | [] => Some (Empty, s, st)
          | 124 :: _ => Some (Empty, s, st)
          | 41 :: _ => Some (Empty, s, st)
          | _ =>
              match parse f PAtom s st with
              | Some (a, r, st1) =>
                  let '(a', r') := read_quant a r in
                  match parse f PSeq r' st1 with
                  | Some (Empty, r'', st2) => Some (a', r'', st2)
                  | Some (b, r'', st2) => Some (Seq a' b, r'', st2)
                  | None => None
                  end
              | None => None
              end
          end
      | PAtom =>
          let close (wrap : re -> re) (r : str) (st0 : pstate) :=
            match parse f PAlt r st0 with
            | Some (a, 41 :: r', st1) => Some (wrap a, r', st1)
            | _ => None
            end in
          match s with
          | [] => None
          | 40 :: 63 :: 58 :: r => close (fun a => a) r st
          | 40 :: 63 :: 61 :: r => close LookAhead r st
          | 40 :: 63 :: 60 :: 61 :: r => close LookBehind r st
          | 40 :: 63 :: 80 :: 60 :: r =>
              let '(nm, r1) := read_name r [] in
              let idx := fst st in
              close (Group idx) r1 (S idx, (nm, idx) :: snd st)
          | 40 :: r =>
              let idx := fst st in
              close (Group idx) r (S idx, snd st)
          | 91 :: 94 :: r =>
              match read_class r [] with
              | Some (items, r') => Some (Class true items, r', st)
              | None => None
              end
          | 91 :: r =>
              match read_class r [] with
              | Some (items, r') => Some (Class false items, r', st)
              | None => None
              end
          | 92 :: 98 :: r => Some (WordB, r, st)
          | 92 :: e :: r =>
              match class_escape e with
              | IChar c => Some (Lit c, r, st)
              | it => Some (Class false [it], r, st)
              end
          | 46 :: r => Some (Any, r, st)
          | 94 :: r => Some (Bol, r, st)
          | 36 :: r => Some (Eol, r, st)
          | c :: r => Some (Lit c, r, st)
          end
      end
  end.

(** A pattern that matches nothing stands for a syntax error. *)
Definition never : re := Class false [].

Definition compile_str (ignorecase : bool) (p : str) : regex :=
  match parse (4 * length p + 8) PAlt p (1%nat, []) with
  | Some (a, [], st) => {| ast := a; icase := ignorecase; names := snd st |}
  | _ => {| ast := never; icase := ignorecase; names := [] |}
  end.

(** [re.compile(p)] and [re.compile(p, re.I)] *)
Definition compile (p : string) : regex := compile_str false (py p).
Definition compile_i (p : string) : regex := compile_str true (py p).

(** ** Matching *)

(** A position in the subject: the text before it (nearest character
    first), the text after it, and its index. *)
Record cur := { before : str; after : str; pos : nat }.

Definition start_of (s : str) : cur := {| before := []; after := s; pos := O |}.

Definition advance (z : cur) : cur :=
  match after z with
  | c :: r => {| before := c :: before z; after := r; pos := S (pos z) |}
  | [] => z
  end.

(** Captured groups, most recent first: number, start, end, text. *)
Definition caps := list (nat * (nat * nat * str)).

Definition item_match (it : citem) (c : char) : bool :=
  match it with
  | IChar x => c =? x
  | IRange lo hi => in_range lo hi c
  | IDigit b => Bool.eqb (isdecimal c) b
  | ISpace b => Bool.eqb (isspace c) b
  | IWord b => Bool.eqb (isword c) b
  end.

Definition class_match (ic negated : bool) (items : list citem) (c : char) : bool :=
  let hit x := existsb (fun it => item_match it x) items in
  xorb negated (hit c || (ic && (hit (tolower c) || hit (toupper c)))).

Definition lit_match (ic : bool) (x c : char) : bool :=
  if ic then tolower c =? tolower x else c =? x.

Definition word_before (z : cur) : bool :=
  match before z with c :: _ => isword c | [] => false end.

Definition word_after (z : cur) : bool :=
  match after z with c :: _ => isword c | [] => false end.

Definition at_word_boundary (z : cur) : bool := xorb (word_before z) (word_after z).

Definition at_end (z : cur) : bool :=
  match after z with
  | [] => true
  | [10] => true
  | _ => false
  end.

Definition one (p : char -> bool) (k : cur -> caps -> option (cur * caps))
  (z : cur) (cs : caps) : option (cur * caps) :=
  match after z with
  | c :: _ => if p c then k (advance z) cs else None
  | [] => None
  end.

Definition orelse {A} (x : option A) (y : unit -> option A) : option A :=
  match x with
  | Some v => Some v
  | None => y tt
  end.

(** The backtracking matcher: [m ic r k z cs] tries to match [r] at [z]
    and hands every way of doing so, in Python's order of preference, to
    the continuation [k] until one succeeds. *)
Fixpoint m (ic : bool) (r : re) (k : cur -> caps -> option (cur * caps))
  (z : cur) (cs : caps) {struct r} : option (cur * caps) :=
  match r with
  | Empty => k z cs
  | Lit x => one (lit_match ic x) k z cs
  | Any => one (fun c => negb (c =? 10)) k z cs
  | Class negated items => one (class_match ic negated items) k z cs
  | Seq a b => m ic a (fun z' cs' => m ic b k z' cs') z cs
  | Alt a b => orelse (m ic a k z cs) (fun _ => m ic b k z cs)
  | Rep r' lo hi greedy =>
      (fix loop (fuel : nat) (lo : nat) (hi : option nat) (z : cur) (cs : caps)
         {struct fuel} : option (cur * caps) :=
         match fuel with
         | O => None
         | S fuel' =>
             let step := fun _ : unit =>
               match hi with
               | Some O => None
               | _ =>
                   m ic r'
                     (fun z' cs' =>
                        if (pos z' =? pos z)%nat then None
                        else loop fuel' (pred lo) (option_map pred hi) z' cs')
                     z cs
               end in
             match lo with
             | S _ => step tt
             | O =>
                 if greedy then orelse (step tt) (fun _ => k z cs)
                 else orelse (k z cs) step
             end
         end) (S (length (after z))) lo hi z cs
  | Group idx r' =>
      m ic r'
        (fun z' cs' =>
           k z' ((idx, (pos z, pos z', firstn (pos z' - pos z) (after z))) :: cs'))
        z cs
  | Bol => match before z with [] => k z cs | _ => None end
  | Eol => if at_end z then k z cs else None
  | WordB => if at_word_boundary z then k z cs else None
  | LookAhead r' =>
      match m ic r' (fun z' cs' => Some (z', cs')) z cs with
      | Some (_, cs') => k z cs'
      | None => None
      end
  | LookBehind r' =>
      match before z with
      | c :: b =>
          let zb := {| before := b; after := c :: after z; pos := pred (pos z) |} in
          match m ic r'
                  (fun z' cs' => if (pos z' =? pos z)%nat then Some (z', cs') else None)
                  zb cs with
          | Some (_, cs') => k z cs'
          | None => None
          end
      | [] => None
      end
  end.

(** A match object. *)
Record mobj := {
  m_start : nat;
  m_stop : nat;
  m_text : str;          (* group(0) *)
  m_caps : caps;
  m_rest : cur           (* the position just after the match *)
}.

Definition mk_mobj (z : cur) (res : cur * caps) : mobj :=
  let '(z', cs) := res in
  {| m_start := pos z; m_stop := pos z';
     m_text := firstn (pos z' - pos z) (after z);
     m_caps := cs; m_rest := z' |}.

Definition match_at (rx : regex) (z : cur) : option mobj :=
  option_map (mk_mobj z) (m (icase rx) (ast rx) (fun z' cs => Some (z', cs)) z []).

(** [m.group(i)] for [i >= 1]; [None] when the group did not take part. *)
Fixpoint lookup (i : nat) (cs : caps) : option (nat * nat * str) :=
  match cs with
  | [] => None
  | (j, v) :: r => if (i =? j)%nat then Some v else lookup i r
  end.

Definition group (mo : mobj) (i : nat) : option str :=
  option_map (fun v => snd v) (lookup i (m_caps mo)).

Fixpoint name_index (nm : str) (l : list (str * nat)) : option nat :=
  match l with
  | [] => None
  | (n, i) :: r => if str_eqb n nm then Some i else name_index nm r
  end.

(** [m["name"]] *)
Definition named (rx : regex) (mo : mobj) (nm : string) : option str :=
  match name_index (py nm) (names rx) with
  | Some i => group mo i
  | None => None
  end.

(** [pattern.match(s)] *)
Definition pymatch (rx : regex) (s : str) : option mobj := match_at rx (start_of s).

(** [pattern.fullmatch(s)] *)
Definition fullmatch (rx : regex) (s : str) : bool :=
  match m (icase rx) (ast rx)
          (fun z' cs => match after z' with [] => Some (z', cs) | _ => None end)
          (start_of s) [] with
  | Some _ => true
  | None => false
  end.

(** Leftmost match at or after a position. *)
Fixpoint scan (rx : regex) (b : str) (a : str) (p : nat) {struct a} : option mobj :=
  match match_at rx {| before := b; after := a; pos := p |} with
  | Some mo => Some mo
  | None =>
      match a with
      | [] => None
      | c :: a' => scan rx (c :: b) a' (S p)
      end
  end.

(** [pattern.search(s)] *)
Definition search (rx : regex) (s : str) : option mobj := scan rx [] s O.

Definition found (rx : regex) (s : str) : bool :=
  match search rx s with Some _ => true | None => false end.

(** [pattern.sub(repl, s)] for a replacement without group references. *)
Fixpoint sub_fuel (fuel : nat) (rx : regex) (repl : str) (z : cur) : str :=
  match fuel with
  | O => after z
  | S f =>
      match match_at rx z with
      | Some mo =>
          if (m_stop mo =? pos z)%nat then
            match after z with
            | [] => repl
            | c :: _ => repl ++ c :: sub_fuel f rx repl (advance z)
            end
          else repl ++ sub_fuel f rx repl (m_rest mo)
      | None =>
          match after z with
          | [] => []
          | c :: _ => c :: sub_fuel f rx repl (advance z)
          end
      end
  end.

Definition sub (rx : regex) (repl : str) (s : str) : str :=
  sub_fuel (S (length s)) rx repl (start_of s).

(** The successive non-overlapping matches, left to right. *)
Fixpoint finditer_fuel (fuel : nat) (rx : regex) (z : cur) : list mobj :=
  match fuel with
  | O => []
  | S f =>
      match match_at rx z with
      | Some mo =>
          if (m_stop mo =? pos z)%nat then
            match after z with
            | [] => [mo]
            | _ :: _ => mo :: finditer_fuel f rx (advance z)
            end
          else mo :: finditer_fuel f rx (m_rest mo)
      | None =>
          match after z with
          | [] => []
          | _ :: _ => finditer_fuel f rx (advance z)
          end
      end
  end.

Definition finditer (rx : regex) (s : str) : list mobj :=
  finditer_fuel (S (length s)) rx (start_of s).

(** [pattern.findall(s)] for a pattern with exactly one group. *)
Definition findall1 (rx : regex) (s : str) : list str :=
  map (fun mo => match group mo 1 with Some t => t | None => [] end) (finditer rx s).

(** [pattern.findall(s)] for a pattern without groups. *)
Definition findall0 (rx : regex) (s : str) : list str := map m_text (finditer rx s).

End Re.

Local Open Scope result_scope.

(** Python sequence operations that can raise. *)

(** [xs[-k]] for [k >= 1] *)
Definition nth_from_end {A} (xs : list A) (k : nat) : result A :=
  match nth_error (rev xs) (pred k) with
  | Some x => Ok x
  | None => Raise IndexError
  end.

(** [xs[:-k]] *)
Definition drop_last {A} (k : nat) (xs : list A) : list A :=
  firstn (length xs - k) xs.

(** Truthiness of an optional string. *)
Definition truthy (o : option str) : bool :=
  match o with
  | Some s => nonempty s
  | None => false
  end.

Definition SP_COMMA_SEMI : str := py " ;,".
Definition SP_COMMA_SEMI_DOT : str := py " ,;.".

(* ====================================================================== *)
(** * ref_style_detector.py                                                 *)
(* ====================================================================== *)

Module StyleDetector.

Definition RE_YEAR := Eval vm_compute in Re.compile "\b(1[6-9]\d{2}|20\d{2}|21\d{2})\b".
Definition RE_DOI := Eval vm_compute in Re.compile_i "\b10\.\d{4,9}/[-._;()/:A-Z0-9]+\b".
Definition RE_ISBN := Eval vm_compute in
  Re.compile "\b(?:97[89][-\s]?)?\d{1,5}[-\s]?\d{1,7}[-\s]?\d{1,7}[-\s]?[\dX]\b".
Definition RE_PAGES := Eval vm_compute in
  Re.compile_i "\b(pp\.?|S\.?|pages?)\s*\d{1,5}\s*(?:[-–—]\s*\d{1,5})?\b".
Definition RE_RANGE := Eval vm_compute in Re.compile "\b\d{1,5}\s*[-–—]\s*\d{1,5}\b".
Definition RE_VOL_ISS := Eval vm_compute in Re.compile "\b\d{1,4}\s*(?:\(\s*\d+\s*\))\b".
Definition RE_VOL_ONLY := Eval vm_compute in Re.compile_i "\b(?:vol\.?|Bd\.?)\s*\d{1,4}\b".
Definition RE_ISSUE := Eval vm_compute in Re.compile_i "\b(?:no\.?|Heft|nr\.)\s*\d+\b".
Definition RE_IN := Eval vm_compute in Re.compile_i "\b(?:in|in:|dans|en:)\b".
Definition RE_ED := Eval vm_compute in
  Re.compile_i "\b(?:ed\.?|eds\.?|éd\.?|hg\.|hrsg\.|herausg\.)\b".
Definition RE_PLACE_PUB := Eval vm_compute in
  Re.compile "\b[A-ZÄÖÜ][A-Za-zÄÖÜäöüß.\- ]{2,30}\s*:\s*[A-Z][^\d,;]{2,}\b".
Definition RE_URL := Eval vm_compute in Re.compile_i "https?://\S+".
Definition RE_BRACKETED := Eval vm_compute in Re.compile "^\s*\[\d+\]\s*".

Definition RE_PAREN_YEAR := Eval vm_compute in Re.compile "\([12]\d{3}\)".
Definition RE_NAME_YEAR := Eval vm_compute in Re.compile "[A-Z][A-Za-z\-]+[, ]+\d{4}\b".
Definition RE_LEADING_NUM := Eval vm_compute in Re.compile "^\s*\d+\.\s".
Definition RE_THESIS := Eval vm_compute in Re.compile_i "\b(thesis|diss\.?|dissertation)\b".
Definition RE_PROCEEDINGS := Eval vm_compute in
  Re.compile_i "\bproceedings|conf\.|konferenz|tagung\b".

Record signals := {
  sig_year : bool; sig_doi : bool; sig_isbn : bool; sig_pages_kw : bool;
  sig_range : bool; sig_vol_iss : bool; sig_vol_kw : bool; sig_issue_kw : bool;
  sig_in_kw : bool; sig_ed_kw : bool; sig_place_pub : bool; sig_url : bool;
  sig_bracket_num : bool
}.

Record style := { style_family : str; entry_type : str }.

(** [max(scores, key=scores.get)]: the first key, in insertion order, that
    carries the largest score. *)
Fixpoint max_key (best : str * nat) (rest : list (str * nat)) : str * nat :=
  match rest with
  | [] => best
  | (k, v) :: r => if (snd best <? v)%nat then max_key (k, v) r else max_key best r
  end.

Definition detect_style_and_type (raw : str) : style :=
  let s := join (py " ") (split_ws raw) in
  let signals := {|
    sig_year := Re.found RE_YEAR s;
    sig_doi := Re.found RE_DOI s;
    sig_isbn := Re.found RE_ISBN s;
    sig_pages_kw := Re.found RE_PAGES s;
    sig_range := Re.found RE_RANGE s;
    sig_vol_iss := Re.found RE_VOL_ISS s;
    sig_vol_kw := Re.found RE_VOL_ONLY s;
    sig_issue_kw := Re.found RE_ISSUE s;
    sig_in_kw := Re.found RE_IN s;
    sig_ed_kw := Re.found RE_ED s;
    sig_place_pub := Re.found RE_PLACE_PUB s;
    sig_url := Re.found RE_URL s;
    sig_bracket_num := Re.found RE_BRACKETED s |} in
  let score_author_year :=
    ((if Re.found RE_PAREN_YEAR s || Re.found RE_NAME_YEAR s then 2 else 0)
     + (if sig_year signals then 1 else 0))%nat in
  let score_numeric :=
    (if sig_bracket_num signals || Re.found RE_LEADING_NUM s then 2 else 0)%nat in
  let score_note :=
    (if sig_ed_kw signals && sig_place_pub signals && sig_year signals then 2 else 0)%nat in
  let score_mla :=
    (if (sig_place_pub signals && mem 8221%N s) || mem 34%N s then 2 else 0)%nat in
  let '(best, top) :=
    max_key (py "author-year", score_author_year)
      [(py "numeric", score_numeric); (py "note-chicago", score_note);
       (py "mla-like", score_mla)] in
  let style_family := if (top =? 0)%nat then py "other" else best in
  let entry_type :=
    if sig_in_kw signals && sig_ed_kw signals then py "chapter"
    else if sig_vol_iss signals || (sig_vol_kw signals && sig_range signals)
    then py "journal-article"
    else if sig_place_pub signals && negb (sig_in_kw signals) then py "book"
    else if Re.found RE_THESIS s then py "thesis"
    else if Re.found RE_PROCEEDINGS s then py "proceedings"
    else py "other" in
  {| style_family := style_family; entry_type := entry_type |}.

End StyleDetector.

(* ====================================================================== *)
(** * ref_parser.py                                                         *)
(* ====================================================================== *)

Module RefParser.

(** [unicodedata.normalize("NFC", s)].  Text without combining marks is
    already in NFC; combining marks lie outside the modelled range. *)
Definition nfc (s : str) : str := s.

Definition RE_WS_RUN := Eval vm_compute in Re.compile "[ \t\u00A0\u2000-\u200B]+".
Definition RE_WS_2 := Eval vm_compute in Re.compile "\s{2,}".

Definition fix_ws (s : str) : str :=
  let s := Re.sub RE_WS_RUN (py " ") s in
  let s := Re.sub RE_WS_2 (py " ") s in
  strip s.

Definition RE_DIGIT_HYPHEN := Eval vm_compute in Re.compile "(?<=\d)\s*-\s*(?=\d)".

Definition norm_dashes (s : str) : str :=
  let s := replace (py "—") (py "—") (replace (py "–") (py "–") (replace (py "--") (py "—") s)) in
  Re.sub RE_DIGIT_HYPHEN (py "–") s.

Definition norm_quotes (s : str) : str :=
  let s := replace (py "„") (py "“") (replace [34%N] (py "“") s) in
  replace (py "‚") (py "‘") (replace (py "”") (py "”") (replace (py "‟") (py "“") s)).

Definition clean (s : str) : str := fix_ws (norm_quotes (norm_dashes (nfc s))).

Definition RE_YEAR := Eval vm_compute in Re.compile "\b(1[6-9]\d{2}|20\d{2}|21\d{2})\b".
Definition RE_DOI := Eval vm_compute in Re.compile_i "\b10\.\d{4,9}/[-._;()/:A-Z0-9]+\b".
Definition RE_ISBN := Eval vm_compute in
  Re.compile "\b97[89][-\s]?\d{1,5}[-\s]?\d{1,7}[-\s]?\d{1,7}[-\s]?[\dX]\b|\b\d{1,5}[-\s]?\d{1,7}[-\s]?\d{1,7}[-\s]?[\dX]\b".
Definition RE_URL := Eval vm_compute in Re.compile_i "https?://\S+".
Definition RE_IN := Eval vm_compute in Re.compile_i "\b(in|in:|dans|en:)\b".
Definition RE_ED := Eval vm_compute in
  Re.compile_i "\b(ed\.?|eds\.?|éd\.?|hg\.|hrsg\.|herausg\.)\b".
Definition RE_VOL_ISS := Eval vm_compute in Re.compile "\b(\d{1,4})\s*\(\s*(\d+)\s*\)\b".
Definition RE_PAGES := Eval vm_compute in
  Re.compile_i "\b(pp\.?|S\.?)\s*(\d{1,5}\s*(?:[-–—]\s*\d{1,5})?)\b".
Definition RE_RANGE := Eval vm_compute in Re.compile "\b(\d{1,5}\s*(?:[-–—]\s*\d{1,5})?)\b".
Definition RE_PLACE_PUB_COLON := Eval vm_compute in
  Re.compile "([A-ZÄÖÜ][A-Za-zÄÖÜäöüß.\- ]{2,40})\s*:\s*([^,;]{2,100})".
Definition RE_PUB_PLACE_COMMA := Eval vm_compute in
  Re.compile "([^,:;]{3,100})\s*,\s*([A-ZÄÖÜ][A-Za-zÄÖÜäöüß.\- ]{2,40})$".

Definition NAME_PARTICLES : list str :=
  map py ["von"; "van"; "der"; "den"; "de"; "del"; "da"; "di"; "du"; "la"; "le";
          "zu"; "zum"; "zur"; "y"]%string.

Definition in_set (w : str) (l : list str) : bool := existsb (str_eqb w) l.

Record person := { family : str; given : str }.

Definition RE_SEP := Eval vm_compute in Re.compile_i "\s*(;|&| und | and | y )\s*".
Definition RE_SEP_COMMA := Eval vm_compute in
  Re.compile_i "\s*,\s*und\s+|\s*,\s*and\s+".

(** One chunk of the author segment. *)
Definition person_of_chunk (c : str) : result person :=
  if mem 44%N c then
    match map strip (split_on1 (py ",") c) with
    | [last; first] => Ok {| family := last; given := first |}
    | _ => Raise ValueError
    end
  else
    let parts := split_ws c in
    match parts with
    | [p0] => Ok {| family := p0; given := [] |}
    | _ =>
        family <- nth_from_end parts 1 ;;
        let given := join (py " ") (drop_last 1 parts) in
        p2 <- nth_from_end parts 2 ;;
        if in_set (lower p2) NAME_PARTICLES
        then Ok {| family := p2 ++ py " " ++ family;
                   given := join (py " ") (drop_last 2 parts) |}
        else Ok {| family := family; given := given |}
    end.

Fixpoint people_of_chunks (chunks : list str) : result (list person) :=
  match chunks with
  | [] => Ok []
  | c :: rest =>
      p <- person_of_chunk c ;;
      ps <- people_of_chunks rest ;;
      Ok (p :: ps)
  end.

Definition split_people (text : str) : result (list person) :=
  let t := clean text in
  let t := Re.sub RE_SEP (py ";") t in
  let t := Re.sub RE_SEP_COMMA (py ";") t in
  let chunks :=
    map (strip_chars SP_COMMA_SEMI)
        (filter (fun c => nonempty (strip_chars SP_COMMA_SEMI c)) (split_on (py ";") t)) in
  people_of_chunks chunks.

Record ParsedRef := {
  style_family : str;
  entry_type : str;
  authors : list person;
  editors : list person;
  title : str;
  container_title : option str;
  publisher : option str;
  publisher_place : option str;
  year : option Z;
  volume : option str;
  issue : option str;
  pages : option str;
  doi : option str;
  isbn : option str;
  url : option str
}.

Definition extract_year (s : str) : result (option Z) :=
  let years := Re.findall1 RE_YEAR s in
  match years with
  | [] => Ok None
  | _ =>
      last_year <- nth_from_end years 1 ;;
      match int_of last_year with
      | Some y => Ok (Some y)
      | None => Raise ValueError
      end
  end.

Definition strip_and_capture (pattern : Re.regex) (s : str) : option str * str :=
  match Re.search pattern s with
  | None => (None, s)
  | Some m =>
      let value := Re.m_text m in
      let s2 := strip (firstn (Re.m_start m) s) ++ py " " ++ strip (skipn (Re.m_stop m) s) in
      (Some value, fix_ws s2)
  end.

Definition group_or_empty (m : Re.mobj) (i : nat) : str :=
  match Re.group m i with Some t => t | None => [] end.

Definition parse_place_publisher (s : str) : option str * option str :=
  match Re.search RE_PLACE_PUB_COLON s with
  | Some m => (Some (strip (group_or_empty m 1)), Some (strip (group_or_empty m 2)))
  | None =>
      match Re.search RE_PUB_PLACE_COMMA s with
      | Some m => (Some (strip (group_or_empty m 2)), Some (strip (group_or_empty m 1)))
      | None => (None, None)
      end
  end.

Definition RE_QUOTED := Eval vm_compute in Re.compile "“([^”]{3,200})”".

Definition extract_title_quoted (s : str) : option str * str :=
  match Re.search RE_QUOTED s with
  | Some m =>
      let title := strip (group_or_empty m 1) in
      let s2 := strip (firstn (Re.m_start m) s ++ py " " ++ skipn (Re.m_stop m) s) in
      (Some title, fix_ws s2)
  | None => (None, s)
  end.

Definition RE_COMMA_DOT := Eval vm_compute in Re.compile "[,.]\s*".
Definition RE_COLON_PAGES := Eval vm_compute in
  Re.compile "[:，]\s*(\d{1,5}\s*(?:[-–—]\s*\d{1,5})?)".

(** [xs[0]] of the non-empty list returned by [str.split]. *)
Definition first_piece (xs : list str) : str :=
  match xs with
  | x :: _ => x
  | [] => []
  end.

(** The three strip-and-capture passes, in the order DOI, ISBN, URL, and the
    text that remains after them. *)
Definition strip_identifiers (s0 : str) : option str * option str * option str * str :=
  let '(doi, s1) := strip_and_capture RE_DOI s0 in
  let '(isbn, s1) := strip_and_capture RE_ISBN s1 in
  let '(url, s1) := strip_and_capture RE_URL s1 in
  (doi, isbn, url, s1).


Definition parse_reference (raw : str) : result ParsedRef :=
  let s0 := clean raw in
  let meta := StyleDetector.detect_style_and_type s0 in
  let style_family := StyleDetector.style_family meta in
  let entry_type := StyleDetector.entry_type meta in
  let '(doi, isbn, url, s1) := strip_identifiers s0 in
  year <- extract_year s1 ;;
  let '(tmp_title, s2) := extract_title_quoted s1 in
  left <- (if truthy tmp_title
           then match find (py "“") s1 with
                | Some i => Ok (strip (firstn i s1))
                | None => Raise ValueError
                end
           else Ok s1) ;;
  let lead := first_piece (split_on (py " . ") (first_piece (split_on (py "—") left))) in
  let lead := strip_chars SP_COMMA_SEMI_DOT lead in
  let role_editors := Re.found RE_ED lead in
  let lead_clean := strip_chars SP_COMMA_SEMI_DOT (Re.sub RE_ED [] lead) in
  people <- (if nonempty lead_clean then split_people lead_clean else Ok []) ;;
  let editors := if role_editors then people else [] in
  let authors := if role_editors then [] else people in
  let title :=
    if truthy tmp_title then
      match tmp_title with Some t => t | None => [] end
    else
      let segs := split_on (py "—") s1 in
      match segs with
      | _ :: seg1 :: _ => strip_chars SP_COMMA_SEMI_DOT seg1
      | _ =>
          let rest := skipn (length lead) s1 in
          match Re.search RE_COMMA_DOT rest with
          | Some m => strip (firstn (Re.m_start m) rest)
          | None => strip rest
          end
      end in
  let '(container_title, pages) :=
    match Re.search RE_IN s1 with
    | Some m_in =>
        let after_in := strip (skipn (Re.m_stop m_in) s1) in
        match Re.orelse (Re.search RE_PAGES after_in) (fun _ => Re.search RE_RANGE after_in) with
        | Some m_pages =>
            (Some (strip_chars SP_COMMA_SEMI_DOT (firstn (Re.m_start m_pages) after_in)),
             Re.group m_pages 1)
        | None =>
            let '(place_tmp, pub_tmp) := parse_place_publisher after_in in
            if truthy place_tmp || truthy pub_tmp then
              match find (py ":") after_in with
              | Some end_idx => (Some (strip_chars SP_COMMA_SEMI_DOT (firstn end_idx after_in)), None)
              | None => (Some (strip_chars SP_COMMA_SEMI_DOT (drop_last 1 after_in)), None)
              end
            else (Some (strip_chars SP_COMMA_SEMI_DOT after_in), None)
        end
    | None => (None, None)
    end in
  let '(volume, issue, pages) :=
    match Re.search RE_VOL_ISS s1 with
    | Some m_vi =>
        let pages :=
          match Re.search RE_COLON_PAGES s1 with
          | Some m_pg => Re.group m_pg 1
          | None => pages
          end in
        (Re.group m_vi 1, Re.group m_vi 2, pages)
    | None => (None, None, pages)
    end in
  let pages :=
    if negb (truthy pages) then
      match Re.search RE_PAGES s1 with
      | Some m_pg2 => Re.group m_pg2 2
      | None => pages
      end
    else pages in
  let '(place, publisher) := parse_place_publisher s1 in
  Ok {| style_family := style_family; entry_type := entry_type;
        authors := authors; editors := editors; title := title;
        container_title := container_title; publisher := publisher;
        publisher_place := place; year := year; volume := volume; issue := issue;
        pages := pages; doi := doi; isbn := isbn; url := url |}.

End RefParser.

(* ====================================================================== *)
(** * ref_normalizer.py                                                     *)
(* ====================================================================== *)

Module Normalizer.

Import RefParser.

Definition STOPWORDS_TITLE : list str :=
  map py ["and"; "of"; "the"; "in"; "und"; "der"; "die"; "das"; "im"; "den"; "vom";
          "zum"; "zur"; "et"; "de"; "du"; "des"; "la"; "le"; "ou"; "or"; "to"; "for";
          "from"; "bei"; "am"; "an"]%string.

Definition count_if {A} (p : A -> bool) (l : list A) : nat := length (filter p l).

Definition _is_all_caps (s : str) : bool :=
  let letters := filter isalpha s in
  match letters with
  | [] => false
  | _ =>
      Qle_bool (85 # 100)
        (inject_Z (Z.of_nat (count_if isupper letters))
         / inject_Z (Z.of_nat (length letters)))
  end.

Definition RE_ROMAN := Eval vm_compute in Re.compile "[MDCLXVI]+".

Definition titlecase_word (i : nat) (w : str) : str :=
  if Re.fullmatch RE_ROMAN (upper w) then upper w
  else if (i =? 0)%nat || negb (in_set w STOPWORDS_TITLE) then capitalize w
  else w.

Fixpoint titlecase_words (i : nat) (ws : list str) : list str :=
  match ws with
  | [] => []
  | w :: rest => titlecase_word i w :: titlecase_words (S i) rest
  end.

Definition _smart_titlecase (s : str) : str :=
  let ws := split_ws (lower s) in
  join (py " ") (titlecase_words 0 ws).

Definition RE_SEMI := Eval vm_compute in Re.compile "\s*;\s*".
Definition RE_EMPTY_PARENS := Eval vm_compute in Re.compile "\s*\(\s*\)\s*$".

Definition _clean_title (t : str) : str :=
  let t := join (py " ") (split_ws t) in
  let t := if _is_all_caps t then _smart_titlecase t else t in
  let t := Re.sub RE_SEMI (py ": ") t in
  let t := Re.sub RE_EMPTY_PARENS [] t in
  strip_chars SP_COMMA_SEMI_DOT t.

(** A record as produced by the line-level extractor. *)
Record RawRecord := {
  raw_authors : str;
  raw_year : Z;
  raw_title : str;
  raw_publisher : str
}.

Record NormalizedRef := {
  n_style_family : str;
  n_entry_type : str;
  n_authors : list person;
  n_editors : list person;
  n_title : str;
  n_container_title : option str;
  n_publisher : option str;
  n_publisher_place : option str;
  n_year : option Z;
  n_volume : option str;
  n_issue : option str;
  n_pages : option str;
  n_doi : option str;
  n_isbn : option str;
  n_url : option str;
  n_raw : RawRecord
}.

(** ** Deduplication *)

Definition dedup_key := (str * str * Z)%type.

(** The family name that enters the key, before lower-casing. *)
Definition first_family (r : NormalizedRef) : str :=
  match n_authors r with
  | a :: _ => family a
  | [] => match n_editors r with
          | e :: _ => family e
          | [] => []
          end
  end.

(** [r.year or 0] *)
Definition year_or_0 (r : NormalizedRef) : Z :=
  match n_year r with
  | Some y => y
  | None => 0%Z
  end.

Definition keyf (r : NormalizedRef) : dedup_key :=
  (lower (first_family r), lower (n_title r), year_or_0 r).

Definition key_eqb (a b : dedup_key) : bool :=
  let '(fa, ta, ya) := a in
  let '(fb, tb, yb) := b in
  str_eqb fa fb && str_eqb ta tb && (ya =? yb)%Z.

(** The branch taken when [rapidfuzz] cannot be imported. *)
Definition exact_step (st : list dedup_key * list NormalizedRef) (r : NormalizedRef)
  : list dedup_key * list NormalizedRef :=
  let '(seen, out) := st in
  let key := keyf r in
  if existsb (key_eqb key) seen then (seen, out)
  else (key :: seen, out ++ [r]).

Definition dedupe_exact (records : list NormalizedRef) : list NormalizedRef :=
  snd (fold_left exact_step records ([], [])).

Section Fuzzy.

(** [rapidfuzz.fuzz.token_set_ratio], a similarity between 0 and 100. *)
Variable token_set_ratio : str -> str -> Q.
Variable threshold : Z.

(** [used[j] = True] *)
Fixpoint set_true (j : nat) (used : list bool) : list bool :=
  match used, j with
  | [], _ => []
  | _ :: r, O => true :: r
  | u :: r, S j' => u :: set_true j' r
  end.

(** The test of the inner loop on the keys of records [i] and [j]. *)
Definition is_duplicate (ki kj : dedup_key) : bool :=
  let '(fam_i, t_i, y_i) := ki in
  let '(fam_j, t_j, y_j) := kj in
  if negb (y_i =? 0)%Z && negb (y_j =? 0)%Z && (1 <? Z.abs (y_i - y_j))%Z then false
  else if nonempty fam_i && nonempty fam_j && negb (str_eqb fam_i fam_j) then false
  else Qle_bool (inject_Z threshold) (token_set_ratio t_i t_j).

Definition inner_step (records : list NormalizedRef) (ki : dedup_key)
  (used : list bool) (j : nat) : list bool :=
  if nth j used false then used
  else match nth_error records j with
       | Some rj => if is_duplicate ki (keyf rj) then set_true j used else used
       | None => used
       end.

Definition outer_step (records : list NormalizedRef)
  (st : list bool * list NormalizedRef) (i : nat) : list bool * list NormalizedRef :=
  let '(used, out) := st in
  if nth i used false then st
  else match nth_error records i with
       | Some ri =>
           let used := set_true i used in
           let used :=
             fold_left (inner_step records (keyf ri))
                       (seq (S i) (length records - S i)) used in
           (used, out ++ [ri])
       | None => st
       end.

Definition dedupe_fuzzy (records : list NormalizedRef) : list NormalizedRef :=
  snd (fold_left (outer_step records) (seq 0 (length records))
                 (repeat false (length records), [])).

End Fuzzy.

(** [dedupe_records(records, threshold)]; [rapidfuzz] is the similarity
    function of the fuzzy-matching library when it can be imported. *)
Definition dedupe_records (rapidfuzz : option (str -> str -> Q))
  (records : list NormalizedRef) (threshold : Z) : list NormalizedRef :=
  match rapidfuzz with
  | None => dedupe_exact records
  | Some token_set_ratio => dedupe_fuzzy token_set_ratio threshold records
  end.

End Normalizer.

(* ====================================================================== *)
(** * services/ref_extractor.py                                             *)
(* ====================================================================== *)

Module Extractor.

Definition RE_END_PUNCT := Eval vm_compute in Re.compile "[.;:,]$".

(** [ln[0].islower()] *)
Definition first_islower (ln : str) : bool :=
  match ln with
  | c :: _ => islower c
  | [] => false
  end.

Definition flush (out : list str) (buf : str) : list str :=
  if nonempty buf then out ++ [buf] else out.

Definition merge_step (st : list str * str) (ln : str) : list str * str :=
  let '(out, buf) := st in
  let ln := rstrip ln in
  if negb (nonempty ln) then (flush out buf, [])
  else if nonempty buf && negb (Re.found RE_END_PUNCT buf) && nonempty ln && first_islower ln
  then (out, buf ++ py " " ++ ln)
  else (flush out buf, ln).

Definition _merge_lines (page_text : str) : list str :=
  let '(out, buf) := fold_left merge_step (splitlines page_text) ([], []) in
  flush out buf.

Section ParsePage.

(** The parser tiers of [_parse_page] for one merged line, taken together:
    the caller's parser, the pattern of the detected style, the universal
    fallback; [None] when all of them decline. *)
Variable parse_line : str -> option Normalizer.RawRecord.

(** [rec and rec["authors"] and rec["title"]] *)
Definition accepted (rec : option Normalizer.RawRecord) : bool :=
  match rec with
  | Some r => nonempty (Normalizer.raw_authors r) && nonempty (Normalizer.raw_title r)
  | None => false
  end.

Definition _parse_page (txt : str) : list Normalizer.RawRecord :=
  flat_map (fun raw =>
              let rec := parse_line raw in
              if accepted rec
              then match rec with Some r => [r] | None => [] end
              else [])
           (_merge_lines txt).

End ParsePage.

End Extractor.

(* ====================================================================== *)
(** * The document, as the PDF libraries present it                         *)
(* ====================================================================== *)

(** A heading accepted by the chapter analysis ([detect_chapters]). *)
Record heading := { h_page : Z; h_text : str }.

(** What the detector reads from one PDF: the page texts from PyMuPDF
    ([get_text("text", sort=True)]) and from pdfplumber ([extract_text() or
    ""]), the outline ([get_toc(simple=True)]: level, title, page), and the
    result of the font and chapter analysis ([None] when it reports an
    error). *)
Record document := {
  page_texts : list str;
  plumber_texts : list str;
  outline : list (Z * str * Z);
  chapters : option (list heading)
}.

Definition page_count (doc : document) : Z := Z.of_nat (length (page_texts doc)).

(** [doc.load_page(i)] for [i >= 0] *)
Definition load_page (doc : document) (i : nat) : result str :=
  match nth_error (page_texts doc) i with
  | Some t => Ok t
  | None => Raise ValueError
  end.

(** [str(n)] for an integer *)
Fixpoint digits_fuel (fuel : nat) (n : N) (acc : str) : str :=
  let acc' := (48 + n mod 10)%N :: acc in
  match fuel with
  | O => acc'
  | S f => if (n <? 10)%N then acc' else digits_fuel f (n / 10)%N acc'
  end.

Definition str_of_Z (z : Z) : str :=
  let n := Z.to_N (Z.abs z) in
  let ds := digits_fuel (N.to_nat (N.log2 n)) n [] in
  if (z <? 0)%Z then 45%N :: ds else ds.

(* ====================================================================== *)
(** * services/delb/extract_toc.py                                          *)
(* ====================================================================== *)

Module ExtractToc.

(** The union of all [BASE_KEYWORDS] values; the detected language only
    adds keys that the union already holds. *)
Definition BASE_KEYWORDS : list str :=
  map py ["table of contents"; "contents"; "content"; "inhaltsverzeichnis";
          "table des matières"; "índice"; "indice"; "sommario"]%string.

Definition DOT_LEADER_RE := Eval vm_compute in Re.compile "\.{2,}\s*(\d+|[IVXLCDM]+)\s*$".
Definition NUM_RE := Eval vm_compute in Re.compile "\s(\d+|[IVXLCDM]+)\s*$".

Definition indent (lvl : Z) : str :=
  concat (repeat (py "  ") (Z.to_nat (lvl - 1))).

Definition _outline_fallback (doc : document) : option Z * list str :=
  match outline doc with
  | [] => (None, [])
  | (_, _, pg0) :: _ =>
      (Some (pg0 + 1)%Z,
       map (fun '(lvl, title, pg) =>
              indent lvl ++ title ++ py " ...... " ++ str_of_Z (pg + 1))
           (outline doc))
  end.

Definition stripped_lines (text : str) : list str :=
  map strip (filter (fun ln => nonempty (strip ln)) (splitlines text)).

Definition _looks_like_toc (text : str) : result bool :=
  if negb (nonempty text) then Ok false
  else
    let lower := lower text in
    if existsb (fun k => contains k lower) BASE_KEYWORDS then Ok true
    else
      let lines := stripped_lines text in
      let dotted := Normalizer.count_if (Re.found DOT_LEADER_RE) lines in
      let numbered := Normalizer.count_if (Re.found NUM_RE) lines in
      if (3 <=? dotted)%nat then Ok true
      else
        match lines with
        | [] => Raise ZeroDivisionError
        | _ =>
            Ok (negb (Qle_bool (inject_Z (Z.of_nat numbered) / inject_Z (Z.of_nat (length lines)))
                               (6 # 10))
                && (4 <=? numbered)%nat)
        end.

(** The heuristic page scan over the first [limit] pages. *)
Fixpoint scan_pages (texts : list str) (idx : nat) (limit : nat)
  : result (option Z * list str) :=
  match limit with
  | O => Ok (None, [])
  | S limit' =>
      match texts with
      | [] => Raise IndexError
      | txt :: rest =>
          is_toc <- _looks_like_toc txt ;;
          if is_toc then Ok (Some (Z.of_nat idx + 1)%Z, stripped_lines txt)
          else scan_pages rest (S idx) limit'
      end
  end.

(** Truthiness of an optional integer. *)
Definition truthy_int (o : option Z) : bool :=
  match o with
  | Some z => negb (z =? 0)%Z
  | None => false
  end.

(** [_scan_pdf(pdf, max_pages=None, use_ocr=False)] *)
Definition _scan_pdf (doc : document) : result (option Z * list str) :=
  let '(page_no, toc_lines) := _outline_fallback doc in
  if truthy_int page_no then Ok (page_no, toc_lines)
  else
    let total_pages := length (plumber_texts doc) in
    let limit := ((total_pages + 2) / 3)%nat in
    scan_pages (plumber_texts doc) 0 limit.

End ExtractToc.

(* ====================================================================== *)
(** * services/delb/keyword_hits.py                                         *)
(* ====================================================================== *)

(** The term catalog [bibliography_terms.csv] next to the scripts: absent,
    or its rows as [csv.reader] yields them. *)
Definition csv := list (list str).

Module KeywordHits.

Record module := { TERMS : list str; _TERM_RE : Re.regex }.

Fixpoint index_of (x : str) (l : list str) : option nat :=
  match l with
  | [] => None
  | y :: r => if str_eqb x y then Some O else option_map S (index_of x r)
  end.

(** [[row["term"].strip() for row in csv.DictReader(fh) if row.get("term")]] *)
Definition dict_terms (rows : csv) : list str :=
  match rows with
  | [] => []
  | header :: body =>
      match option_map (fun k => (length header - 1 - k)%nat)
                       (index_of (py "term") (rev header)) with
      | None => []
      | Some i =>
          flat_map (fun row =>
                      match row with
                      | [] => []
                      | _ => let cell := nth i row [] in
                             if nonempty cell then [strip cell] else []
                      end)
                   body
      end
  end.

(** [re.escape(t)] as a pattern: the characters of [t], literally. *)
Fixpoint literal (t : str) : Re.re :=
  match t with
  | [] => Re.Empty
  | [c] => Re.Lit c
  | c :: r => Re.Seq (Re.Lit c) (literal r)
  end.

Fixpoint alternatives (ts : list str) : Re.re :=
  match ts with
  | [] => Re.Empty
  | [t] => literal t
  | t :: r => Re.Alt (literal t) (alternatives r)
  end.

(** [re.compile(r"\b(" + "|".join(map(re.escape, TERMS)) + r")\b", re.I)] *)
Definition term_re (terms : list str) : Re.regex :=
  {| Re.ast := Re.Seq Re.WordB (Re.Seq (Re.Group 1 (alternatives terms)) Re.WordB);
     Re.icase := true; Re.names := [] |}.

Definition MSG_MISSING : str := py "bibliography_terms.csv fehlt neben dem Skript!".
Definition MSG_EMPTY : str := py "bibliography_terms.csv leer oder Spaltenname ≠ 'term'".

(** Execution of the module body at import. *)
Definition load (file : option csv) : result module :=
  match file with
  | None => Raise (SystemExit MSG_MISSING)
  | Some rows =>
      let terms := dict_terms rows in
      match terms with
      | [] => Raise (SystemExit MSG_EMPTY)
      | _ => Ok {| TERMS := terms; _TERM_RE := term_re terms |}
      end
  end.

(** [check_page]: does the page text hold a catalog term? *)
Definition check_page (M : module) (txt : str) : bool := Re.found (_TERM_RE M) txt.

Fixpoint hits_from (M : module) (texts : list str) (idx : nat) : list Z :=
  match texts with
  | [] => []
  | txt :: rest =>
      if check_page M txt then (Z.of_nat idx + 1)%Z :: hits_from M rest (S idx)
      else hits_from M rest (S idx)
  end.

(** [analyse_pdf]: the 1-based numbers of the pages with a hit. *)
Definition analyse_pdf (M : module) (doc : document) : list Z :=
  hits_from M (page_texts doc) 0.

End KeywordHits.

(* ====================================================================== *)
(** * services/delb/find_bibliography.py                                    *)
(* ====================================================================== *)

Module FindBibliography.

(** ** Module body: the term catalog *)

Record module := {
  BIB_TERMS : list str;
  _RE_TERMS : Re.regex;
  keyword_hits : KeywordHits.module
}.

Definition FALLBACK_TERMS : list str :=
  map py ["references"; "bibliography"; "literatur"; "literaturverzeichnis";
          "works cited"; "literature cited"; "quellen"]%string.

(** The elements of a set comprehension, each once. *)
Fixpoint as_set (l : list str) : list str :=
  match l with
  | [] => []
  | x :: r => if RefParser.in_set x r then as_set r else x :: as_set r
  end.

(** [{cell.strip().lower() for row in reader for cell in row if cell.strip()}] *)
Definition csv_terms (rows : csv) : list str :=
  as_set (flat_map (fun row =>
                      flat_map (fun cell =>
                                  if nonempty (strip cell) then [lower (strip cell)] else [])
                               row)
                   rows).

(** Lines 68 to 79: the catalog when the file exists, the built-in
    development set otherwise. *)
Definition bind_BIB_TERMS (file : option csv) : list str :=
  match file with
  | Some rows => csv_terms rows
  | None => FALLBACK_TERMS
  end.

(** [re.compile("|".join(map(re.escape, BIB_TERMS)), re.I)] *)
Definition terms_re (terms : list str) : Re.regex :=
  {| Re.ast := KeywordHits.alternatives terms; Re.icase := true; Re.names := [] |}.

(** Execution of the module body at import: the term set is bound first;
    the import of [keyword_hits] at line 256 runs that module's body. *)
Definition load (file : option csv) : result module :=
  let bib_terms := bind_BIB_TERMS file in
  let re_terms := terms_re bib_terms in
  kw <- KeywordHits.load file ;;
  Ok {| BIB_TERMS := bib_terms; _RE_TERMS := re_terms; keyword_hits := kw |}.

(** ** Interval scoring *)

Definition MIN_BLOCK_LEN : nat := 2.

(** [statistics.mean] *)
Definition sumQ (l : list Q) : Q := fold_right Qplus 0 l.

Definition mean (l : list Q) : result Q :=
  match l with
  | [] => Raise StatisticsError
  | _ => Ok (sumQ l / inject_Z (Z.of_nat (length l)))
  end.

Fixpoint insertQ (x : Q) (l : list Q) : list Q :=
  match l with
  | [] => [x]
  | y :: r => if Qle_bool x y then x :: l else y :: insertQ x r
  end.

Definition sortedQ (l : list Q) : list Q := fold_right insertQ [] l.

(** [statistics.median] *)
Definition median (l : list Q) : result Q :=
  match l with
  | [] => Raise StatisticsError
  | _ =>
      let data := sortedQ l in
      let n := length data in
      if Nat.odd n then Ok (nth (n / 2) data 0)
      else Ok ((nth (n / 2 - 1) data 0 + nth (n / 2) data 0) / 2)
  end.

(** [scores[a:b+1]] *)
Definition slice (scores : list Q) (a b : nat) : list Q :=
  firstn (S b - a) (skipn a scores).

Definition _choose_better (cur : option (nat * nat)) (cand : nat * nat)
  (scores : list Q) : result (nat * nat) :=
  match cur with
  | None => Ok cand
  | Some cur =>
      cur_avg <- mean (slice scores (fst cur) (snd cur)) ;;
      cand_avg <- mean (slice scores (fst cand) (snd cand)) ;;
      if negb (Qle_bool cand_avg cur_avg)
         || (Qeq_bool cand_avg cur_avg && (snd cur - fst cur <? snd cand - fst cand)%nat)
      then Ok cand
      else Ok cur
  end.

(** One round of the loop over [enumerate(scores)]; the state is
    [(best, cur)]. *)
Definition run_step (scores : list Q) (threshold : Q)
  (st : result (option (nat * nat) * option nat)) (item : nat * Q)
  : result (option (nat * nat) * option nat) :=
  '(best, cur) <- st ;;
  let '(idx, sc) := item in
  if Qle_bool threshold sc then
    Ok (best, match cur with None => Some idx | Some c => Some c end)
  else
    match cur with
    | Some c =>
        best' <- _choose_better best (c, (idx - 1)%nat) scores ;;
        Ok (Some best', None)
    | None => Ok (best, cur)
    end.

(** The best contiguous interval of [scores] against a threshold
    ([med * boost]), before the test on its length. *)
Definition best_interval (scores : list Q) (threshold : Q) : result (option (nat * nat)) :=
  '(best, cur) <- fold_left (run_step scores threshold)
                     (combine (seq 0 (length scores)) scores) (Ok (None, None)) ;;
  match cur with
  | Some c =>
      best' <- _choose_better best (c, (length scores - 1)%nat) scores ;;
      Ok (Some best')
  | None => Ok best
  end.

(** The interval kept by [_evaluate], in positions of the score array. *)
Definition select_interval (scores : list Q) (threshold : Q) : result (option (nat * nat)) :=
  best <- best_interval scores threshold ;;
  match best with
  | Some (a, b) =>
      if (MIN_BLOCK_LEN <=? b - a + 1)%nat then Ok (Some (a, b)) else Ok None
  | None => Ok None
  end.

Section Detector.

(** [_score_page], the float-valued text heuristic, and the optional
    oracle behind [_gpt_flag] ([None]: no client or no API key). *)
Variable _score_page : str -> Q.
Variable oracle : option (str -> result bool).

Fixpoint flags_of (g : str -> result bool) (gpt_only : bool)
  (pages : list (nat * str)) (scores : list Q) : result (list bool) :=
  match pages, scores with
  | (_, txt) :: ps, sc :: ss =>
      ok <- (if gpt_only || negb (Qle_bool (75 # 100) sc) then g txt else Ok false) ;;
      rest <- flags_of g gpt_only ps ss ;;
      Ok (ok :: rest)
  | _, _ => Ok []
  end.

Fixpoint apply_flags (flags : list bool) (scores : list Q) : list Q :=
  match flags, scores with
  | ok :: fs, sc :: ss => (if ok then 1 else sc) :: apply_flags fs ss
  | _, _ => scores
  end.

(** The refinement block: a failure of any request leaves the scores as
    they were. *)
Definition refine (use_gpt gpt_only : bool) (pages : list (nat * str))
  (scores : list Q) : list Q :=
  match oracle with
  | Some g =>
      if use_gpt then
        match flags_of g gpt_only pages scores with
        | Ok flags => apply_flags flags scores
        | Raise _ => scores
        end
      else scores
  | None => scores
  end.

Definition minZ (l : list Z) (d : Z) : Z := fold_right Z.min d l.
Definition maxZ (l : list Z) (d : Z) : Z := fold_right Z.max d l.

(** [_evaluate(pages)]; [pages] pairs a 0-based page index with its text. *)
Definition _evaluate (use_gpt gpt_only : bool) (boost : Q) (pages : list (nat * str))
  : result (option (Z * Z)) :=
  let scores := map (fun p => _score_page (snd p)) pages in
  med <- median scores ;;
  let scores := refine use_gpt gpt_only pages scores in
  best <- select_interval scores (med * boost) ;;
  match best with
  | Some (a, b) =>
      let abs_pages :=
        map (fun i => (Z.of_nat (fst (nth i pages (O, []))) + 1)%Z) (seq a (S b - a)) in
      match abs_pages with
      | [] => Raise ValueError
      | p :: rest => Ok (Some (minZ rest p, maxZ rest p))
      end
  | None => Ok None
  end.

(** [range(n-1, max(-1, n-tail_n-1), -1)] *)
Definition tail_indices (n tail_n : Z) : list nat :=
  let stop := Z.max (-1) (n - tail_n - 1) in
  map (fun k => Z.to_nat (n - 1 - Z.of_nat k)) (seq 0 (Z.to_nat (n - 1 - stop))).

Fixpoint load_pages (doc : document) (idxs : list nat) : result (list (nat * str)) :=
  match idxs with
  | [] => Ok []
  | i :: rest =>
      txt <- load_page doc i ;;
      ps <- load_pages doc rest ;;
      Ok ((i, txt) :: ps)
  end.

Definition _pull_pages (doc : document) (head tail : Q) : result (list (nat * str)) :=
  let n := page_count doc in
  let head_n := Qceiling (inject_Z n * head) in
  let tail_n := Qceiling (inject_Z n * tail) in
  front <- load_pages doc (seq 0 (Z.to_nat head_n)) ;;
  back <- load_pages doc (tail_indices n tail_n) ;;
  Ok (front ++ back).

(** [_detect_block]: the bounds it returns (the page text returned with
    them is dropped by every caller). *)
Definition _detect_block (doc : document) (head tail : Q) (use_gpt gpt_only : bool)
  (boost : Q) : result (option (Z * Z)) :=
  sample <- _pull_pages doc head tail ;;
  res <- _evaluate use_gpt gpt_only boost sample ;;
  match res with
  | Some (first, last) =>
      _ <- load_page doc (Z.to_nat (first - 1)) ;;
      Ok res
  | None =>
      let pages := combine (seq 0 (length (page_texts doc))) (page_texts doc) in
      res <- _evaluate use_gpt gpt_only boost pages ;;
      match res with
      | Some (first, last) =>
          match nth_error pages (Z.to_nat (first - 1)) with
          | Some _ => Ok res
          | None => Raise IndexError
          end
      | None => Ok None
      end
  end.

(** ** The orchestrator *)

Definition _TOC_KEYS : list str :=
  map py ["bibliograph"; "literatur"; "reference"; "works cited"; "literature cited"]%string.

Definition _TOC_NUM := Eval vm_compute in Re.compile "(?:\.{2,}|\s)(\d{1,4})\s*$".

Fixpoint _bib_from_toc (lines : list str) : option Z :=
  match lines with
  | [] => None
  | ln :: rest =>
      let low := lower ln in
      if existsb (fun k => contains k low) _TOC_KEYS then
        match Re.search _TOC_NUM ln with
        | Some m =>
            match int_of (RefParser.group_or_empty m 1) with
            | Some n => Some n
            | None => _bib_from_toc rest
            end
        | None => _bib_from_toc rest
        end
      else _bib_from_toc rest
  end.

Definition _RE_BIB_HDR := Eval vm_compute in
  Re.compile_i "\b(bibliograph\w*|references?|reference\s+list|works\s+cited|literaturverzeichnis|quellen(?:verzeichnis| und literatur)?)\b".

(** The options of [detect_bibliography] that bear on its result. *)
Record options := {
  kw_min_block : Z;
  head : Q;
  tail : Q;
  use_gpt : bool;
  boost : Q
}.

Definition default_options : options :=
  {| kw_min_block := 2; head := 5 # 100; tail := 25 # 100; use_gpt := false; boost := 1 |}.

Fixpoint insertZ (x : Z) (l : list Z) : list Z :=
  match l with
  | [] => [x]
  | y :: r => if (x <=? y)%Z then x :: l else y :: insertZ x r
  end.

(** [kw_pages.sort()] *)
Definition sortZ (l : list Z) : list Z := fold_right insertZ [] l.

(** The loop that cuts the sorted hits into runs of consecutive pages;
    the state is [(runs, cur)]. *)
Definition runs_step (st : list (list Z) * list Z) (p : Z) : list (list Z) * list Z :=
  let '(runs, cur) := st in
  if (p =? last cur 0 + 1)%Z then (runs, cur ++ [p])
  else (runs ++ [cur], [p]).

(** [max(runs, key=len)]: the first run of the largest length. *)
Fixpoint longest (best : list Z) (rest : list (list Z)) : list Z :=
  match rest with
  | [] => best
  | r :: rs => if (length best <? length r)%nat then longest r rs else longest best rs
  end.

Definition keyword_block (kw_pages : list Z) (kw_min_block : Z) : option (Z * Z) :=
  match sortZ kw_pages with
  | [] => None
  | p0 :: ps =>
      let '(runs, cur) := fold_left runs_step ps ([], [p0]) in
      let runs := runs ++ [cur] in
      match runs with
      | [] => None
      | r :: rs =>
          let best_run := longest r rs in
          if (kw_min_block <=? Z.of_nat (length best_run))%Z
          then Some (hd 0%Z best_run, last best_run 0%Z)
          else None
      end
  end.

(** [toc_pg or 0] *)
Definition toc_barrier (toc_pg : option Z) : Z :=
  match toc_pg with
  | Some p => p
  | None => 0%Z
  end.

Definition bib_headings (chaps : list heading) (barrier : Z) : list heading :=
  filter (fun h => Re.found _RE_BIB_HDR (h_text h) && (barrier <? h_page h)%Z) chaps.

(** Lines 339 to 346: the heading page, tightened by a scan with
    [head=0.0, tail=0.0]. *)
Definition tighten (doc : document) (o : options) (first : Z) : result (option (Z * Z)) :=
  block <- _detect_block doc 0 0 (use_gpt o) false (boost o) ;;
  match block with
  | Some (b0, b1) =>
      if (b0 <=? first)%Z && (first <=? b1)%Z then Ok (Some (b0, b1))
      else Ok (Some (first, first))
  | None => Ok (Some (first, first))
  end.

Definition detect_bibliography (M : module) (doc : document) (o : options)
  : result (option (Z * Z)) :=
  (* 0) table of contents *)
  '(toc_pg, toc_lines) <- ExtractToc._scan_pdf doc ;;
  let bib := _bib_from_toc toc_lines in
  if ExtractToc.truthy_int bib then
    match bib with
    | Some b => Ok (Some (b, b))
    | None => Ok None
    end
  else
  (* 1) keyword hits *)
  let kw_pages := KeywordHits.analyse_pdf (keyword_hits M) doc in
  match keyword_block kw_pages (kw_min_block o) with
  | Some run => Ok (Some run)
  | None =>
  (* 2) heading fonts *)
  let hdrs :=
    match chapters doc with
    | Some chaps => bib_headings chaps (toc_barrier toc_pg)
    | None => []
    end in
  match hdrs with
  | h :: rest => tighten doc o (minZ (map h_page rest) (h_page h))
  | [] =>
  (* 3) full heuristic *)
  _detect_block doc (head o) (tail o) (use_gpt o) false (boost o)
  end
  end.

End Detector.

End FindBibliography.

(* ====================================================================== *)
(** * Specification-level notions                                          *)
(* ====================================================================== *)

Module Spec.

(** ** Deduplication: first-seen filtering

    A record is kept exactly when no record kept before it counts as its
    duplicate. *)
Section FirstSeen.

Variable A : Type.
Variable dup : A -> A -> bool.      (* [dup k r]: [r] duplicates the kept [k] *)

Definition keep_step (kept : list A) (r : A) : list A :=
  if existsb (fun k => dup k r) kept then kept else kept ++ [r].

Definition first_seen (l : list A) : list A := fold_left keep_step l [].

(** [l1] is [l2] with some elements left out, the order unchanged. *)
Inductive subsequence : list A -> list A -> Prop :=
| sub_nil : subsequence [] []
| sub_skip x l1 l2 : subsequence l1 l2 -> subsequence l1 (x :: l2)
| sub_keep x l1 l2 : subsequence l1 l2 -> subsequence (x :: l1) (x :: l2).

End FirstSeen.

(** Exact mode: equal keys. *)
Definition same_key (k r : Normalizer.NormalizedRef) : bool :=
  Normalizer.key_eqb (Normalizer.keyf r) (Normalizer.keyf k).

(** Fuzzy mode, in the words of the specification: family names absent or
    equal, years absent or within one, title similarity at least the
    threshold. *)
Definition fuzzy_duplicate (token_set_ratio : str -> str -> Q) (threshold : Z)
  (k r : Normalizer.NormalizedRef) : bool :=
  let '(fam_k, t_k, y_k) := Normalizer.keyf k in
  let '(fam_r, t_r, y_r) := Normalizer.keyf r in
  (negb (nonempty fam_k) || negb (nonempty fam_r) || str_eqb fam_k fam_r)
  && ((y_k =? 0)%Z || (y_r =? 0)%Z || (Z.abs (y_k - y_r) <=? 1)%Z)
  && Qle_bool (inject_Z threshold) (token_set_ratio t_k t_r).

Definition duplicate_of (rapidfuzz : option (str -> str -> Q)) (threshold : Z)
  : Normalizer.NormalizedRef -> Normalizer.NormalizedRef -> bool :=
  match rapidfuzz with
  | None => same_key
  | Some ratio => fuzzy_duplicate ratio threshold
  end.

(** ** Interval selection: maximal runs and their order of preference *)

(** Page [i] reaches the threshold. *)
Definition qualifies (scores : list Q) (threshold : Q) (i : nat) : bool :=
  match nth_error scores i with
  | Some sc => Qle_bool threshold sc
  | None => false
  end.

(** Positions [a..b] form a maximal run of pages that reach the threshold. *)
Definition is_maximal_run (scores : list Q) (threshold : Q) (a b : nat) : bool :=
  (a <=? b)%nat
  && forallb (qualifies scores threshold) (seq a (S b - a))
  && ((a =? 0)%nat || negb (qualifies scores threshold (a - 1)))
  && negb (qualifies scores threshold (S b)).

(** The mean score of positions [a..b]. *)
Definition avg (scores : list Q) (a b : nat) : Q :=
  FindBibliography.sumQ (FindBibliography.slice scores a b)
  / inject_Z (Z.of_nat (S b - a)).

(** Run [x] is preferred to run [y]: a higher mean, then a greater length,
    then the earlier start. *)
Definition preferred (scores : list Q) (x y : nat * nat) : Prop :=
  avg scores (fst y) (snd y) < avg scores (fst x) (snd x)
  \/ (avg scores (fst y) (snd y) == avg scores (fst x) (snd x)
      /\ ((snd y - fst y < snd x - fst x)%nat
          \/ ((snd y - fst y = snd x - fst x)%nat /\ (fst x <= fst y)%nat))).

(** ** Year extraction: the last year-like token *)

(** A four-digit token starts at this position: four decimal digits, not
    preceded and not followed by a word character, with a value between
    [lo] and [hi]. *)
Definition year_token (lo hi : Z) (prev : option char) (s : str) : option Z :=
  match s with
  | d1 :: d2 :: d3 :: d4 :: rest =>
      if isdecimal d1 && isdecimal d2 && isdecimal d3 && isdecimal d4
         && negb (match prev with Some c => isword c | None => false end)
         && negb (match rest with c :: _ => isword c | [] => false end)
      then
        match int_of [d1; d2; d3; d4] with
        | Some v => if ((lo <=? v) && (v <=? hi))%Z then Some v else None
        | None => None
        end
      else None
  | _ => None
  end.

Fixpoint year_tokens (lo hi : Z) (prev : option char) (s : str) : list Z :=
  match s with
  | [] => []
  | c :: r =>
      match year_token lo hi prev s with
      | Some y => y :: year_tokens lo hi (Some c) r
      | None => year_tokens lo hi (Some c) r
      end
  end.

Definition last_opt {A} (l : list A) : option A :=
  match rev l with
  | x :: _ => Some x
  | [] => None
  end.

(** The value of the last year-like token of [s], if there is one. *)
Definition last_year (lo hi : Z) (s : str) : option Z :=
  last_opt (year_tokens lo hi None s).

End Spec.

(* ====================================================================== *)
(** * Sample inputs                                                         *)
(* ====================================================================== *)

Module Samples.

Definition SMITH_DOE : str :=
  py "Smith, J., and Doe, A. (2020). A Study of Things. Journal of Studies, 12(3), 45–67.".

(** A chunk that holds nothing but a line feed between two commas. *)
Definition LONE_NEWLINE : str := py "a;," ++ [10%N] ++ py ",;b".


Definition catalog : csv := [[py "term"]; [py "References"]].

Definition keyword_module : KeywordHits.module :=
  {| KeywordHits.TERMS := [py "References"];
     KeywordHits._TERM_RE := KeywordHits.term_re [py "References"] |}.

Definition detector_module : FindBibliography.module :=
  {| FindBibliography.BIB_TERMS := [py "term"; py "references"];
     FindBibliography._RE_TERMS := FindBibliography.terms_re [py "term"; py "references"];
     FindBibliography.keyword_hits := keyword_module |}.

Definition contents_page : str :=
  py "Contents" ++ [10%N] ++ py "1 Introduction ..... 1" ++ [10%N]
  ++ py "Bibliography ..... 391".

(** Two pages; the first is a table of contents that sends the
    bibliography to page 391. *)
Definition toc_document : document :=
  {| page_texts := [contents_page; py "Introduction"];
     plumber_texts := [contents_page; py "Introduction"];
     outline := [];
     chapters := None |}.

Definition flat_score (_ : str) : Q := 0.

Definition SCORES : list Q := [1; 0; 1 # 2; 1 # 2; 0].

(** Five pages "a" to "e" and a scorer that gives them [SCORES]. *)
Definition LETTER_PAGES : list (nat * str) :=
  [(0, py "a"); (1, py "b"); (2, py "c"); (3, py "d"); (4, py "e")]%nat.

Definition letter_score (txt : str) : Q :=
  if str_eqb txt (py "a") then 1
  else if str_eqb txt (py "c") || str_eqb txt (py "d") then 1 # 2
  else 0.

Definition HISTORY : str := py "THE HISTORY OF THE WORLD".
Definition CHAPTER : str := py "CHAPTER XIV OVERVIEW".
Definition MOND : str := py "DER MANN IM MOND".

End Samples.

(* ====================================================================== *)
(** * Invariants and auxiliary notions of the proofs                       *)
(* ====================================================================== *)

Module Inv.

(** ** Soft-wrap merging *)

Definition J (g : list str) : str := join (py " ") g.



(** ** Deduplication *)

(** No element duplicates an earlier one. *)
Definition chain (A : Type) (dup : A -> A -> bool) (l : list A) : Prop :=
  ForallOrdPairs (fun x y => dup x y = false) l.

Section FuzzyLoop.

Variable token_set_ratio : str -> str -> Q.
Variable threshold : Z.
Variable records : list Normalizer.NormalizedRef.

Definition dup_at (ki : Normalizer.dedup_key) (j : nat) : bool :=
  match nth_error records j with
  | Some rj => Normalizer.is_duplicate token_set_ratio threshold ki (Normalizer.keyf rj)
  | None => false
  end.

(** What the outer loop has established when it reaches index [i]. *)
Definition outer_inv (i : nat) (st : list bool * list Normalizer.NormalizedRef) : Prop :=
  length (fst st) = length records
  /\ snd st = Spec.first_seen (Spec.fuzzy_duplicate token_set_ratio threshold)
                (firstn i records)
  /\ forall j rj, (i <= j)%nat -> nth_error records j = Some rj ->
       nth j (fst st) false
       = existsb (fun k => Spec.fuzzy_duplicate token_set_ratio threshold k rj) (snd st).

End FuzzyLoop.

(** ** Interval selection *)

(** What the loop over the scores has established when it reaches
    position [i]. *)
Definition loop_inv (scores : list Q) (threshold : Q)
  (i : nat) (best : option (nat * nat)) (cur : option nat) : Prop :=
  (i <= length scores)%nat
  /\ match cur with
     | Some c => (c < i)%nat
                 /\ (forall j, (c <= j < i)%nat -> Spec.qualifies scores threshold j = true)
                 /\ (c = O \/ Spec.qualifies scores threshold (c - 1) = false)
     | None => i = O \/ Spec.qualifies scores threshold (i - 1) = false
     end
  /\ match best with
     | Some (a, b) =>
         Spec.is_maximal_run scores threshold a b = true /\ (S b < i)%nat
         /\ forall c d, Spec.is_maximal_run scores threshold c d = true -> (S d < i)%nat ->
                        Spec.preferred scores (a, b) (c, d)
     | None => forall c d, Spec.is_maximal_run scores threshold c d = true ->
                           (S d < i)%nat -> False
     end.

(** ** Bounds *)

(** A run of consecutive hits: not empty, from its head up to its last
    element, both of them hits. *)
Definition good_run (src : list Z) (r : list Z) : Prop :=
  r <> [] /\ (hd 0 r <= last r 0)%Z /\ In (hd 0%Z r) src /\ In (last r 0%Z) src.

(** Every sampled page index lies inside the document. *)
Definition in_document (doc : document) (pages : list (nat * str)) : Prop :=
  Forall (fun p => (fst p < length (page_texts doc))%nat) pages.

(** ** The year pattern *)

Definition K0 (z : Re.cur) (cs : Re.caps) : option (Re.cur * Re.caps) := Some (z, cs).

(** The condition under which [RE_YEAR] matches the four characters
    [d1 d2 d3 d4] between [b] and [rest]. *)
Definition year_cond (b : str) (d1 d2 d3 d4 : char) (rest : str) : bool :=
  xorb (match b with c :: _ => isword c | [] => false end) (isword d1)
  && (((d1 =? 49)%N && in_range 54%N 57%N d2)
      || ((d1 =? 50)%N && ((d2 =? 48)%N || (d2 =? 49)%N)))
  && isdecimal d3 && isdecimal d4
  && xorb (isword d4) (match rest with c :: _ => isword c | [] => false end).

Definition digits_value (d1 d2 d3 d4 : char) : Z :=
  Z.of_N (1000 * (d1 - 48) + 100 * (d2 - 48) + 10 * (d3 - 48) + (d4 - 48)).

(** The text of group 1, read as a number. *)
Definition year_of (mo : Re.mobj) : option Z :=
  int_of (match Re.group mo 1 with Some t => t | None => [] end).

End Inv.

(* ====================================================================== *)
(** * services/delb/find_bibliography.py: the page score                   *)
(* ====================================================================== *)

Module PageScore.

Definition _RE_DOI := Eval vm_compute in Re.compile_i "10\.\d{4,9}/[-._;()/:A-Za-z0-9]+".
Definition _RE_YEAR_BARE := Eval vm_compute in Re.compile "\b(1[5-9]\d{2}|20\d{2})[a-z]?\b".
Definition _RE_NUM := Eval vm_compute in Re.compile "^\s*\[?\d{1,3}\]?[:.) ]".
Definition _RE_AUTH := Eval vm_compute in
  Re.compile "^[A-ZÄÖÜ][\w’'\-ÄÖÜäöüß]+,\s+[A-Z](?:[A-Z]|\w+)?\.?".
Definition RE_WORD := Eval vm_compute in Re.compile "\w+".

Definition HDR_W : Q := 60 # 100.
Definition CITE_W : Q := 40 # 100.
Definition HDR_CAPS_MIN : Q := 45 # 100.
Definition CITE_RATIO_THR : Q := 30 # 100.
Definition MIN_SCORE_ABS : Q := 45 # 100.

(** [s.isupper()]: no lower-case character and at least one upper-case one. *)
Fixpoint isupper_from (cased : bool) (s : str) : bool :=
  match s with
  | [] => cased
  | c :: r => if islower c then false else isupper_from (cased || isupper c) r
  end.

Definition str_isupper (s : str) : bool := isupper_from false s.

(** [s.istitle()]: upper-case characters only after uncased ones, lower-case
    characters only after cased ones, and at least one cased character. *)
Fixpoint istitle_from (previous_is_cased cased : bool) (s : str) : bool :=
  match s with
  | [] => cased
  | c :: r =>
      if isupper c then
        if previous_is_cased then false else istitle_from true true r
      else if islower c then
        if previous_is_cased then istitle_from true true r else false
      else istitle_from false cased r
  end.

Definition str_istitle (s : str) : bool := istitle_from false false s.

(** [len(xs) or 1] *)
Definition len_or_1 {A} (xs : list A) : Q :=
  match xs with
  | [] => 1
  | _ => inject_Z (Z.of_nat (length xs))
  end.

(** [sum(p(x) for x in xs) / (len(xs) or 1)] *)
Definition ratio {A} (p : A -> bool) (xs : list A) : Q :=
  inject_Z (Z.of_nat (Normalizer.count_if p xs)) / len_or_1 xs.

(** Python's [min(a, b)] and [max(a, b)] on floats. *)
Definition pymin (a b : Q) : Q := if Qle_bool a b then a else b.
Definition pymax (a b : Q) : Q := if Qle_bool b a then a else b.

Definition _is_cite_line (line : str) : bool :=
  Re.found _RE_DOI line
  || (match Re.pymatch _RE_NUM line with Some _ => true | None => false end)
  || ((match Re.pymatch _RE_AUTH line with Some _ => true | None => false end)
      && Re.found _RE_YEAR_BARE line)
  || Re.found _RE_YEAR_BARE line.

(** The share of the non-blank lines of a page that look like citations. *)
Definition cite_ratio (txt : str) : Q :=
  ratio _is_cite_line (ExtractToc.stripped_lines txt).

(** The share of the words of the page header that are written in capitals
    or with an initial capital. *)
Definition header_of (txt : str) : str := join (py " ") (firstn 8 (splitlines txt)).

Definition caps (txt : str) : Q :=
  ratio (fun tok => str_isupper tok || str_istitle tok)
        (Re.findall0 RE_WORD (header_of txt)).

Definition _score_page (M : FindBibliography.module) (txt : str) : Q :=
  if negb (nonempty (strip txt)) then 0
  else
    let hdr := header_of txt in
    let hdr_bonus : Q :=
      if Re.found (FindBibliography._RE_TERMS M) hdr && Qle_bool HDR_CAPS_MIN (caps txt)
      then 1 else 60 # 100 in
    let cite_ratio := cite_ratio txt in
    let score := HDR_W * hdr_bonus + CITE_W * pymin (cite_ratio / CITE_RATIO_THR) 1 in
    if Qle_bool (5 # 100) cite_ratio then pymax score MIN_SCORE_ABS else score.

End PageScore.

(* ====================================================================== *)
(** * ref_normalizer.py: normalisation of extractor records                *)
(* ====================================================================== *)

Module NormalizeRecords.

Import RefParser Normalizer.

(** The line that is parsed again.  A record of the extractor has the keys
    [authors], [year], [title] and [publisher] and neither [raw] nor [line]:
    the line is put together from the fields, the empty ones left out. *)
Definition raw_line_of (rec : RawRecord) : str :=
  join (py " — ")
       (filter nonempty
               [raw_authors rec; py "“" ++ raw_title rec ++ py "”";
                raw_publisher rec; str_of_Z (raw_year rec)]).

(** [x.strip(" ,;.") if x else None] *)
Definition strip_or_none (x : option str) : option str :=
  match x with
  | Some s => if nonempty s then Some (strip_chars SP_COMMA_SEMI_DOT s) else None
  | None => None
  end.

Definition normalize_record (rec : RawRecord) : result NormalizedRef :=
  let raw_line := raw_line_of rec in
  parsed <- parse_reference raw_line ;;
  let title :=
    _clean_title (if nonempty (title parsed) then title parsed else raw_title rec) in
  let container :=
    match container_title parsed with
    | Some c =>
        if nonempty c then
          let c := join (py " ") (split_ws c) in
          Some (if _is_all_caps c then _smart_titlecase c else c)
        else Some c
    | None => None
    end in
  let pub := strip_or_none (publisher parsed) in
  let place := strip_or_none (publisher_place parsed) in
  let year :=
    match year parsed with
    | Some y => Some y
    | None => Some (raw_year rec)
    end in
  Ok {| n_style_family := style_family parsed; n_entry_type := entry_type parsed;
        n_authors := authors parsed; n_editors := editors parsed; n_title := title;
        n_container_title := container; n_publisher := pub; n_publisher_place := place;
        n_year := year; n_volume := volume parsed; n_issue := issue parsed;
        n_pages := pages parsed; n_doi := doi parsed; n_isbn := isbn parsed;
        n_url := url parsed; n_raw := rec |}.

Fixpoint normalize_records (records : list RawRecord) : result (list NormalizedRef) :=
  match records with
  | [] => Ok []
  | r :: rest =>
      n <- normalize_record r ;;
      ns <- normalize_records rest ;;
      Ok (n :: ns)
  end.

End NormalizeRecords.

(* ====================================================================== *)
(** * The float operations that round                                      *)
(* ====================================================================== *)

(** The functions of [FindBibliography] above compute with exact
    rationals.  Three operations of the sources round: the conversion of an
    exact mean to a float ([statistics.mean]), the midpoint of two floats
    ([statistics.median] on data of even length) and the product under
    [math.ceil].  Here the functions that depend on them are given with the
    rounded operation as a parameter; the functions above are the instances
    at exact arithmetic. *)

Module Floats.

Import FindBibliography.

Section Mean.

(** [fl q]: the float that [statistics.mean] returns for the exact mean
    [q] of its data. *)
Variable fl : Q -> Q.

(** [statistics.mean]: the exact mean of the data, converted to a float. *)
Definition mean (l : list Q) : result Q :=
  match l with
  | [] => Raise StatisticsError
  | _ => Ok (fl (sumQ l / inject_Z (Z.of_nat (length l))))
  end.

Definition _choose_better (cur : option (nat * nat)) (cand : nat * nat)
  (scores : list Q) : result (nat * nat) :=
  match cur with
  | None => Ok cand
  | Some cur =>
      cur_avg <- mean (slice scores (fst cur) (snd cur)) ;;
      cand_avg <- mean (slice scores (fst cand) (snd cand)) ;;
      if negb (Qle_bool cand_avg cur_avg)
         || (Qeq_bool cand_avg cur_avg && (snd cur - fst cur <? snd cand - fst cand)%nat)
      then Ok cand
      else Ok cur
  end.

Definition run_step (scores : list Q) (threshold : Q)
  (st : result (option (nat * nat) * option nat)) (item : nat * Q)
  : result (option (nat * nat) * option nat) :=
  '(best, cur) <- st ;;
  let '(idx, sc) := item in
  if Qle_bool threshold sc then
    Ok (best, match cur with None => Some idx | Some c => Some c end)
  else
    match cur with
    | Some c =>
        best' <- _choose_better best (c, (idx - 1)%nat) scores ;;
        Ok (Some best', None)
    | None => Ok (best, cur)
    end.

Definition best_interval (scores : list Q) (threshold : Q) : result (option (nat * nat)) :=
  '(best, cur) <- fold_left (run_step scores threshold)
                     (combine (seq 0 (length scores)) scores) (Ok (None, None)) ;;
  match cur with
  | Some c =>
      best' <- _choose_better best (c, (length scores - 1)%nat) scores ;;
      Ok (Some best')
  | None => Ok best
  end.

Definition select_interval (scores : list Q) (threshold : Q) : result (option (nat * nat)) :=
  best <- best_interval scores threshold ;;
  match best with
  | Some (a, b) =>
      if (MIN_BLOCK_LEN <=? b - a + 1)%nat then Ok (Some (a, b)) else Ok None
  | None => Ok None
  end.

(** The mean of positions [a..b] as the code sees it. *)
Definition float_avg (scores : list Q) (a b : nat) : Q := fl (Spec.avg scores a b).

(** Run [x] is preferred to run [y]: a higher mean, then a greater length,
    then the earlier start; the means are those the code compares. *)
Definition preferred (scores : list Q) (x y : nat * nat) : Prop :=
  float_avg scores (fst y) (snd y) < float_avg scores (fst x) (snd x)
  \/ (float_avg scores (fst y) (snd y) == float_avg scores (fst x) (snd x)
      /\ ((snd y - fst y < snd x - fst x)%nat
          \/ ((snd y - fst y = snd x - fst x)%nat /\ (fst x <= fst y)%nat))).

(** What the loop over the scores has established when it reaches
    position [i]. *)
Definition loop_inv (scores : list Q) (threshold : Q)
  (i : nat) (best : option (nat * nat)) (cur : option nat) : Prop :=
  (i <= length scores)%nat
  /\ match cur with
     | Some c => (c < i)%nat
                 /\ (forall j, (c <= j < i)%nat -> Spec.qualifies scores threshold j = true)
                 /\ (c = O \/ Spec.qualifies scores threshold (c - 1) = false)
     | None => i = O \/ Spec.qualifies scores threshold (i - 1) = false
     end
  /\ match best with
     | Some (a, b) =>
         Spec.is_maximal_run scores threshold a b = true /\ (S b < i)%nat
         /\ forall c d, Spec.is_maximal_run scores threshold c d = true -> (S d < i)%nat ->
                        preferred scores (a, b) (c, d)
     | None => forall c d, Spec.is_maximal_run scores threshold c d = true ->
                           (S d < i)%nat -> False
     end.

End Mean.

Section Median.

(** [midpoint a b]: the float that [(a + b) / 2] evaluates to. *)
Variable midpoint : Q -> Q -> Q.

(** [statistics.median]: the middle element of the sorted data, or the
    float midpoint of the two middle elements. *)
Definition median (l : list Q) : result Q :=
  match l with
  | [] => Raise StatisticsError
  | _ =>
      let data := sortedQ l in
      let n := length data in
      if Nat.odd n then Ok (nth (n / 2) data 0)
      else Ok (midpoint (nth (n / 2 - 1) data 0) (nth (n / 2) data 0))
  end.

End Median.

Section Ceil.

(** [ceil_mul n x]: the integer that [math.ceil(n * x)] evaluates to, the
    product being a float. *)
Variable ceil_mul : Z -> Q -> Z.

Definition _pull_pages (doc : document) (head tail : Q) : result (list (nat * str)) :=
  let n := page_count doc in
  let head_n := ceil_mul n head in
  let tail_n := ceil_mul n tail in
  front <- load_pages doc (seq 0 (Z.to_nat head_n)) ;;
  back <- load_pages doc (tail_indices n tail_n) ;;
  Ok (front ++ back).

End Ceil.

End Floats.

(* ====================================================================== *)
(** * services/bib_style_probe.py                                          *)
(* ====================================================================== *)

Module Probe.

Import PageScore.

(** ** The header terms and the page score *)

(** Line 38: the words of the built-in string, a set. *)
Definition BIB_TERMS : list str :=
  map py ["bibliography"; "references"; "reference"; "list"; "works"; "cited";
          "literatur"; "literaturverzeichnis"; "quellen"]%string.

(** [re.compile("|".join(re.escape(t) for t in BIB_TERMS), re.I)]; [terms]
    lists the set in the order in which it is iterated. *)
Definition hdr_re (terms : list str) : Re.regex :=
  {| Re.ast := KeywordHits.alternatives terms; Re.icase := true; Re.names := [] |}.

Definition _RE_DOI := Eval vm_compute in Re.compile_i "10\.[0-9]{4,9}/[-._;()/:A-Za-z0-9]+".
Definition _RE_YEAR := Eval vm_compute in Re.compile "\b(1[5-9][0-9]{2}|20[0-4][0-9])\b".
Definition _RE_NUM := Eval vm_compute in Re.compile "^\s*\[?\d{1,3}\]?[:.) ]".
Definition _RE_AUTHOR := Eval vm_compute in
  Re.compile "^[A-ZÄÖÜ][\w’'\-]+,\s+[A-Z](?:[A-Z]|[a-z]+)?\.".

Definition MIN_CITE_RATIO : Q := 25 # 100.
Definition CAPS_HDR_MIN : Q := 45 # 100.

Record module := { _RE_HDR : Re.regex }.

(** Execution of the module body at import.  The body does not look for
    the catalog file: present or absent, the header pattern is built from
    the built-in words, iterated in the order [iteration]. *)
Definition load (file : option csv) (iteration : list str) : result module :=
  Ok {| _RE_HDR := hdr_re iteration |}.

Definition is_some {A} (o : option A) : bool :=
  match o with Some _ => true | None => false end.

Definition _is_cite_line (line : str) : bool :=
  Re.found _RE_DOI line
  || is_some (Re.pymatch _RE_NUM line)
  || (is_some (Re.pymatch _RE_AUTHOR line) && Re.found _RE_YEAR line)
  || Re.found _RE_YEAR line.

(** [s.count(c)] for a single character. *)
Definition count_char (c : char) (s : str) : nat := length (filter (N.eqb c) s).

Definition _score_page (M : module) (txt : str) : Q :=
  if negb (nonempty (strip txt)) then 0
  else
    let lines := ExtractToc.stripped_lines txt in
    let hdr := join (py " ") (firstn 6 lines) in
    let tokens := Re.findall0 RE_WORD hdr in
    let caps := ratio (fun t => str_isupper t || str_istitle t) tokens in
    let hdr_hit := Re.found (_RE_HDR M) hdr && Qle_bool CAPS_HDR_MIN caps in
    let cite := ratio _is_cite_line lines in
    let punct :=
      inject_Z (Z.of_nat (count_char 59%N hdr + count_char 46%N hdr)) / len_or_1 hdr in
    (if hdr_hit then 1 else 4 # 10) * (4 # 10)
    + pymin (cite / MIN_CITE_RATIO) 1 * (5 # 10)
    + pymin (punct / (5 # 100)) 1 * (1 # 10).

(** ** Interval selection *)

Definition MIN_BLOCK_LEN : nat := 2.

(** [(cur, i-1) if best is None or i-cur > best[1]-best[0]+1 else best] *)
Definition longer (best : option (nat * nat)) (cur i : nat) : nat * nat :=
  match best with
  | None => (cur, (i - 1)%nat)
  | Some (a, b) => if (b - a + 1 <? i - cur)%nat then (cur, (i - 1)%nat) else (a, b)
  end.

(** The run that starts at [cur] ends before position [i]. *)
Definition close (best : option (nat * nat)) (cur i : nat) : option (nat * nat) :=
  if (MIN_BLOCK_LEN <=? i - cur)%nat then Some (longer best cur i) else best.

(** One round of the loop over [enumerate(scores)]; the state is
    [(best, cur)]. *)
Definition step (med : Q) (st : option (nat * nat) * option nat) (item : nat * Q)
  : option (nat * nat) * option nat :=
  let '(best, cur) := st in
  let '(i, sc) := item in
  match cur with
  | None => if Qle_bool med sc then (best, Some i) else st
  | Some c => if negb (Qle_bool med sc) then (close best c i, None) else st
  end.

(** [midpoint]: the float midpoint that [statistics.median] computes for
    data of even length. *)
Definition _best_interval (midpoint : Q -> Q -> Q) (scores : list Q)
  : result (option (nat * nat)) :=
  med <- Floats.median midpoint scores ;;
  let '(best, cur) :=
    fold_left (step med) (combine (seq 0 (length scores)) scores) (None, None) in
  match cur with
  | Some c =>
      if (MIN_BLOCK_LEN <=? length scores - c)%nat
      then Ok (Some (longer best c (length scores)))
      else Ok best
  | None => Ok best
  end.

End Probe.

(* ====================================================================== *)
(** * services/delb/scan_fonts.py and services/delb/detect_chapters.py     *)
(* ====================================================================== *)

#[local] Unset Elimination Schemes.

(** JSON values, as [json.dumps] writes and [json.loads] reads them. *)
Inductive json :=
| JNull
| JBool (b : bool)
| JInt (n : Z)
| JFloat (x : Q)
| JStr (s : str)
| JList (items : list json)
| JDict (items : list (str * json)).

#[local] Set Elimination Schemes.

Module ScanFonts.

(** A span of [page.get_text("dict")]: [span["font"]], [span["size"]],
    [span["flags"]], [span["text"]]. *)
Record span := { font : str; size : Q; flags : Z; text : str }.

(** A block: [block["type"]] and, line by line, [line["spans"]]. *)
Record block := { type : Z; lines : list (list span) }.

(** The blocks of every page of a PDF. *)
Definition pdf := list (list block).

Definition FontKey := (str * Q * Z)%type.

Definition key_eqb (a b : FontKey) : bool :=
  let '(n1, s1, f1) := a in
  let '(n2, s2, f2) := b in
  str_eqb n1 n2 && Qeq_bool s1 s2 && (f1 =? f2)%Z.

(** [a < b] on strings: by code points. *)
Fixpoint str_ltb (a b : str) : bool :=
  match a, b with
  | _, [] => false
  | [], _ :: _ => true
  | x :: a', y :: b' =>
      if (x <? y)%N then true else if (y <? x)%N then false else str_ltb a' b'
  end.

Definition Qlt_bool (x y : Q) : bool := negb (Qle_bool y x).

(** [a < b] on font keys: the first component that differs decides. *)
Definition key_ltb (a b : FontKey) : bool :=
  let '(n1, s1, f1) := a in
  let '(n2, s2, f2) := b in
  if negb (str_eqb n1 n2) then str_ltb n1 n2
  else if negb (Qeq_bool s1 s2) then Qlt_bool s1 s2
  else (f1 <? f2)%Z.

(** [(-c1, k1) < (-c2, k2)] *)
Definition item_ltb (a b : FontKey * Z) : bool :=
  if negb (snd a =? snd b)%Z then (- snd a <? - snd b)%Z
  else key_ltb (fst a) (fst b).

Fixpoint insert_item (x : FontKey * Z) (l : list (FontKey * Z)) : list (FontKey * Z) :=
  match l with
  | [] => [x]
  | y :: r => if item_ltb y x then y :: insert_item x r else x :: l
  end.

(** [sorted(stats.items(), key=lambda t: (-t[1], t[0]))] *)
Definition ranked (items : list (FontKey * Z)) : list (FontKey * Z) :=
  fold_right insert_item [] items.

(** [d[k] = d.get(k, 0) + c] on the items of a dict. *)
Fixpoint bump (k : FontKey) (c : Z) (d : list (FontKey * Z)) : list (FontKey * Z) :=
  match d with
  | [] => [(k, c)]
  | (k', c') :: r =>
      if key_eqb k k' then (k', (c' + c)%Z) :: r else (k', c') :: bump k c r
  end.

(** [list(k) + [c]] *)
Definition entry (kc : FontKey * Z) : json :=
  let '((name, sz, fl), c) := kc in
  JList [JStr name; JFloat sz; JInt fl; JInt c].

Section Scan.

(** [round(x, 1)] on a float, and the measured run time. *)
Variable round1 : Q -> Q.
Variable runtime_s : Q.

Definition span_key (s : span) : FontKey := (font s, round1 (size s), flags s).

(** [analyse_page]: the items of [stats]. *)
Definition analyse_page (blocks : list block) : list (FontKey * Z) :=
  fold_left
    (fun stats b =>
       if negb (type b =? 0)%Z then stats
       else
         fold_left
           (fun stats ln =>
              fold_left
                (fun stats sp =>
                   if negb (nonempty (text sp)) then stats
                   else bump (span_key sp) (Z.of_nat (length (text sp))) stats)
                ln stats)
           (lines b) stats)
    blocks [].

Definition page_out (i : nat) (stats : list (FontKey * Z)) : json :=
  JDict [(py "page", JInt (Z.of_nat i + 1));
         (py "fonts", JList (map entry (ranked stats)))].

(** [analyse_pdf]: the dictionary that [write_json] dumps to
    [font_cluster.json]. *)
Definition analyse_pdf (name : str) (doc : pdf) : json :=
  let per_page := map analyse_page doc in
  let global_stats :=
    fold_left
      (fun g stats => fold_left (fun g kc => bump (fst kc) (snd kc) g) stats g)
      per_page [] in
  JDict [(py "pdf", JStr name);
         (py "pages_total", JInt (Z.of_nat (length doc)));
         (py "runtime_s", JFloat runtime_s);
         (py "font_ranking", JList (map entry (ranked global_stats)));
         (py "pages",
          JList (map (fun ip => page_out (fst ip) (snd ip))
                     (combine (seq 0 (length doc)) per_page)))].

End Scan.

End ScanFonts.

Module DetectChapters.

(** In this module [None] stands for an exception raised inside the [try]
    block of [analyse_file]: the handler of line 122 treats them all
    alike. *)

Fixpoint assoc (k : str) (items : list (str * json)) : option json :=
  match items with
  | [] => None
  | (k', v) :: r => if str_eqb k k' then Some v else assoc k r
  end.

(** [d[k]] for a string key: KeyError on a dict without the key, TypeError
    on any other value. *)
Definition getitem (d : json) (k : string) : option json :=
  match d with
  | JDict items => assoc (py k) items
  | _ => None
  end.

Definition truthy (v : json) : bool :=
  match v with
  | JNull => false
  | JBool b => b
  | JInt n => negb (n =? 0)%Z
  | JFloat x => negb (Qeq_bool x 0)
  | JStr s => nonempty s
  | JList [] => false
  | JList (_ :: _) => true
  | JDict [] => false
  | JDict (_ :: _) => true
  end.

Definition chars (s : str) : list json := map (fun c => JStr [c]) s.

(** [v[0]] *)
Definition first (v : json) : option json :=
  match v with
  | JList (x :: _) => Some x
  | JStr (c :: _) => Some (JStr [c])
  | _ => None
  end.

(** [tuple(v[:3])] *)
Definition first3 (v : json) : option (list json) :=
  match v with
  | JList l => Some (firstn 3 l)
  | JStr s => Some (chars (firstn 3 s))
  | _ => None
  end.

(** The values that [for p in v] goes through. *)
Definition iterate (v : json) : option (list json) :=
  match v with
  | JList l => Some l
  | JStr s => Some (chars s)
  | JDict items => Some (map (fun kv => JStr (fst kv)) items)
  | _ => None
  end.

Section AnalyseFile.

(** The statements of lines 81 to 107 and of lines 110 to 120 are left
    open.  [state] holds [font_votes] and [hits]; [rest_of_body rank
    body_size p pg_no] is the rest of the loop body for the page object
    [p] after [pg_no = p["n"]]; [result_of rank] builds the dictionary that
    is returned. *)
Variable state : Type.
Variable init : state.
Variable rest_of_body : json -> json -> json -> json -> state -> option state.
Variable result_of : json -> state -> option json.

Fixpoint pages_loop (rank body_size : json) (pages : list json) (st : state)
  : option state :=
  match pages with
  | [] => Some st
  | p :: ps =>
      match getitem p "n" with
      | None => None
      | Some pg_no =>
          match rest_of_body rank body_size p pg_no st with
          | None => None
          | Some st' => pages_loop rank body_size ps st'
          end
      end
  end.

(** [analyse_file(path)], applied to the content of the file: the second
    component of its result, [None] after an exception. *)
Definition analyse_file (data : json) : option json :=
  match getitem data "font_ranking" with
  | None => None
  | Some rank =>
      if negb (truthy rank) then None
      else
        match first rank with
        | None => None
        | Some r0 =>
            match first3 r0 with
            | None => None
            | Some body_font =>
                match nth_error body_font 1 with
                | None => None
                | Some body_size =>
                    match getitem data "pages" with
                    | None => None
                    | Some pages =>
                        match iterate pages with
                        | None => None
                        | Some ps =>
                            match pages_loop rank body_size ps init with
                            | None => None
                            | Some st => result_of rank st
                            end
                        end
                    end
                end
            end
        end
  end.

End AnalyseFile.

End DetectChapters.

(* ====================================================================== *)
(** * Notions used to state the behaviour of the stages                    *)
(* ====================================================================== *)

Module Notions.

(** Page [p] (1-based) of the document holds a catalog term. *)
Definition is_hit (M : KeywordHits.module) (doc : document) (p : Z) : bool :=
  (1 <=? p)%Z
  && match nth_error (page_texts doc) (Z.to_nat (p - 1)) with
     | Some txt => KeywordHits.check_page M txt
     | None => false
     end.

(** Pages [f..l] form a maximal run of pages that satisfy [hit]. *)
Definition maximal_block (hit : Z -> Prop) (f l : Z) : Prop :=
  (f <= l)%Z /\ (forall p, (f <= p <= l)%Z -> hit p) /\ ~ hit (f - 1)%Z /\ ~ hit (l + 1)%Z.

(** Block [(f, l)] is at least as good as block [(f', l')]: longer, or as
    long and not later. *)
Definition block_preferred (f l f' l' : Z) : Prop :=
  (l' - f' < l - f)%Z \/ ((l' - f' = l - f)%Z /\ (f <= f')%Z).

(** [a; a+1; ...] of length [n] *)
Definition zrange (a : Z) (n : nat) : list Z := map (fun i => (a + Z.of_nat i)%Z) (seq 0 n).

(** The state of the run-cutting loop: every run is a range of consecutive
    numbers, and a later run starts more than one above the end of an
    earlier one. *)
Definition runs_ok (segs : list (list Z)) : Prop :=
  Forall (fun r => exists a n, r = zrange a (S n)) segs
  /\ ForallOrdPairs (fun r1 r2 => (last r1 0 + 1 < hd 0 r2)%Z) segs.

(** The test by which [dedupe_records] takes record [r] for a duplicate of
    the kept record [k]: the same key without rapidfuzz, the test of the
    inner loop with it. *)
Definition counts_as_duplicate (rapidfuzz : option (str -> str -> Q)) (threshold : Z)
  (k r : Normalizer.NormalizedRef) : bool :=
  match rapidfuzz with
  | None => Normalizer.key_eqb (Normalizer.keyf r) (Normalizer.keyf k)
  | Some token_set_ratio =>
      Normalizer.is_duplicate token_set_ratio threshold (Normalizer.keyf k) (Normalizer.keyf r)
  end.

(** A text of white space only. *)
Definition blank (s : str) : Prop := Forall (fun c => isspace c = true) s.

(** A catalog with a row whose term cell is a single space. *)
Definition blank_row_catalog : csv := [[py "term"]; [py " "]].

(** Entry [i] of a page sample: the index and the text of page [i]. *)
Definition page_at (doc : document) (i : nat) : nat * str := (i, nth i (page_texts doc) []).

(** Every character of the text lies in U+0000..U+00FF, the range on which
    the character tables of the embedding are those of Unicode (and on which
    NFC changes nothing). *)
Definition latin1 (s : str) : bool := forallb (fun c => (c <=? 255)%N) s.

End Notions.

Module ProbeNotions.

(** Run [x] comes before run [y] in the order "longer first, then
    earlier". *)
Definition longer_first (x y : nat * nat) : Prop :=
  (snd y - fst y < snd x - fst x)%nat
  \/ ((snd y - fst y = snd x - fst x)%nat /\ (fst x <= fst y)%nat).

(** What the loop of [_best_interval] has established when it reaches
    position [i]. *)
Definition best_inv (scores : list Q) (med : Q) (i : nat) (best : option (nat * nat)) : Prop :=
  match best with
  | Some (a, b) =>
      Spec.is_maximal_run scores med a b = true /\ (S b < i)%nat /\ (2 <= b - a + 1)%nat
      /\ forall c d, Spec.is_maximal_run scores med c d = true -> (S d < i)%nat ->
                     (2 <= d - c + 1)%nat -> longer_first (a, b) (c, d)
  | None => forall c d, Spec.is_maximal_run scores med c d = true -> (S d < i)%nat ->
                        (2 <= d - c + 1)%nat -> False
  end.

Definition cur_inv (scores : list Q) (med : Q) (i : nat) (cur : option nat) : Prop :=
  match cur with
  | Some c => (c < i)%nat
              /\ (forall j, (c <= j < i)%nat -> Spec.qualifies scores med j = true)
              /\ (c = O \/ Spec.qualifies scores med (c - 1) = false)
  | None => i = O \/ Spec.qualifies scores med (i - 1) = false
  end.

End ProbeNotions.

Module ReSem.

Import Re.

(** The character test of a pattern that reads exactly one character. *)
Definition char_test (ic : bool) (r : re) : option (char -> bool) :=
  match r with
  | Lit x => Some (lit_match ic x)
  | Any => Some (fun c => negb (c =? 10)%N)
  | Class negated items => Some (class_match ic negated items)
  | _ => None
  end.

(** The loop that the matcher runs for a repetition, on its own: [mr] is
    the matcher of the repeated pattern. *)
Section RepLoop.

Variable mr : (cur -> caps -> option (cur * caps)) -> cur -> caps -> option (cur * caps).
Variable greedy : bool.
Variable k : cur -> caps -> option (cur * caps).

Fixpoint rep_loop (fuel : nat) (lo : nat) (hi : option nat) (z : cur) (cs : caps)
  {struct fuel} : option (cur * caps) :=
  match fuel with
  | O => None
  | S fuel' =>
      let step := fun _ : unit =>
        match hi with
        | Some O => None
        | _ =>
            mr (fun z' cs' =>
                  if (pos z' =? pos z)%nat then None
                  else rep_loop fuel' (pred lo) (option_map pred hi) z' cs')
               z cs
        end in
      match lo with
      | S _ => step tt
      | O =>
          if greedy then orelse (step tt) (fun _ => k z cs)
          else orelse (k z cs) step
      end
  end.

End RepLoop.

Inductive matches (ic : bool) : re -> cur -> cur -> Prop :=
| m_empty z : matches ic Empty z z
| m_char r p z c rest :
    char_test ic r = Some p -> after z = c :: rest -> p c = true ->
    matches ic r z (advance z)
| m_seq a b z z1 z2 :
    matches ic a z z1 -> matches ic b z1 z2 -> matches ic (Seq a b) z z2
| m_alt_l a b z z' : matches ic a z z' -> matches ic (Alt a b) z z'
| m_alt_r a b z z' : matches ic b z z' -> matches ic (Alt a b) z z'
| m_rep_stop r hi greedy z : matches ic (Rep r O hi greedy) z z
| m_rep_more r lo hi greedy z z1 z2 :
    hi <> Some O -> matches ic r z z1 ->
    matches ic (Rep r (pred lo) (option_map pred hi) greedy) z1 z2 ->
    matches ic (Rep r lo hi greedy) z z2
| m_group idx r z z' : matches ic r z z' -> matches ic (Group idx r) z z'
| m_bol z : before z = [] -> matches ic Bol z z
| m_eol z : at_end z = true -> matches ic Eol z z
| m_wordb z : at_word_boundary z = true -> matches ic WordB z z
| m_ahead r z z' : matches ic r z z' -> matches ic (LookAhead r) z z
| m_behind r z : matches ic (LookBehind r) z z.

(** Group number [idx] of the pattern has the body [body]. *)
Inductive group_of : re -> nat -> re -> Prop :=
| g_here idx r : group_of (Group idx r) idx r
| g_group idx r i body : group_of r i body -> group_of (Group idx r) i body
| g_seq_l a b i body : group_of a i body -> group_of (Seq a b) i body
| g_seq_r a b i body : group_of b i body -> group_of (Seq a b) i body
| g_alt_l a b i body : group_of a i body -> group_of (Alt a b) i body
| g_alt_r a b i body : group_of b i body -> group_of (Alt a b) i body
| g_rep r lo hi greedy i body : group_of r i body -> group_of (Rep r lo hi greedy) i body
| g_ahead r i body : group_of r i body -> group_of (LookAhead r) i body
| g_behind r i body : group_of r i body -> group_of (LookBehind r) i body.

(** A capture that a match of [r] can record: the text of a group of [r]
    between two positions that its body can read. *)
Definition capture_of (ic : bool) (r : re) (e : nat * (nat * nat * str)) : Prop :=
  exists body z1 z2,
    group_of r (fst e) body /\ matches ic body z1 z2
    /\ snd e = (pos z1, pos z2, firstn (pos z2 - pos z1) (after z1)).

(** The captures [cs'] are [cs] with captures of [r] put in front. *)
Definition extends (ic : bool) (r : re) (cs cs' : caps) : Prop :=
  exists new, cs' = new ++ cs /\ Forall (capture_of ic r) new.

End ReSem.

Module WsNotions.

Import Re.

(** No two neighbouring characters are both white space. *)
Fixpoint single_spaced (s : str) : bool :=
  match s with
  | c1 :: r =>
      match r with
      | c2 :: _ => negb (isspace c1 && isspace c2) && single_spaced r
      | [] => true
      end
  | [] => true
  end.

(** The length of the longest prefix whose characters pass [p]. *)
Fixpoint run_length (p : char -> bool) (s : str) : nat :=
  match s with
  | c :: r => if p c then S (run_length p r) else O
  | [] => O
  end.

(** The first and the last character. *)
Definition first_char (s : str) : option char := hd_error s.
Definition last_char (s : str) : option char := hd_error (rev s).

(** The continuation of a pattern with nothing after it. *)
Definition stop_here : cur -> caps -> option (cur * caps) := fun z cs => Some (z, cs).

(** The character tests of the two patterns of [fix_ws]. *)
Definition is_blank_class : char -> bool :=
  class_match false false [IChar 32%N; IChar 9%N; IChar 160%N; IRange 8192%N 8203%N].

Definition is_space_class : char -> bool := class_match false false [ISpace true].

(** Every suffix of the text starts with a run of [p]-characters that is
    shorter than [lo], or with a run that is a single space. *)
Fixpoint stable (p : char -> bool) (lo : nat) (s : str) : Prop :=
  match s with
  | [] => True
  | c :: r =>
      ((run_length p s < lo)%nat \/ (run_length p s = 1%nat /\ c = 32%N)) /\ stable p lo r
  end.

End WsNotions.

(* ====================================================================== *)
(** * Properties                                                            *)
(* ====================================================================== *)

Lemma str_eqb_eq a b : str_eqb a b = true <-> a = b.
Proof.
  unfold str_eqb. destruct (list_eq_dec N.eq_dec a b); split; congruence.
Qed.

Lemma str_eqb_refl a : str_eqb a a = true.
Proof. apply str_eqb_eq. reflexivity. Qed.

Lemma nonempty_true (s : str) : nonempty s = true <-> s <> [].
Proof. destruct s; simpl; split; congruence. Qed.

Lemma nonempty_false (s : str) : nonempty s = false <-> s = [].
Proof. destruct s; simpl; split; congruence. Qed.

(** ** Soft-wrap line merging *)

Module MergeLines.

Import Extractor Inv.


Lemma join_nonempty (g : list str) :
  g <> [] -> Forall (fun s => s <> []) g -> J g <> [].
Proof.
  unfold J. destruct g as [|x g]; [congruence|]. intros _ H.
  inversion H as [|? ? Hx _]; subst.
  destruct g; simpl.
  - exact Hx.
  - destruct x; [congruence|]. discriminate.
Qed.

Lemma join_empty_iff (g : list str) :
  Forall (fun s => s <> []) g -> (J g = [] <-> g = []).
Proof.
  intros H. split.
  - intros E. destruct g as [|x g]; [reflexivity|].
    exfalso. apply (@join_nonempty (x :: g)); [congruence|assumption|assumption].
  - intros ->. reflexivity.
Qed.




End MergeLines.


(** ** Deduplication *)

Module Dedupe.

Import Normalizer Spec.

Section FirstSeenFacts.

Variable A : Type.
Variable dup : A -> A -> bool.

Abbreviation chain := (Inv.chain dup).

Lemma chain_app_inv (l1 l2 : list A) :
  chain (l1 ++ l2) ->
  chain l1 /\ chain l2 /\ forall x y, In x l1 -> In y l2 -> dup x y = false.
Proof.
  unfold Inv.chain. induction l1 as [|a l1 IH]; simpl; intros H.
  - repeat split; [constructor|assumption|contradiction].
  - inversion H as [|? ? Ha Hl]; subst.
    destruct (IH Hl) as (H1 & H2 & H12).
    rewrite Forall_app in Ha. destruct Ha as [Ha1 Ha2].
    repeat split.
    + constructor; assumption.
    + assumption.
    + intros x y [->|Hx] Hy.
      * rewrite Forall_forall in Ha2. auto.
      * auto.
Qed.

Lemma chain_snoc (l : list A) (r : A) :
  chain l -> (forall k, In k l -> dup k r = false) -> chain (l ++ [r]).
Proof.
  unfold Inv.chain. induction l as [|a l IH]; simpl; intros Hl Hr.
  - constructor; constructor.
  - inversion Hl as [|? ? Ha Hl']; subst. constructor.
    + apply Forall_app. split; [assumption|]. constructor; [|constructor]. auto.
    + auto.
Qed.

Lemma existsb_false_forall (kept : list A) (r : A) :
  existsb (fun k => dup k r) kept = false <-> forall k, In k kept -> dup k r = false.
Proof.
  split.
  - intros H k Hk. destruct (dup k r) eqn:E; [|reflexivity].
    assert (existsb (fun k => dup k r) kept = true) by (apply existsb_exists; eauto).
    congruence.
  - intros H. destruct (existsb (fun k => dup k r) kept) eqn:E; [|reflexivity].
    apply existsb_exists in E. destruct E as (k & Hk & Hd). rewrite H in Hd; congruence.
Qed.

Lemma keep_loop_chain (l : list A) : forall kept,
  chain kept -> chain (fold_left (keep_step dup) l kept).
Proof.
  induction l as [|r l IH]; intros kept H; simpl; [assumption|].
  apply IH. unfold keep_step.
  destruct (existsb (fun k => dup k r) kept) eqn:E; [assumption|].
  apply chain_snoc; [assumption|]. apply existsb_false_forall. assumption.
Qed.

Lemma keep_loop_fixed (l : list A) : forall kept,
  chain (kept ++ l) -> fold_left (keep_step dup) l kept = kept ++ l.
Proof.
  induction l as [|r l IH]; intros kept H; simpl.
  - rewrite app_nil_r. reflexivity.
  - assert (E : existsb (fun k => dup k r) kept = false).
    { apply existsb_false_forall. intros k Hk.
      destruct (chain_app_inv H) as (_ & _ & H12). apply H12; [assumption|left; reflexivity]. }
    unfold keep_step at 2. rewrite E.
    rewrite IH; rewrite <- app_assoc; [reflexivity|exact H].
Qed.

Lemma first_seen_chain (l : list A) : chain (first_seen dup l).
Proof. apply keep_loop_chain. constructor. Qed.

Lemma first_seen_idempotent (l : list A) :
  first_seen dup (first_seen dup l) = first_seen dup l.
Proof.
  unfold first_seen at 1. rewrite keep_loop_fixed; [reflexivity|].
  simpl. apply first_seen_chain.
Qed.

Lemma subsequence_refl (l : list A) : subsequence l l.
Proof. induction l; [apply sub_nil|apply sub_keep; assumption]. Qed.

Lemma subsequence_app (k l1 l2 : list A) :
  subsequence l1 l2 -> subsequence (k ++ l1) (k ++ l2).
Proof. intros H. induction k; simpl; [assumption|apply sub_keep; assumption]. Qed.

Lemma keep_loop_subsequence (l : list A) : forall kept,
  exists l', fold_left (keep_step dup) l kept = kept ++ l' /\ subsequence l' l.
Proof.
  induction l as [|r l IH]; intros kept; simpl.
  - exists []. rewrite app_nil_r. split; [reflexivity|constructor].
  - unfold keep_step at 2. destruct (existsb (fun k => dup k r) kept).
    + destruct (IH kept) as (l' & E & S). exists l'.
      split; [assumption|apply sub_skip; assumption].
    + destruct (IH (kept ++ [r])) as (l' & E & S). exists (r :: l'). split.
      * rewrite E, <- app_assoc. reflexivity.
      * apply sub_keep. assumption.
Qed.

Lemma first_seen_subsequence (l : list A) : subsequence (first_seen dup l) l.
Proof.
  destruct (keep_loop_subsequence l []) as (l' & E & S).
  unfold first_seen. rewrite E. exact S.
Qed.

Lemma keep_loop_snoc (l : list A) (r : A) (kept : list A) :
  fold_left (keep_step dup) (l ++ [r]) kept
  = keep_step dup (fold_left (keep_step dup) l kept) r.
Proof. rewrite fold_left_app. reflexivity. Qed.

End FirstSeenFacts.

(** *** The exact-key branch *)

Lemma exact_loop (l : list NormalizedRef) : forall seen out,
  (forall key, existsb (key_eqb key) seen
               = existsb (fun k => key_eqb key (keyf k)) out) ->
  snd (fold_left exact_step l (seen, out)) = fold_left (keep_step same_key) l out.
Proof.
  induction l as [|r l IH]; intros seen out H; simpl; [reflexivity|].
  unfold keep_step at 2. unfold same_key at 2. rewrite <- H.
  destruct (existsb (key_eqb (keyf r)) seen) eqn:E.
  - apply IH. assumption.
  - apply IH. intros key. simpl. rewrite existsb_app. simpl.
    rewrite H, orb_false_r. apply orb_comm.
Qed.

Lemma dedupe_exact_first_seen (records : list NormalizedRef) :
  dedupe_exact records = first_seen same_key records.
Proof. unfold dedupe_exact. apply exact_loop. reflexivity. Qed.

(** *** The fuzzy branch *)

Section FuzzyFacts.

Variable token_set_ratio : str -> str -> Q.
Variable threshold : Z.

Abbreviation dupF := (fuzzy_duplicate token_set_ratio threshold).

Lemma is_duplicate_spec (k r : NormalizedRef) :
  is_duplicate token_set_ratio threshold (keyf k) (keyf r) = dupF k r.
Proof.
  unfold fuzzy_duplicate, is_duplicate.
  destruct (keyf k) as [[fk tk] yk]. destruct (keyf r) as [[fr tr] yr].
  replace (1 <? Z.abs (yk - yr))%Z with (negb (Z.abs (yk - yr) <=? 1)%Z)
    by (destruct (Z.leb_spec (Z.abs (yk - yr)) 1), (Z.ltb_spec 1 (Z.abs (yk - yr)));
        simpl; try reflexivity; lia).
  destruct (yk =? 0)%Z, (yr =? 0)%Z, (Z.abs (yk - yr) <=? 1)%Z,
    (nonempty fk), (nonempty fr), (str_eqb fk fr); reflexivity.
Qed.

Lemma length_set_true (j : nat) : forall used, length (set_true j used) = length used.
Proof.
  induction j as [|j IH]; intros [|u used]; simpl; try reflexivity.
  rewrite IH. reflexivity.
Qed.

Lemma nth_set_true (j : nat) : forall used i,
  nth i (set_true j used) false
  = if (i =? j)%nat && (j <? length used)%nat then true else nth i used false.
Proof.
  induction j as [|j IH]; intros [|u used] i; simpl.
  - rewrite andb_false_r. reflexivity.
  - destruct i; reflexivity.
  - rewrite andb_false_r. reflexivity.
  - destruct i; simpl; [reflexivity|]. rewrite IH. reflexivity.
Qed.

Variable records : list NormalizedRef.

Abbreviation dup_at := (Inv.dup_at token_set_ratio threshold records).
Abbreviation outer_inv := (Inv.outer_inv token_set_ratio threshold records).

Lemma inner_step_nth ki used j i :
  nth i (inner_step token_set_ratio threshold records ki used j) false
  = if (i =? j)%nat && (j <? length used)%nat
    then nth i used false || dup_at ki j
    else nth i used false.
Proof.
  unfold inner_step, Inv.dup_at.
  destruct (Nat.eqb_spec i j) as [->|Hij]; simpl.
  - destruct (Nat.ltb_spec j (length used)) as [Hlt|Hge].
    + destruct (nth j used false) eqn:Ej; [rewrite Ej; reflexivity|].
      destruct (nth_error records j) as [rj|]; [|rewrite Ej; reflexivity].
      destruct (is_duplicate _ _ _ _).
      * rewrite nth_set_true, Nat.eqb_refl.
        destruct (Nat.ltb_spec j (length used)); [reflexivity|lia].
      * rewrite Ej. reflexivity.
    + rewrite (nth_overflow used false Hge).
      destruct (nth_error records j) as [rj|]; [|apply nth_overflow; assumption].
      destruct (is_duplicate _ _ _ _); [|apply nth_overflow; assumption].
      apply nth_overflow. rewrite length_set_true. assumption.
  - destruct (nth j used false); [reflexivity|].
    destruct (nth_error records j) as [rj|]; [|reflexivity].
    destruct (is_duplicate _ _ _ _); [|reflexivity].
    rewrite nth_set_true. destruct (Nat.eqb_spec i j); [contradiction|reflexivity].
Qed.

Lemma inner_step_length ki used j :
  length (inner_step token_set_ratio threshold records ki used j) = length used.
Proof.
  unfold inner_step. destruct (nth j used false); [reflexivity|].
  destruct (nth_error records j); [|reflexivity].
  destruct (is_duplicate _ _ _ _); [apply length_set_true|reflexivity].
Qed.

Lemma inner_loop ki (len : nat) : forall a used,
  let used' := fold_left (inner_step token_set_ratio threshold records ki) (seq a len) used in
  length used' = length used
  /\ forall i, nth i used' false
               = if (a <=? i)%nat && (i <? a + len)%nat && (i <? length used)%nat
                 then nth i used false || dup_at ki i
                 else nth i used false.
Proof.
  induction len as [|len IH]; intros a used; simpl.
  - split; [reflexivity|]. intros i.
    destruct (Nat.leb_spec a i), (Nat.ltb_spec i (a + 0)); simpl; try reflexivity; lia.
  - destruct (IH (S a) (inner_step token_set_ratio threshold records ki used a)) as [Hl Hn].
    split; [rewrite Hl; apply inner_step_length|].
    intros i. rewrite Hn, inner_step_length, inner_step_nth.
    destruct (Nat.eqb_spec i a) as [Heq|Hne];
      destruct (Nat.leb_spec (S a) i), (Nat.leb_spec a i),
        (Nat.ltb_spec i (S a + len)), (Nat.ltb_spec i (a + S len)),
        (Nat.ltb_spec a (length used)), (Nat.ltb_spec i (length used));
      simpl; try reflexivity; try lia;
      subst; destruct (nth a used false); reflexivity.
Qed.

Lemma firstn_succ_nth (A : Type) (l : list A) : forall i x,
  nth_error l i = Some x -> firstn (S i) l = firstn i l ++ [x].
Proof.
  induction l as [|y l IH]; intros [|i] x H; simpl in *; try discriminate.
  - congruence.
  - rewrite (IH _ _ H). reflexivity.
Qed.

Lemma outer_step_inv i st :
  (i < length records)%nat ->
  outer_inv i st -> outer_inv (S i) (outer_step token_set_ratio threshold records st i).
Proof.
  intros Hi (Hlen & Hout & Hused). destruct st as [used out].
  simpl fst in *. simpl snd in *.
  destruct (nth_error records i) as [ri|] eqn:Eri;
    [|apply nth_error_None in Eri; lia].
  unfold outer_step. rewrite Eri.
  assert (Hfirst : first_seen dupF (firstn (S i) records)
                   = keep_step dupF out ri).
  { rewrite (firstn_succ_nth Eri). unfold first_seen.
    rewrite keep_loop_snoc. rewrite Hout. reflexivity. }
  destruct (nth i used false) eqn:Eu.
  - (* a duplicate of a kept record *)
    repeat split; cbn [fst snd].
    + assumption.
    + rewrite Hfirst. unfold keep_step. rewrite <- (Hused i ri (le_n i) Eri), Eu.
      reflexivity.
    + intros j rj Hj Hrj. apply Hused; [lia|assumption].
  - (* a new kept record *)
    destruct (inner_loop (keyf ri) (length records - S i) (S i) (set_true i used))
      as [Hl Hn].
    repeat split; cbn [fst snd].
    + rewrite Hl, length_set_true. assumption.
    + rewrite Hfirst. unfold keep_step. rewrite <- (Hused i ri (le_n i) Eri), Eu.
      reflexivity.
    + intros j rj Hj Hrj. rewrite Hn, length_set_true, nth_set_true.
      assert (Hjn : (j < length records)%nat).
      { apply nth_error_Some. congruence. }
      destruct (Nat.leb_spec (S i) j); [|lia].
      destruct (Nat.ltb_spec j (S i + (length records - S i))); [|lia].
      destruct (Nat.ltb_spec j (length used)); [|lia].
      destruct (Nat.eqb_spec j i); [lia|]. simpl.
      rewrite existsb_app. simpl. rewrite orb_false_r.
      rewrite (Hused j rj) by (assumption || lia).
      unfold Inv.dup_at. rewrite Hrj, is_duplicate_spec. reflexivity.
Qed.

Lemma outer_loop (len : nat) : forall a st,
  (a + len = length records)%nat ->
  outer_inv a st ->
  outer_inv (length records) (fold_left (outer_step token_set_ratio threshold records) (seq a len) st).
Proof.
  induction len as [|len IH]; intros a st Ha H; simpl.
  - replace (length records) with a by lia. assumption.
  - apply (IH (S a)); [lia|]. apply outer_step_inv; [lia|assumption].
Qed.

Lemma dedupe_fuzzy_first_seen :
  dedupe_fuzzy token_set_ratio threshold records = first_seen dupF records.
Proof.
  unfold dedupe_fuzzy.
  assert (H0 : outer_inv 0 (repeat false (length records), [])).
  { repeat split; simpl.
    - apply repeat_length.
    - intros j rj _ _. apply nth_repeat. }
  destruct (outer_loop (a := 0) (len := length records) eq_refl H0) as (_ & Hout & _).
  rewrite Hout, firstn_all. reflexivity.
Qed.

End FuzzyFacts.

Lemma dedupe_records_first_seen rapidfuzz records threshold :
  dedupe_records rapidfuzz records threshold
  = first_seen (duplicate_of rapidfuzz threshold) records.
Proof.
  destruct rapidfuzz as [ratio|]; simpl.
  - apply dedupe_fuzzy_first_seen.
  - apply dedupe_exact_first_seen.
Qed.

End Dedupe.

(** C6. [dedupe_records] is idempotent in the exact-key mode and in the
    fuzzy mode; it keeps a record exactly when no record kept before it is
    a duplicate of it (so the first record of every cluster stays), and its
    output is the input with records left out, the order unchanged. *)
Theorem dedupe_records_idempotent
  (rapidfuzz : option (str -> str -> Q)) (X : list Normalizer.NormalizedRef)
  (threshold : Z) :
  let dedupe := fun l => Normalizer.dedupe_records rapidfuzz l threshold in
  dedupe (dedupe X) = dedupe X
  /\ dedupe X = Spec.first_seen (Spec.duplicate_of rapidfuzz threshold) X
  /\ Spec.subsequence (dedupe X) X.
Proof.
  cbv beta zeta. rewrite !Dedupe.dedupe_records_first_seen. repeat split.
  - apply Dedupe.first_seen_idempotent.
  - apply Dedupe.first_seen_subsequence.
Qed.

(** ** Concrete runs of the parser *)

Module Runs.

Import RefParser Samples.

Lemma catalog_loads : FindBibliography.load (Some catalog) = Ok detector_module.
Proof. vm_compute. reflexivity. Qed.

End Runs.

(** C5. On the sample line the deep parser returns two authors, the second
    with the rest of the line as given name, no year (the digits 2020 are
    taken as an ISBN), an empty title, and no volume, issue or pages. *)
Theorem parse_reference_smith_doe :
  exists r,
    RefParser.parse_reference Samples.SMITH_DOE = Ok r
    /\ RefParser.authors r
       = [ {| RefParser.family := py "Smith"; RefParser.given := py "J." |};
           {| RefParser.family := py "Doe";
              RefParser.given :=
                py "A. ( ). A Study of Things. Journal of Studies, 12(3), 45–67" |} ]
    /\ RefParser.year r = None
    /\ RefParser.isbn r = Some (py "2020")
    /\ RefParser.title r = []
    /\ RefParser.volume r = None
    /\ RefParser.issue r = None
    /\ RefParser.pages r = None.
Proof.
  eexists. split; [vm_compute; reflexivity|].
  repeat split; vm_compute; reflexivity.
Qed.

(** C9. The deep parser raises [IndexError] on a line in which a chunk of
    the author segment holds only white space. *)
Theorem parse_reference_raises_on_blank_chunk :
  RefParser.parse_reference Samples.LONE_NEWLINE = Raise IndexError.
Proof. vm_compute. reflexivity. Qed.

(** ** The scan with [head=0.0, tail=0.0] *)

Module EmptySample.

Import FindBibliography.

Section Facts.

Variable _score_page : str -> Q.
Variable oracle : option (str -> result bool).

Lemma ceiling_of_nothing (n : Z) : Qceiling (inject_Z n * 0) = 0%Z.
Proof.
  assert (E : inject_Z n * 0 == 0) by ring.
  rewrite E. reflexivity.
Qed.

Lemma tail_indices_nothing (doc : document) : tail_indices (page_count doc) 0 = [].
Proof.
  unfold tail_indices, page_count.
  replace (Z.to_nat _) with O; [reflexivity|]. lia.
Qed.

Lemma pull_pages_nothing (doc : document) : _pull_pages doc 0 0 = Ok [].
Proof.
  unfold _pull_pages. rewrite ceiling_of_nothing, tail_indices_nothing. reflexivity.
Qed.

Lemma evaluate_nothing use_gpt gpt_only boost :
  _evaluate _score_page oracle use_gpt gpt_only boost [] = Raise StatisticsError.
Proof. reflexivity. Qed.

Lemma detect_block_nothing (doc : document) use_gpt gpt_only boost :
  _detect_block _score_page oracle doc 0 0 use_gpt gpt_only boost = Raise StatisticsError.
Proof. unfold _detect_block. rewrite pull_pages_nothing. reflexivity. Qed.

End Facts.

End EmptySample.

(** ** The heading stage *)

Module HeadingStage.

Import ScanFonts DetectChapters.




(** The chapter analysis does go on with a file of the shape it expects:
    on a page object with the key "n" the rest of the loop body runs, and
    the dictionary of lines 110 to 120 is returned. *)
Example analyse_file_reads_n (state : Type) (init : state)
  (rest_of_body : json -> json -> json -> json -> state -> option state)
  (result_of : json -> state -> option json) :
  let rank := JList [JList [JStr (py "Times"); JFloat 10; JInt 0%Z; JInt 1200%Z]] in
  let p := JDict [(py "n", JInt 1%Z); (py "spans", JList [])] in
  analyse_file init rest_of_body result_of
    (JDict [(py "font_ranking", rank); (py "pages", JList [p])])
  = match rest_of_body rank (JFloat 10) p (JInt 1%Z) init with
    | Some st => result_of rank st
    | None => None
    end.
Proof.
  intros rank p.
  change (analyse_file init rest_of_body result_of
            (JDict [(py "font_ranking", rank); (py "pages", JList [p])]))
    with (match match rest_of_body rank (JFloat 10) p (JInt 1%Z) init with
                | Some st' => Some st'
                | None => None
                end with
          | Some st => result_of rank st
          | None => None
          end).
  destruct (rest_of_body rank (JFloat 10) p (JInt 1%Z) init); reflexivity.
Qed.

End HeadingStage.


(** ** Loading the modules without the term catalog *)

Module ProbeTerms.

Import Probe.

Lemma alternatives_some (ic : bool) (k : Re.cur -> Re.caps -> option (Re.cur * Re.caps))
  (z : Re.cur) (cs : Re.caps) (ts : list str) :
  ts <> [] ->
  (Re.m ic (KeywordHits.alternatives ts) k z cs <> None
   <-> exists t, In t ts /\ Re.m ic (KeywordHits.literal t) k z cs <> None).
Proof.
  induction ts as [|t ts IH]; intros Hne; [congruence|].
  destruct ts as [|t' ts'].
  - cbn [KeywordHits.alternatives]. split.
    + intros H. exists t. split; [left; reflexivity|exact H].
    + intros (t0 & [<-|[]] & H). exact H.
  - change (KeywordHits.alternatives (t :: t' :: ts'))
      with (Re.Alt (KeywordHits.literal t) (KeywordHits.alternatives (t' :: ts'))).
    cbn [Re.m]. unfold Re.orelse.
    destruct (Re.m ic (KeywordHits.literal t) k z cs) eqn:E.
    + split; [|discriminate]. intros _. exists t. split; [left; reflexivity|].
      rewrite E. discriminate.
    + rewrite IH by discriminate. split.
      * intros (t0 & Hin & H). exists t0. split; [right; exact Hin|exact H].
      * intros (t0 & [<-|Hin] & H); [congruence|]. exists t0. split; assumption.
Qed.

Lemma match_at_perm (ts ts' : list str) (z : Re.cur) :
  Permutation ts ts' ->
  (Re.match_at (hdr_re ts) z = None <-> Re.match_at (hdr_re ts') z = None).
Proof.
  intros Hp.
  assert (H : forall a b : list str, Permutation a b ->
            Re.match_at (hdr_re a) z = None -> Re.match_at (hdr_re b) z = None).
  { clear. intros a b Hp Ha. unfold Re.match_at, hdr_re in *. cbn [Re.ast Re.icase] in *.
    destruct (Re.m true (KeywordHits.alternatives b) _ z []) eqn:Eb; [|reflexivity].
    exfalso.
    destruct b as [|t0 b0].
    - apply Permutation_sym, Permutation_nil in Hp. subst a.
      cbn in Ha. discriminate.
    - assert (Hb : Re.m true (KeywordHits.alternatives (t0 :: b0))
                     (fun z' cs => Some (z', cs)) z [] <> None) by (rewrite Eb; discriminate).
      apply alternatives_some in Hb; [|discriminate].
      destruct Hb as (t & Hin & Ht).
      assert (Hina : In t a) by (eapply Permutation_in; [apply Permutation_sym; exact Hp|exact Hin]).
      assert (Hane : a <> []) by (intros ->; contradiction).
      assert (Hsome : Re.m true (KeywordHits.alternatives a)
                        (fun z' cs => Some (z', cs)) z [] <> None).
      { apply alternatives_some; [exact Hane|]. exists t. split; assumption. }
      destruct (Re.m true (KeywordHits.alternatives a) _ z []); [discriminate|congruence]. }
  split; apply H; [exact Hp|apply Permutation_sym; exact Hp].
Qed.

Lemma scan_perm (ts ts' : list str) (a : str) : forall b p,
  Permutation ts ts' ->
  (Re.scan (hdr_re ts) b a p = None <-> Re.scan (hdr_re ts') b a p = None).
Proof.
  induction a as [|c a IH]; intros b p Hp; cbn [Re.scan].
  - pose proof (@match_at_perm ts ts' {| Re.before := b; Re.after := []; Re.pos := p |} Hp) as H.
    destruct (Re.match_at (hdr_re ts) _), (Re.match_at (hdr_re ts') _);
      split; intros E; try reflexivity; try discriminate;
      exfalso; destruct H as [H1 H2]; (specialize (H1 eq_refl) || specialize (H2 eq_refl)); discriminate.
  - pose proof (@match_at_perm ts ts' {| Re.before := b; Re.after := c :: a; Re.pos := p |} Hp) as H.
    destruct (Re.match_at (hdr_re ts) _), (Re.match_at (hdr_re ts') _).
    + split; discriminate.
    + exfalso. destruct H as [_ H2]. specialize (H2 eq_refl). discriminate.
    + exfalso. destruct H as [H1 _]. specialize (H1 eq_refl). discriminate.
    + apply IH. exact Hp.
Qed.

(** Whether the header pattern is found does not depend on the order in
    which the set of terms is iterated. *)
Lemma found_perm (ts ts' : list str) (s : str) :
  Permutation ts ts' -> Re.found (hdr_re ts) s = Re.found (hdr_re ts') s.
Proof.
  intros Hp. unfold Re.found, Re.search.
  pose proof (@scan_perm ts ts' s [] O Hp) as H.
  destruct (Re.scan (hdr_re ts) [] s 0), (Re.scan (hdr_re ts') [] s 0);
    try reflexivity; exfalso; destruct H as [H1 H2];
    (specialize (H1 eq_refl) || specialize (H2 eq_refl)); discriminate.
Qed.

Lemma score_page_perm (ts ts' : list str) (txt : str) :
  Permutation ts ts' ->
  _score_page {| _RE_HDR := hdr_re ts |} txt = _score_page {| _RE_HDR := hdr_re ts' |} txt.
Proof.
  intros Hp. unfold _score_page. cbn [_RE_HDR].
  rewrite (found_perm _ Hp). reflexivity.
Qed.

End ProbeTerms.

(** A [find_bibliography] module that did load took its terms from the
    catalog, never from its own built-in set. *)
Lemma loaded_detector_has_catalog_terms (file : option csv) (M : FindBibliography.module) :
  FindBibliography.load file = Ok M ->
  exists rows,
    file = Some rows
    /\ FindBibliography.BIB_TERMS M = FindBibliography.csv_terms rows
    /\ KeywordHits.TERMS (FindBibliography.keyword_hits M) = KeywordHits.dict_terms rows
    /\ KeywordHits.dict_terms rows <> [].
Proof.
  intros H. destruct file as [rows|]; [|discriminate].
  exists rows. unfold FindBibliography.load, KeywordHits.load in H. simpl in H.
  destruct (KeywordHits.dict_terms rows) as [|t ts] eqn:E; [discriminate|].
  inversion H; subst; simpl. repeat split; congruence.
Qed.

(** C2. Without the term catalog the modules [keyword_hits] and
    [find_bibliography] do end in [SystemExit], but the style probe loads:
    its header pattern is built from the nine built-in words, in whatever
    order the set is iterated, it finds the header "REFERENCES", and the
    page under that header scores higher than the page "INTRODUCTION". *)
Theorem style_probe_matches_headers_without_catalog :
  KeywordHits.load None = Raise (SystemExit KeywordHits.MSG_MISSING)
  /\ FindBibliography.load None = Raise (SystemExit KeywordHits.MSG_MISSING)
  /\ forall iteration, Permutation iteration Probe.BIB_TERMS ->
       exists M,
         Probe.load None iteration = Ok M
         /\ Re.found (Probe._RE_HDR M) (py "REFERENCES") = true
         /\ Re.found (Probe._RE_HDR M) (py "INTRODUCTION") = false
         /\ Probe._score_page M (py "INTRODUCTION")
            < Probe._score_page M (py "REFERENCES").
Proof.
  split; [reflexivity|]. split; [reflexivity|].
  intros iteration Hp. eexists. split; [reflexivity|].
  cbn [Probe._RE_HDR].
  rewrite !(ProbeTerms.found_perm _ Hp), !(ProbeTerms.score_page_perm _ Hp).
  split; [vm_compute; reflexivity|]. split; [vm_compute; reflexivity|].
  vm_compute. reflexivity.
Qed.

(** ** Smart title case *)

Module TitleCase.

Import RefParser Normalizer Spec.

Example history_of_the_world :
  _clean_title Samples.HISTORY = py "The History of the World".
Proof. vm_compute. reflexivity. Qed.

Example chapter_xiv :
  _clean_title Samples.CHAPTER = py "Chapter XIV Overview".
Proof. vm_compute. reflexivity. Qed.

End TitleCase.

(** C7. In the all-caps title "DER MANN IM MOND" the interior word "im"
    belongs to the stop-word set, yet it comes out as "IM" and not in
    lower case: [_smart_titlecase] tests the Roman-numeral pattern before
    the stop-word set. *)
Lemma interior_stopword_im_is_uppercased :
  Normalizer._is_all_caps Samples.MOND = true
  /\ nth_error (split_ws (lower Samples.MOND)) 2 = Some (py "im")
  /\ RefParser.in_set (py "im") Normalizer.STOPWORDS_TITLE = true
  /\ Normalizer._clean_title Samples.MOND = py "Der Mann IM Mond"
  /\ nth_error (split_ws (Normalizer._clean_title Samples.MOND)) 2 <> Some (py "im").
Proof. repeat split; vm_compute; (reflexivity || discriminate). Qed.

(** ** Interval selection *)

Module Interval.

Import FindBibliography Spec.

Section Facts.

Variable scores : list Q.
Variable threshold : Q.

Abbreviation n := (length scores).
Abbreviation qual := (qualifies scores threshold).
Abbreviation maxrun := (is_maximal_run scores threshold).
Abbreviation pref := (preferred scores).
Abbreviation loop_inv := (Inv.loop_inv scores threshold).

Lemma qualifies_lt (i : nat) : qual i = true -> (i < n)%nat.
Proof.
  unfold qualifies. destruct (nth_error scores i) eqn:E; [|discriminate].
  intros _. apply nth_error_Some. congruence.
Qed.

Lemma qualifies_nth (i : nat) (sc : Q) :
  nth_error scores i = Some sc -> qual i = Qle_bool threshold sc.
Proof. unfold qualifies. intros ->. reflexivity. Qed.

Lemma maximal_run_iff (a b : nat) :
  maxrun a b = true
  <-> (a <= b)%nat
      /\ (forall j, (a <= j <= b)%nat -> qual j = true)
      /\ (a = O \/ qual (a - 1) = false)
      /\ qual (S b) = false.
Proof.
  unfold is_maximal_run. rewrite !andb_true_iff, orb_true_iff, !negb_true_iff,
    Nat.leb_le, Nat.eqb_eq, forallb_forall.
  split.
  - intros (((Hab & Hall) & Hl) & Hr). repeat split; try assumption.
    intros j Hj. apply Hall. apply in_seq. lia.
  - intros (Hab & Hall & Hl & Hr). repeat split; try assumption.
    intros j Hj. apply in_seq in Hj. apply Hall. lia.
Qed.

(** A maximal run is determined by its last position. *)
Lemma maximal_run_start_unique (a a' b : nat) :
  maxrun a b = true -> maxrun a' b = true -> a = a'.
Proof.
  rewrite !maximal_run_iff. intros (H1 & H2 & H3 & _) (H1' & H2' & H3' & _).
  destruct (Nat.lt_trichotomy a a') as [Hlt|[Heq|Hgt]]; [|assumption|].
  - destruct H3' as [->|H3']; [lia|]. rewrite H2 in H3' by lia. discriminate.
  - destruct H3 as [->|H3]; [lia|]. rewrite H2' in H3 by lia. discriminate.
Qed.

Lemma slice_length (a b : nat) :
  (b < n)%nat -> length (slice scores a b) = (S b - a)%nat.
Proof.
  intros H. unfold slice. rewrite length_firstn, length_skipn. lia.
Qed.

Lemma mean_slice (a b : nat) :
  (a <= b)%nat -> (b < n)%nat -> mean (slice scores a b) = Ok (avg scores a b).
Proof.
  intros Hab Hb. unfold mean, avg.
  pose proof (slice_length a Hb) as L.
  destruct (slice scores a b) as [|x l] eqn:E.
  - cbn [length] in L. lia.
  - rewrite L. reflexivity.
Qed.

Lemma maximal_run_bounds (a b : nat) : maxrun a b = true -> (a <= b < n)%nat.
Proof.
  rewrite maximal_run_iff. intros (H1 & H2 & _). split; [assumption|].
  apply qualifies_lt. apply H2. lia.
Qed.

(** *** The order of preference *)

Lemma preferred_trans (x y z : nat * nat) : pref x y -> pref y z -> pref x z.
Proof.
  unfold preferred. intros [H1|(E1 & H1)] [H2|(E2 & H2)].
  - left. lra.
  - left. lra.
  - left. lra.
  - right. split; [lra|]. lia.
Qed.

Lemma preferred_antisym (x y : nat * nat) :
  pref x y -> pref y x -> fst x = fst y /\ (snd x - fst x = snd y - fst y)%nat.
Proof.
  unfold preferred. intros [H1|(E1 & H1)] [H2|(E2 & H2)]; try lra. lia.
Qed.

(** [_choose_better] on two runs inside the score array: the candidate
    replaces the incumbent exactly when its mean is higher, or equal with
    a greater length. *)
Lemma choose_better_runs (cur cand : nat * nat) :
  (fst cur <= snd cur < n)%nat -> (fst cand <= snd cand < n)%nat ->
  (fst cur <= fst cand)%nat ->
  exists best,
    _choose_better (Some cur) cand scores = Ok best
    /\ (best = cur \/ best = cand)
    /\ pref best cur /\ pref best cand.
Proof.
  intros Hc Hd Hstart. unfold _choose_better.
  rewrite !mean_slice by lia. simpl.
  destruct (Qle_bool (avg scores (fst cand) (snd cand)) (avg scores (fst cur) (snd cur)))
    eqn:Ele; simpl.
  - apply Qle_bool_iff in Ele.
    destruct (Qeq_bool (avg scores (fst cand) (snd cand)) (avg scores (fst cur) (snd cur)))
      eqn:Eeq; simpl.
    + apply Qeq_bool_iff in Eeq.
      destruct (Nat.ltb_spec (snd cur - fst cur) (snd cand - fst cand)).
      * exists cand. repeat split; try (right; reflexivity).
        -- right. split; [lra|]. left. assumption.
        -- right. split; [lra|]. right. lia.
      * exists cur. repeat split; try (left; reflexivity).
        -- right. split; [lra|]. right. lia.
        -- right. split; [lra|]. lia.
    + apply Qeq_bool_neq in Eeq.
      exists cur. repeat split; try (left; reflexivity).
      * right. split; [lra|]. right. lia.
      * left. apply Qle_lteq in Ele. destruct Ele; [assumption|contradiction].
  - assert (Hlt : avg scores (fst cur) (snd cur) < avg scores (fst cand) (snd cand)).
    { apply Qnot_le_lt. intros H. apply Qle_bool_iff in H. congruence. }
    exists cand. repeat split; try (right; reflexivity).
    + left. assumption.
    + right. split; [lra|]. right. lia.
Qed.

(** *** The loop *)

(** Closing the open run [(c, i-1)] against the incumbent. *)
Lemma close_run (i c : nat) (best : option (nat * nat)) :
  loop_inv i best (Some c) -> qual i = false ->
  exists best',
    _choose_better best (c, (i - 1)%nat) scores = Ok best'
    /\ maxrun (fst best') (snd best') = true /\ (S (snd best') < S i)%nat
    /\ forall c' d', maxrun c' d' = true -> (S d' < S i)%nat ->
                     pref (fst best', snd best') (c', d').
Proof.
  intros (Hi & (Hc & Hq & Hl) & Hb) Hend.
  assert (Hrun : maxrun c (i - 1) = true).
  { apply maximal_run_iff. repeat split; try lia; try assumption.
    - intros j Hj. apply Hq. lia.
    - replace (S (i - 1)) with i by lia. assumption. }
  assert (Hnew : forall c' d', maxrun c' d' = true -> (S d' < S i)%nat ->
                  (S d' < i)%nat \/ (c', d') = (c, (i - 1)%nat)).
  { intros c' d' Hr Hd.
    destruct (Nat.eq_dec d' (i - 1)) as [->|Hne]; [|left; lia].
    right. f_equal. eapply maximal_run_start_unique; eassumption. }
  assert (Hself : pref (c, (i - 1)%nat) (c, (i - 1)%nat)).
  { right. split; [reflexivity|]. right. simpl. lia. }
  destruct best as [[a b]|].
  - destruct Hb as (Hab & Hbi & Hdom).
    pose proof (maximal_run_bounds Hab) as Bab.
    pose proof (maximal_run_bounds Hrun) as Bc.
    assert (Hac : (a <= c)%nat).
    { apply maximal_run_iff in Hab. destruct Hab as (_ & _ & _ & Hr).
      destruct (Nat.le_gt_cases c (S b)) as [Hle|Hgt]; [|lia].
      rewrite Hq in Hr by lia. discriminate. }
    destruct (@choose_better_runs (a, b) (c, (i - 1)%nat)) as (best' & E & Hor & P1 & P2);
      simpl; try lia.
    exists best'. split; [exact E|].
    destruct Hor as [->| ->]; simpl; repeat split; try assumption; try lia.
    + intros c' d' Hr Hd. destruct (Hnew _ _ Hr Hd) as [Hold|Heq].
      * apply Hdom; assumption.
      * rewrite Heq. assumption.
    + intros c' d' Hr Hd. destruct (Hnew _ _ Hr Hd) as [Hold|Heq].
      * eapply preferred_trans; [exact P1|]. apply Hdom; assumption.
      * rewrite Heq. assumption.
  - exists (c, (i - 1)%nat). simpl. repeat split; try assumption; try lia.
    intros c' d' Hr Hd. destruct (Hnew _ _ Hr Hd) as [Hold|Heq].
    + exfalso. eapply Hb; eassumption.
    + rewrite Heq. assumption.
Qed.

Lemma run_step_inv (i : nat) (sc : Q) best cur :
  nth_error scores i = Some sc ->
  loop_inv i best cur ->
  exists best' cur',
    run_step scores threshold (Ok (best, cur)) (i, sc) = Ok (best', cur')
    /\ loop_inv (S i) best' cur'.
Proof.
  intros Hsc Hinv.
  assert (Hin : (i < n)%nat) by (apply nth_error_Some; congruence).
  pose proof (qualifies_nth Hsc) as Hq.
  unfold run_step. simpl. rewrite <- Hq.
  destruct (qual i) eqn:Ei.
  - (* the page reaches the threshold: the open run goes on, or one opens *)
    destruct Hinv as (Hi & Hcur & Hbest).
    eexists best, _. split; [reflexivity|].
    split; [lia|]. split.
    + destruct cur as [c|].
      * destruct Hcur as (Hc & Hall & Hl). repeat split; try lia; try assumption.
        intros j Hj. destruct (Nat.eq_dec j i) as [->|]; [assumption|apply Hall; lia].
      * repeat split; try lia.
        -- intros j Hj. replace j with i by lia. assumption.
        -- destruct Hcur as [->|Hcur]; [left; reflexivity|right; assumption].
    + assert (Hno : forall c d, maxrun c d = true -> (S d < S i)%nat -> (S d < i)%nat).
      { intros c d Hr Hd. destruct (Nat.eq_dec (S d) i) as [E|]; [|lia].
        apply maximal_run_iff in Hr. destruct Hr as (_ & _ & _ & Hr).
        rewrite E in Hr. congruence. }
      destruct best as [[a b]|].
      * destruct Hbest as (Hab & Hbi & Hdom). repeat split; try assumption; try lia.
        intros c d Hr Hd. apply Hdom; eauto.
      * intros c d Hr Hd. eapply Hbest; eauto.
  - (* the page misses the threshold: the open run, if any, is closed *)
    destruct cur as [c|].
    + destruct (close_run Hinv Ei) as (best' & E & Hr & Hb & Hdom).
      rewrite E. simpl. exists (Some best'), None. split; [reflexivity|].
      destruct Hinv as (Hi & _ & _).
      split; [lia|]. split.
      * right. replace (S i - 1)%nat with i by lia. assumption.
      * destruct best' as [a b]. simpl in *. repeat split; assumption.
    + exists best, None. split; [reflexivity|].
      destruct Hinv as (Hi & Hcur & Hbest).
      split; [lia|]. split.
      * right. replace (S i - 1)%nat with i by lia. assumption.
      * assert (Hno : forall c d, maxrun c d = true -> (S d < S i)%nat -> (S d < i)%nat).
        { intros c d Hr Hd. destruct (Nat.eq_dec (S d) i) as [E|]; [|lia].
          apply maximal_run_iff in Hr. destruct Hr as (Hcd & Hall & _).
          destruct Hcur as [->|Hcur]; [lia|].
          rewrite <- E in Hcur. simpl in Hcur. rewrite Nat.sub_0_r in Hcur.
          rewrite Hall in Hcur by lia. discriminate. }
        destruct best as [[a b]|].
        -- destruct Hbest as (Hab & Hbi & Hdom). repeat split; try assumption; try lia.
           intros c d Hr Hd. apply Hdom; eauto.
        -- intros c d Hr Hd. eapply Hbest; eauto.
Qed.

Lemma skipn_cons_nth (A : Type) (l : list A) : forall i x rest,
  skipn i l = x :: rest -> nth_error l i = Some x /\ skipn (S i) l = rest.
Proof.
  induction l as [|y l IH]; intros [|i] x rest H; simpl in *; try discriminate.
  - inversion H. auto.
  - apply IH. assumption.
Qed.

Lemma run_loop_inv (rest : list Q) : forall i best cur,
  skipn i scores = rest ->
  loop_inv i best cur ->
  exists best' cur',
    fold_left (run_step scores threshold) (combine (seq i (length rest)) rest)
      (Ok (best, cur)) = Ok (best', cur')
    /\ loop_inv n best' cur'.
Proof.
  induction rest as [|sc rest IH]; intros i best cur Hskip Hinv.
  - exists best, cur. split; [reflexivity|].
    assert (n <= i)%nat.
    { destruct (Nat.le_gt_cases n i) as [|Hlt]; [assumption|].
      apply (f_equal (@length Q)) in Hskip. rewrite length_skipn in Hskip.
      simpl in Hskip. lia. }
    destruct Hinv as (Hi & Hcur & Hbest). replace n with i by lia.
    repeat split; try lia; assumption.
  - destruct (skipn_cons_nth Hskip) as [Hnth Hskip'].
    destruct (run_step_inv Hnth Hinv) as (best1 & cur1 & E1 & Hinv1).
    destruct (IH (S i) best1 cur1 Hskip' Hinv1) as (best2 & cur2 & E2 & Hinv2).
    exists best2, cur2. split; [|assumption].
    cbn [length seq combine fold_left]. rewrite E1. exact E2.
Qed.

(** The interval the loop ends with: a maximal run preferred to every
    maximal run, or nothing when no page reaches the threshold. *)
Lemma best_interval_spec :
  exists best,
    best_interval scores threshold = Ok best
    /\ match best with
       | Some (a, b) =>
           maxrun a b = true /\ forall c d, maxrun c d = true -> pref (a, b) (c, d)
       | None => forall c d, maxrun c d = true -> False
       end.
Proof.
  assert (H0 : loop_inv 0 None None).
  { repeat split; lia. }
  destruct (@run_loop_inv scores 0 None None eq_refl H0) as (best & cur & E & Hinv).
  unfold best_interval. rewrite E. simpl.
  assert (Hend : qual n = false).
  { unfold qualifies. assert (H : nth_error scores n = None) by (apply nth_error_None; lia).
    rewrite H. reflexivity. }
  destruct cur as [c|].
  - destruct (close_run Hinv Hend) as (best' & E' & Hr & Hb & Hdom).
    rewrite E'. simpl. exists (Some best'). split; [reflexivity|].
    destruct best' as [a b]. simpl in *. split; [assumption|].
    intros c' d' Hr'. apply Hdom; [assumption|].
    pose proof (maximal_run_bounds Hr'). lia.
  - exists best. split; [reflexivity|].
    destruct Hinv as (_ & Hcur & Hbest).
    assert (Hseen : forall c d, maxrun c d = true -> (S d < n)%nat).
    { intros c d Hr. pose proof (maximal_run_bounds Hr) as B.
      destruct (Nat.eq_dec (S d) n) as [E'|]; [|lia].
      apply maximal_run_iff in Hr. destruct Hr as (_ & Hall & _).
      destruct Hcur as [Hz|Hcur]; [lia|].
      rewrite <- E' in Hcur. simpl in Hcur. rewrite Nat.sub_0_r in Hcur.
      rewrite Hall in Hcur by lia. discriminate. }
    destruct best as [[a b]|].
    + destruct Hbest as (Hab & _ & Hdom). split; [assumption|].
      intros c d Hr. apply Hdom; eauto.
    + intros c d Hr. eapply Hbest; eauto.
Qed.

End Facts.

End Interval.

(** C3. With scores 1, 0, 1/2, 1/2, 0 and boost 1 the median is 1/2 and
    positions 2..3 form a maximal run of length two at or above it; yet
    interval selection returns nothing, because the single page 0, whose
    mean is higher, is chosen first and then fails the length test. *)
Theorem single_page_run_shadows_longer_run :
  FindBibliography.median Samples.SCORES = Ok (1 # 2)
  /\ Spec.is_maximal_run Samples.SCORES ((1 # 2) * 1) 2 3 = true
  /\ FindBibliography.select_interval Samples.SCORES ((1 # 2) * 1) = Ok None
  /\ FindBibliography._evaluate Samples.letter_score None false false 1
       Samples.LETTER_PAGES = Ok None.
Proof. repeat split; vm_compute; reflexivity. Qed.

(** ** Interval selection on floats *)

Module FloatInterval.

Import FindBibliography Spec.

Section Facts.

Variable fl : Q -> Q.
Variable scores : list Q.
Variable threshold : Q.

Abbreviation n := (length scores).
Abbreviation qual := (qualifies scores threshold).
Abbreviation maxrun := (is_maximal_run scores threshold).
Abbreviation favg := (Floats.float_avg fl scores).
Abbreviation pref := (Floats.preferred fl scores).
Abbreviation loop_inv := (Floats.loop_inv fl scores threshold).

Lemma float_mean_slice (a b : nat) :
  (a <= b)%nat -> (b < n)%nat -> Floats.mean fl (slice scores a b) = Ok (favg a b).
Proof.
  intros Hab Hb. unfold Floats.mean, Floats.float_avg, avg.
  pose proof (Interval.slice_length a Hb) as L.
  destruct (slice scores a b) as [|x l] eqn:E.
  - cbn [length] in L. lia.
  - rewrite L. reflexivity.
Qed.

(** *** The order of preference *)

Lemma float_preferred_trans (x y z : nat * nat) : pref x y -> pref y z -> pref x z.
Proof.
  unfold Floats.preferred. intros [H1|(E1 & H1)] [H2|(E2 & H2)].
  - left. lra.
  - left. lra.
  - left. lra.
  - right. split; [lra|]. lia.
Qed.

Lemma float_preferred_antisym (x y : nat * nat) :
  pref x y -> pref y x -> fst x = fst y /\ (snd x - fst x = snd y - fst y)%nat.
Proof.
  unfold Floats.preferred. intros [H1|(E1 & H1)] [H2|(E2 & H2)]; try lra. lia.
Qed.

(** [_choose_better] on two runs inside the score array: the candidate
    replaces the incumbent exactly when its mean is higher, or equal with
    a greater length. *)
Lemma float_choose_better_runs (cur cand : nat * nat) :
  (fst cur <= snd cur < n)%nat -> (fst cand <= snd cand < n)%nat ->
  (fst cur <= fst cand)%nat ->
  exists best,
    Floats._choose_better fl (Some cur) cand scores = Ok best
    /\ (best = cur \/ best = cand)
    /\ pref best cur /\ pref best cand.
Proof.
  intros Hc Hd Hstart. unfold Floats._choose_better.
  rewrite !float_mean_slice by lia. cbn [bind]. fold (favg (fst cur) (snd cur)). fold (favg (fst cand) (snd cand)).
  destruct (Qle_bool (favg (fst cand) (snd cand)) (favg (fst cur) (snd cur)))
    eqn:Ele; simpl.
  - apply Qle_bool_iff in Ele.
    destruct (Qeq_bool (favg (fst cand) (snd cand)) (favg (fst cur) (snd cur)))
      eqn:Eeq; simpl.
    + apply Qeq_bool_iff in Eeq.
      destruct (Nat.ltb_spec (snd cur - fst cur) (snd cand - fst cand)).
      * exists cand. repeat split; try (right; reflexivity).
        -- right. split; [lra|]. left. assumption.
        -- right. split; [lra|]. right. lia.
      * exists cur. repeat split; try (left; reflexivity).
        -- right. split; [lra|]. right. lia.
        -- right. split; [lra|]. lia.
    + apply Qeq_bool_neq in Eeq.
      exists cur. repeat split; try (left; reflexivity).
      * right. split; [lra|]. right. lia.
      * left. apply Qle_lteq in Ele. destruct Ele; [assumption|contradiction].
  - assert (Hlt : favg (fst cur) (snd cur) < favg (fst cand) (snd cand)).
    { apply Qnot_le_lt. intros H. apply Qle_bool_iff in H. congruence. }
    exists cand. repeat split; try (right; reflexivity).
    + left. assumption.
    + right. split; [lra|]. right. lia.
Qed.

(** *** The loop *)

(** Closing the open run [(c, i-1)] against the incumbent. *)
Lemma float_close_run (i c : nat) (best : option (nat * nat)) :
  loop_inv i best (Some c) -> qual i = false ->
  exists best',
    Floats._choose_better fl best (c, (i - 1)%nat) scores = Ok best'
    /\ maxrun (fst best') (snd best') = true /\ (S (snd best') < S i)%nat
    /\ forall c' d', maxrun c' d' = true -> (S d' < S i)%nat ->
                     pref (fst best', snd best') (c', d').
Proof.
  intros (Hi & (Hc & Hq & Hl) & Hb) Hend.
  assert (Hrun : maxrun c (i - 1) = true).
  { apply Interval.maximal_run_iff. repeat split; try lia; try assumption.
    - intros j Hj. apply Hq. lia.
    - replace (S (i - 1)) with i by lia. assumption. }
  assert (Hnew : forall c' d', maxrun c' d' = true -> (S d' < S i)%nat ->
                  (S d' < i)%nat \/ (c', d') = (c, (i - 1)%nat)).
  { intros c' d' Hr Hd.
    destruct (Nat.eq_dec d' (i - 1)) as [->|Hne]; [|left; lia].
    right. f_equal. eapply Interval.maximal_run_start_unique; eassumption. }
  assert (Hself : pref (c, (i - 1)%nat) (c, (i - 1)%nat)).
  { right. split; [reflexivity|]. right. simpl. lia. }
  destruct best as [[a b]|].
  - destruct Hb as (Hab & Hbi & Hdom).
    pose proof (Interval.maximal_run_bounds Hab) as Bab.
    pose proof (Interval.maximal_run_bounds Hrun) as Bc.
    assert (Hac : (a <= c)%nat).
    { apply Interval.maximal_run_iff in Hab. destruct Hab as (_ & _ & _ & Hr).
      destruct (Nat.le_gt_cases c (S b)) as [Hle|Hgt]; [|lia].
      rewrite Hq in Hr by lia. discriminate. }
    destruct (@float_choose_better_runs (a, b) (c, (i - 1)%nat)) as (best' & E & Hor & P1 & P2);
      simpl; try lia.
    exists best'. split; [exact E|].
    destruct Hor as [->| ->]; simpl; repeat split; try assumption; try lia.
    + intros c' d' Hr Hd. destruct (Hnew _ _ Hr Hd) as [Hold|Heq].
      * apply Hdom; assumption.
      * rewrite Heq. assumption.
    + intros c' d' Hr Hd. destruct (Hnew _ _ Hr Hd) as [Hold|Heq].
      * eapply float_preferred_trans; [exact P1|]. apply Hdom; assumption.
      * rewrite Heq. assumption.
  - exists (c, (i - 1)%nat). simpl. repeat split; try assumption; try lia.
    intros c' d' Hr Hd. destruct (Hnew _ _ Hr Hd) as [Hold|Heq].
    + exfalso. eapply Hb; eassumption.
    + rewrite Heq. assumption.
Qed.

Lemma float_run_step_inv (i : nat) (sc : Q) best cur :
  nth_error scores i = Some sc ->
  loop_inv i best cur ->
  exists best' cur',
    Floats.run_step fl scores threshold (Ok (best, cur)) (i, sc) = Ok (best', cur')
    /\ loop_inv (S i) best' cur'.
Proof.
  intros Hsc Hinv.
  assert (Hin : (i < n)%nat) by (apply nth_error_Some; congruence).
  pose proof (Interval.qualifies_nth threshold Hsc) as Hq.
  unfold Floats.run_step. simpl. rewrite <- Hq.
  destruct (qual i) eqn:Ei.
  - (* the page reaches the threshold: the open run goes on, or one opens *)
    destruct Hinv as (Hi & Hcur & Hbest).
    eexists best, _. split; [reflexivity|].
    split; [lia|]. split.
    + destruct cur as [c|].
      * destruct Hcur as (Hc & Hall & Hl). repeat split; try lia; try assumption.
        intros j Hj. destruct (Nat.eq_dec j i) as [->|]; [assumption|apply Hall; lia].
      * repeat split; try lia.
        -- intros j Hj. replace j with i by lia. assumption.
        -- destruct Hcur as [->|Hcur]; [left; reflexivity|right; assumption].
    + assert (Hno : forall c d, maxrun c d = true -> (S d < S i)%nat -> (S d < i)%nat).
      { intros c d Hr Hd. destruct (Nat.eq_dec (S d) i) as [E|]; [|lia].
        apply Interval.maximal_run_iff in Hr. destruct Hr as (_ & _ & _ & Hr).
        rewrite E in Hr. congruence. }
      destruct best as [[a b]|].
      * destruct Hbest as (Hab & Hbi & Hdom). repeat split; try assumption; try lia.
        intros c d Hr Hd. apply Hdom; eauto.
      * intros c d Hr Hd. eapply Hbest; eauto.
  - (* the page misses the threshold: the open run, if any, is closed *)
    destruct cur as [c|].
    + destruct (float_close_run Hinv Ei) as (best' & E & Hr & Hb & Hdom).
      rewrite E. simpl. exists (Some best'), None. split; [reflexivity|].
      destruct Hinv as (Hi & _ & _).
      split; [lia|]. split.
      * right. replace (S i - 1)%nat with i by lia. assumption.
      * destruct best' as [a b]. simpl in *. repeat split; assumption.
    + exists best, None. split; [reflexivity|].
      destruct Hinv as (Hi & Hcur & Hbest).
      split; [lia|]. split.
      * right. replace (S i - 1)%nat with i by lia. assumption.
      * assert (Hno : forall c d, maxrun c d = true -> (S d < S i)%nat -> (S d < i)%nat).
        { intros c d Hr Hd. destruct (Nat.eq_dec (S d) i) as [E|]; [|lia].
          apply Interval.maximal_run_iff in Hr. destruct Hr as (Hcd & Hall & _).
          destruct Hcur as [->|Hcur]; [lia|].
          rewrite <- E in Hcur. simpl in Hcur. rewrite Nat.sub_0_r in Hcur.
          rewrite Hall in Hcur by lia. discriminate. }
        destruct best as [[a b]|].
        -- destruct Hbest as (Hab & Hbi & Hdom). repeat split; try assumption; try lia.
           intros c d Hr Hd. apply Hdom; eauto.
        -- intros c d Hr Hd. eapply Hbest; eauto.
Qed.

Lemma float_run_loop_inv (rest : list Q) : forall i best cur,
  skipn i scores = rest ->
  loop_inv i best cur ->
  exists best' cur',
    fold_left (Floats.run_step fl scores threshold) (combine (seq i (length rest)) rest)
      (Ok (best, cur)) = Ok (best', cur')
    /\ loop_inv n best' cur'.
Proof.
  induction rest as [|sc rest IH]; intros i best cur Hskip Hinv.
  - exists best, cur. split; [reflexivity|].
    assert (n <= i)%nat.
    { destruct (Nat.le_gt_cases n i) as [|Hlt]; [assumption|].
      apply (f_equal (@length Q)) in Hskip. rewrite length_skipn in Hskip.
      simpl in Hskip. lia. }
    destruct Hinv as (Hi & Hcur & Hbest). replace n with i by lia.
    repeat split; try lia; assumption.
  - destruct (Interval.skipn_cons_nth Hskip) as [Hnth Hskip'].
    destruct (float_run_step_inv Hnth Hinv) as (best1 & cur1 & E1 & Hinv1).
    destruct (IH (S i) best1 cur1 Hskip' Hinv1) as (best2 & cur2 & E2 & Hinv2).
    exists best2, cur2. split; [|assumption].
    cbn [length seq combine fold_left]. rewrite E1. exact E2.
Qed.

(** The interval the loop ends with: a maximal run preferred to every
    maximal run, or nothing when no page reaches the threshold. *)
Lemma float_best_interval_spec :
  exists best,
    Floats.best_interval fl scores threshold = Ok best
    /\ match best with
       | Some (a, b) =>
           maxrun a b = true /\ forall c d, maxrun c d = true -> pref (a, b) (c, d)
       | None => forall c d, maxrun c d = true -> False
       end.
Proof.
  assert (H0 : loop_inv 0 None None).
  { repeat split; lia. }
  destruct (@float_run_loop_inv scores 0 None None eq_refl H0) as (best & cur & E & Hinv).
  unfold Floats.best_interval. rewrite E. simpl.
  assert (Hend : qual n = false).
  { unfold qualifies. assert (H : nth_error scores n = None) by (apply nth_error_None; lia).
    rewrite H. reflexivity. }
  destruct cur as [c|].
  - destruct (float_close_run Hinv Hend) as (best' & E' & Hr & Hb & Hdom).
    rewrite E'. simpl. exists (Some best'). split; [reflexivity|].
    destruct best' as [a b]. simpl in *. split; [assumption|].
    intros c' d' Hr'. apply Hdom; [assumption|].
    pose proof (Interval.maximal_run_bounds Hr'). lia.
  - exists best. split; [reflexivity|].
    destruct Hinv as (_ & Hcur & Hbest).
    assert (Hseen : forall c d, maxrun c d = true -> (S d < n)%nat).
    { intros c d Hr. pose proof (Interval.maximal_run_bounds Hr) as B.
      destruct (Nat.eq_dec (S d) n) as [E'|]; [|lia].
      apply Interval.maximal_run_iff in Hr. destruct Hr as (_ & Hall & _).
      destruct Hcur as [Hz|Hcur]; [lia|].
      rewrite <- E' in Hcur. simpl in Hcur. rewrite Nat.sub_0_r in Hcur.
      rewrite Hall in Hcur by lia. discriminate. }
    destruct best as [[a b]|].
    + destruct Hbest as (Hab & _ & Hdom). split; [assumption|].
      intros c d Hr. apply Hdom; eauto.
    + intros c d Hr. eapply Hbest; eauto.
Qed.

End Facts.

End FloatInterval.

(** The functions of [FindBibliography] are those of [Floats] at exact
    arithmetic. *)
Module FloatsExact.

Lemma select_interval_exact (scores : list Q) (threshold : Q) :
  Floats.select_interval (fun q => q) scores threshold
  = FindBibliography.select_interval scores threshold.
Proof. reflexivity. Qed.

Lemma median_exact (l : list Q) :
  Floats.median (fun a b => (a + b) / 2) l = FindBibliography.median l.
Proof. reflexivity. Qed.

Lemma pull_pages_exact (doc : document) (head tail : Q) :
  Floats._pull_pages (fun n x => Qceiling (inject_Z n * x)) doc head tail
  = FindBibliography._pull_pages doc head tail.
Proof. reflexivity. Qed.

End FloatsExact.

(** X18. What interval selection computes, for every score array and
    threshold, whatever float [statistics.mean] returns for a mean.  It
    never raises.  It returns the run [(a, b)] exactly when [(a, b)] is a
    maximal run of positions at or above the threshold that is preferred to
    every maximal run, runs of a single page included (higher mean as
    computed, then greater length, then earlier start), and its length is
    at least two; otherwise it returns nothing. *)
Theorem select_interval_characterised (fl : Q -> Q) (scores : list Q) (threshold : Q) :
  exists res,
    Floats.select_interval fl scores threshold = Ok res
    /\ forall a b,
         res = Some (a, b)
         <-> (Spec.is_maximal_run scores threshold a b = true
              /\ (forall c d, Spec.is_maximal_run scores threshold c d = true ->
                              Floats.preferred fl scores (a, b) (c, d))
              /\ (2 <= b - a + 1)%nat).
Proof.
  destruct (FloatInterval.float_best_interval_spec fl scores threshold) as (best & E & Hbest).
  unfold Floats.select_interval. rewrite E. cbn [bind].
  destruct best as [[a0 b0]|].
  - destruct Hbest as (Hrun & Hdom).
    assert (Huniq : forall a b,
               Spec.is_maximal_run scores threshold a b = true ->
               (forall c d, Spec.is_maximal_run scores threshold c d = true ->
                            Floats.preferred fl scores (a, b) (c, d)) ->
               (a, b) = (a0, b0)).
    { intros a b Hr Hd.
      destruct (@FloatInterval.float_preferred_antisym fl scores (a, b) (a0, b0)) as [E1 E2];
        [apply Hd; assumption|apply Hdom; assumption|].
      simpl in E1, E2.
      pose proof (Interval.maximal_run_bounds Hr).
      pose proof (Interval.maximal_run_bounds Hrun).
      f_equal; lia. }
    unfold FindBibliography.MIN_BLOCK_LEN.
    destruct (Nat.leb_spec 2 (b0 - a0 + 1)) as [Hlen|Hlen].
    + exists (Some (a0, b0)). split; [reflexivity|]. intros a b. split.
      * intros H. inversion H; subst. auto.
      * intros (Hr & Hd & _). f_equal. symmetry. apply Huniq; assumption.
    + exists None. split; [reflexivity|]. intros a b. split; [discriminate|].
      intros (Hr & Hd & Hl). pose proof (Huniq a b Hr Hd) as H.
      inversion H; subst. lia.
  - exists None. split; [reflexivity|]. intros a b. split; [discriminate|].
    intros (Hr & _). exfalso. eapply Hbest; eassumption.
Qed.

(** ** Bounds of the detection result *)

Module Bounds.

Import FindBibliography Inv.

Lemma int_of_nonneg (s : str) (z : Z) : int_of s = Some z -> (0 <= z)%Z.
Proof.
  unfold int_of. destruct s; [discriminate|].
  destruct (int_digits 0 (c :: s)); simpl; [|discriminate].
  intros H. inversion H. lia.
Qed.

Lemma bib_from_toc_nonneg (lines : list str) (b : Z) :
  _bib_from_toc lines = Some b -> (0 <= b)%Z.
Proof.
  induction lines as [|ln lines IH]; simpl; [discriminate|].
  match goal with |- context [if ?c then _ else _] => destruct c end; [|assumption].
  destruct (Re.search _TOC_NUM ln) as [m|]; [|assumption].
  destruct (int_of _) as [z|] eqn:E; [|assumption].
  intros H. inversion H; subst. eapply int_of_nonneg; eassumption.
Qed.

(** *** Keyword block *)

Lemma hits_from_range (M : KeywordHits.module) (texts : list str) : forall i p,
  In p (KeywordHits.hits_from M texts i) ->
  (Z.of_nat i + 1 <= p <= Z.of_nat i + Z.of_nat (length texts))%Z.
Proof.
  induction texts as [|t texts IH]; intros i p H; simpl in H; [contradiction|].
  assert (Hrec : In p (KeywordHits.hits_from M texts (S i)) ->
                 (Z.of_nat i + 1 <= p <= Z.of_nat i + Z.of_nat (length (t :: texts)))%Z).
  { intros H'. apply IH in H'. simpl length. lia. }
  destruct (KeywordHits.check_page M t); [|auto].
  destruct H as [<-|H]; [simpl length; lia|auto].
Qed.

Lemma insertZ_in (x y : Z) (l : list Z) : In x (insertZ y l) <-> x = y \/ In x l.
Proof.
  induction l as [|z l IH]; simpl.
  - intuition.
  - destruct (y <=? z)%Z; simpl; [intuition|]. rewrite IH. intuition.
Qed.

Lemma sortZ_in (x : Z) (l : list Z) : In x (sortZ l) <-> In x l.
Proof.
  induction l as [|y l IH]; simpl; [reflexivity|].
  rewrite insertZ_in, IH. intuition.
Qed.

Section Runs.

Variable src : list Z.

Abbreviation good_run := (Inv.good_run src).

Lemma good_singleton (p : Z) : In p src -> good_run [p].
Proof. intros H. repeat split; simpl; (congruence || lia || assumption). Qed.

Lemma good_snoc (r : list Z) (p : Z) :
  good_run r -> p = (last r 0 + 1)%Z -> In p src -> good_run (r ++ [p]).
Proof.
  intros (Hne & Hle & Hh & Hl) -> Hp.
  destruct r as [|x r]; [congruence|].
  repeat split.
  - destruct r; discriminate.
  - rewrite last_last. simpl hd in *. lia.
  - exact Hh.
  - rewrite last_last. exact Hp.
Qed.

Lemma runs_loop (ps : list Z) : forall runs cur,
  Forall good_run runs -> good_run cur -> (forall p, In p ps -> In p src) ->
  let '(runs', cur') := fold_left runs_step ps (runs, cur) in
  Forall good_run runs' /\ good_run cur'.
Proof.
  induction ps as [|p ps IH]; intros runs cur Hr Hc Hin; simpl; [auto|].
  destruct (Z.eqb_spec p (last cur 0 + 1)%Z) as [E|E].
  - apply IH; [assumption| |intros; apply Hin; right; assumption].
    apply good_snoc; [assumption|assumption|apply Hin; left; reflexivity].
  - apply IH; [| |intros; apply Hin; right; assumption].
    + apply Forall_app. split; [assumption|]. constructor; [assumption|constructor].
    + apply good_singleton. apply Hin. left. reflexivity.
Qed.

Lemma longest_in (rs : list (list Z)) : forall best,
  longest best rs = best \/ In (longest best rs) rs.
Proof.
  induction rs as [|r rs IH]; intros best; simpl; [left; reflexivity|].
  destruct (length best <? length r)%nat.
  - destruct (IH r) as [->|H]; [right; left; reflexivity|right; right; assumption].
  - destruct (IH best) as [->|H]; [left; reflexivity|right; right; assumption].
Qed.

End Runs.

Lemma keyword_block_bounds (kw_pages : list Z) (k : Z) (lo hi f l : Z) :
  (forall p, In p kw_pages -> (lo <= p <= hi)%Z) ->
  keyword_block kw_pages k = Some (f, l) ->
  (lo <= f <= l)%Z /\ (l <= hi)%Z.
Proof.
  intros Hrange. unfold keyword_block.
  destruct (sortZ kw_pages) as [|p0 ps] eqn:Es; [discriminate|].
  assert (Hsrc : forall p, In p (p0 :: ps) -> In p kw_pages).
  { intros p Hp. apply sortZ_in. rewrite Es. assumption. }
  pose proof (@runs_loop kw_pages ps [] [p0]) as Hloop.
  destruct (fold_left runs_step ps ([], [p0])) as [runs cur].
  destruct Hloop as [Hruns Hcur].
  { constructor. }
  { apply good_singleton. apply Hsrc. left. reflexivity. }
  { intros p Hp. apply Hsrc. right. assumption. }
  assert (Hall : Forall (Inv.good_run kw_pages) (runs ++ [cur])).
  { apply Forall_app. split; [assumption|]. constructor; [assumption|constructor]. }
  destruct (runs ++ [cur]) as [|r rs]; [discriminate|].
  assert (Hbest : Inv.good_run kw_pages (longest r rs)).
  { rewrite Forall_forall in Hall.
    destruct (longest_in rs r) as [->|Hin]; apply Hall; [left; reflexivity|right; assumption]. }
  destruct (k <=? Z.of_nat (length (longest r rs)))%Z; [|discriminate].
  intros H. inversion H; subst.
  destruct Hbest as (_ & Hle & Hh & Hl).
  pose proof (Hrange _ Hh). pose proof (Hrange _ Hl). lia.
Qed.

(** *** Interval scorer *)

Section Scorer.

Variable _score_page : str -> Q.
Variable oracle : option (str -> result bool).

Lemma apply_flags_length (flags : list bool) : forall scores,
  length (apply_flags flags scores) = length scores.
Proof.
  induction flags as [|ok flags IH]; intros [|sc scores]; simpl; try reflexivity.
  rewrite IH. reflexivity.
Qed.

Lemma refine_length use_gpt gpt_only pages scores :
  length (refine oracle use_gpt gpt_only pages scores) = length scores.
Proof.
  unfold refine. destruct oracle as [g|]; [|reflexivity].
  destruct use_gpt; [|reflexivity].
  destruct (flags_of g gpt_only pages scores); [apply apply_flags_length|reflexivity].
Qed.

Lemma select_interval_bounds (scores : list Q) (threshold : Q) (a b : nat) :
  select_interval scores threshold = Ok (Some (a, b)) ->
  (a <= b < length scores)%nat.
Proof.
  destruct (Interval.best_interval_spec scores threshold) as (best & E & Hbest).
  unfold select_interval. rewrite E. cbn [bind].
  destruct best as [[a0 b0]|]; [|discriminate].
  destruct (MIN_BLOCK_LEN <=? b0 - a0 + 1)%nat; [|discriminate].
  intros H. inversion H; subst.
  apply (Interval.maximal_run_bounds (proj1 Hbest)).
Qed.

Lemma minZ_le_maxZ (l : list Z) (d : Z) : (minZ l d <= maxZ l d)%Z.
Proof. induction l; simpl; lia. Qed.

Lemma minZ_lower (lo : Z) (l : list Z) (d : Z) :
  (lo <= d)%Z -> Forall (fun x => lo <= x)%Z l -> (lo <= minZ l d)%Z.
Proof. intros Hd H. induction H; simpl; lia. Qed.

Lemma maxZ_upper (hi : Z) (l : list Z) (d : Z) :
  (d <= hi)%Z -> Forall (fun x => x <= hi)%Z l -> (maxZ l d <= hi)%Z.
Proof. intros Hd H. induction H; simpl; lia. Qed.

Lemma evaluate_bounds (doc : document) use_gpt gpt_only boost pages f l :
  in_document doc pages ->
  _evaluate _score_page oracle use_gpt gpt_only boost pages = Ok (Some (f, l)) ->
  (1 <= f <= l)%Z /\ (l <= page_count doc)%Z.
Proof.
  intros Hdoc. unfold _evaluate.
  destruct (median _) as [med|]; [|discriminate]. cbn [bind].
  set (scores := refine oracle use_gpt gpt_only pages _).
  destruct (select_interval scores (med * boost)) as [[[a b]|]|] eqn:Esel;
    cbn [bind]; try discriminate.
  apply select_interval_bounds in Esel.
  assert (Hlen : length scores = length pages).
  { unfold scores. rewrite refine_length, length_map. reflexivity. }
  set (abs := fun i : nat => (Z.of_nat (fst (nth i pages (O, []))) + 1)%Z).
  assert (Hall : Forall (fun x => 1 <= x <= page_count doc)%Z (map abs (seq a (S b - a)))).
  { apply Forall_forall. intros x Hx. apply in_map_iff in Hx.
    destruct Hx as (i & <- & Hi). apply in_seq in Hi.
    assert (Hin : In (nth i pages (O, [])) pages) by (apply nth_In; lia).
    unfold in_document in Hdoc. rewrite Forall_forall in Hdoc.
    specialize (Hdoc _ Hin). unfold abs, page_count. lia. }
  destruct (map abs (seq a (S b - a))) as [|p rest]; [discriminate|].
  intros H. inversion H; subst.
  inversion Hall as [|? ? Hp Hrest]; subst.
  pose proof (@minZ_le_maxZ rest p).
  assert (1 <= minZ rest p)%Z.
  { apply minZ_lower; [lia|]. eapply Forall_impl; [|exact Hrest]. simpl. lia. }
  assert (maxZ rest p <= page_count doc)%Z.
  { apply maxZ_upper; [lia|]. eapply Forall_impl; [|exact Hrest]. simpl. lia. }
  lia.
Qed.

Lemma load_pages_in_document (doc : document) (idxs : list nat) : forall pages,
  load_pages doc idxs = Ok pages -> in_document doc pages.
Proof.
  induction idxs as [|i idxs IH]; intros pages; simpl.
  - intros H. inversion H. constructor.
  - unfold load_page. destruct (nth_error (page_texts doc) i) as [t|] eqn:E;
      [|discriminate]. cbn [bind].
    destruct (load_pages doc idxs) as [ps|]; [|discriminate]. cbn [bind].
    intros H. inversion H; subst. constructor.
    + simpl. apply nth_error_Some. congruence.
    + apply IH. reflexivity.
Qed.

Lemma pull_pages_in_document (doc : document) head tail pages :
  _pull_pages doc head tail = Ok pages -> in_document doc pages.
Proof.
  unfold _pull_pages.
  destruct (load_pages doc (seq 0 _)) as [front|] eqn:Ef; [|discriminate]. cbn [bind].
  destruct (load_pages doc (tail_indices _ _)) as [back|] eqn:Eb; [|discriminate].
  cbn [bind]. intros H. inversion H; subst.
  apply Forall_app. split; eapply load_pages_in_document; eassumption.
Qed.

Lemma all_pages_in_document (doc : document) :
  in_document doc (combine (seq 0 (length (page_texts doc))) (page_texts doc)).
Proof.
  apply Forall_forall. intros [i t] H. apply in_combine_l in H.
  apply in_seq in H. simpl. lia.
Qed.

Lemma detect_block_bounds (doc : document) head tail use_gpt gpt_only boost f l :
  _detect_block _score_page oracle doc head tail use_gpt gpt_only boost = Ok (Some (f, l)) ->
  (1 <= f <= l)%Z /\ (l <= page_count doc)%Z.
Proof.
  unfold _detect_block.
  destruct (_pull_pages doc head tail) as [sample|] eqn:Ep; [|discriminate]. cbn [bind].
  apply pull_pages_in_document in Ep.
  destruct (_evaluate _ _ _ _ _ sample) as [[[f1 l1]|]|] eqn:E1; cbn [bind];
    try discriminate.
  - destruct (load_page doc _); [|discriminate]. cbn [bind].
    intros H. inversion H; subst. eapply evaluate_bounds; eassumption.
  - destruct (_evaluate _ _ _ _ _ (combine _ _)) as [[[f2 l2]|]|] eqn:E2; cbn [bind];
      try discriminate.
    destruct (nth_error _ _); [|discriminate].
    intros H. inversion H; subst.
    eapply evaluate_bounds; [apply all_pages_in_document|eassumption].
Qed.

End Scorer.

End Bounds.

(** C1. A two-page document whose contents page lists the bibliography on
    page 391 is answered with (391, 391): the table-of-contents stage passes
    the trailing number of the row on without comparing it with the page
    count. *)
Theorem toc_page_number_exceeds_page_count :
  FindBibliography.detect_bibliography Samples.flat_score None Samples.detector_module
    Samples.toc_document FindBibliography.default_options = Ok (Some (391, 391)%Z)
  /\ page_count Samples.toc_document = 2%Z.
Proof. split; vm_compute; reflexivity. Qed.

(** X19. The bounds that do hold.  A result (f, l) of the detector satisfies
    1 <= f <= l.  When the table-of-contents stage answers, f = l is the
    trailing number of the bibliography row; when a later stage answers,
    l <= pageCount as well. *)
Theorem detect_bibliography_bounds
  (_score_page : str -> Q) (oracle : option (str -> result bool))
  (M : FindBibliography.module) (doc : document) (o : FindBibliography.options)
  (f l : Z) :
  FindBibliography.detect_bibliography _score_page oracle M doc o = Ok (Some (f, l)) ->
  (1 <= f <= l)%Z
  /\ forall toc_pg toc_lines,
       ExtractToc._scan_pdf doc = Ok (toc_pg, toc_lines) ->
       let bib := FindBibliography._bib_from_toc toc_lines in
       (ExtractToc.truthy_int bib = true -> bib = Some f /\ f = l)
       /\ (ExtractToc.truthy_int bib = false -> (l <= page_count doc)%Z).
Proof.
  unfold FindBibliography.detect_bibliography.
  destruct (ExtractToc._scan_pdf doc) as [[toc_pg toc_lines]|] eqn:Etoc;
    [|discriminate]. cbn [bind].
  destruct (ExtractToc.truthy_int (FindBibliography._bib_from_toc toc_lines)) eqn:Ebib.
  - (* table of contents *)
    destruct (FindBibliography._bib_from_toc toc_lines) as [b|] eqn:Eb; [|discriminate].
    intros H. inversion H; subst.
    pose proof (Bounds.bib_from_toc_nonneg Eb) as Hb.
    simpl in Ebib. apply negb_true_iff, Z.eqb_neq in Ebib.
    split; [lia|]. intros pg lines E. inversion E; subst. cbv zeta.
    rewrite Eb. simpl. destruct (l =? 0)%Z eqn:E0; [apply Z.eqb_eq in E0; lia|].
    split; [auto|discriminate].
  - assert (Hlater : (1 <= f <= l)%Z /\ (l <= page_count doc)%Z ->
                     (1 <= f <= l)%Z
                     /\ forall pg lines, Ok (toc_pg, toc_lines) = Ok (pg, lines) ->
                          let bib := FindBibliography._bib_from_toc lines in
                          (ExtractToc.truthy_int bib = true -> bib = Some f /\ f = l)
                          /\ (ExtractToc.truthy_int bib = false -> (l <= page_count doc)%Z)).
    { intros [H1 H2]. split; [assumption|]. intros pg lines E. inversion E; subst.
      cbv zeta. rewrite Ebib. split; [discriminate|auto]. }
    destruct (FindBibliography.keyword_block _ _) as [[f1 l1]|] eqn:Ekw.
    + (* keyword block *)
      intros H. inversion H; subst. apply Hlater.
      eapply Bounds.keyword_block_bounds; [|exact Ekw].
      intros p Hp. unfold KeywordHits.analyse_pdf in Hp.
      apply Bounds.hits_from_range in Hp. unfold page_count. lia.
    + destruct (match chapters doc with Some _ => _ | None => _ end) as [|h rest].
      * (* full heuristic *)
        intros H. apply Hlater. eapply Bounds.detect_block_bounds; eassumption.
      * (* heading fonts: the tightening step never returns *)
        unfold FindBibliography.tighten.
        rewrite EmptySample.detect_block_nothing. discriminate.
Qed.

Lemma detect_bibliography_bounds_witness :
  FindBibliography.detect_bibliography Samples.flat_score None Samples.detector_module
    Samples.toc_document FindBibliography.default_options = Ok (Some (391, 391)%Z)
  /\ (1 <= 391 <= 391)%Z.
Proof.
  assert (H : FindBibliography.detect_bibliography Samples.flat_score None
                Samples.detector_module Samples.toc_document
                FindBibliography.default_options = Ok (Some (391, 391)%Z))
    by (vm_compute; reflexivity).
  split; [exact H|].
  exact (proj1 (detect_bibliography_bounds H)).
Defined.

(** ** Year extraction *)

Module Years.

Import RefParser Spec Inv.

Lemma succ_neqb (p : nat) : (S p =? p)%nat = false.
Proof. apply Nat.eqb_neq. lia. Qed.

Lemma four_ahead (p : nat) : (S (S (S (S p))) - p = 4)%nat.
Proof. lia. Qed.

Lemma year_short (b a : str) (p : nat) :
  (length a < 4)%nat ->
  Re.m false (Re.ast RE_YEAR) K0 {| Re.before := b; Re.after := a; Re.pos := p |} [] = None.
Proof.
  intros H.
  destruct a as [|d1 [|d2 [|d3 [|d4 rest]]]]; [| | | |simpl in H; lia].
  all: cbn.
  all: rewrite ?succ_neqb.
  all: repeat match goal with
         | |- context [if ?c then _ else _] => destruct c
         end; reflexivity.
Qed.

Ltac positions :=
  repeat match goal with
    | |- context [(?a =? ?b)%nat] =>
        replace (a =? b)%nat with false by (symmetry; apply Nat.eqb_neq; lia)
    | |- context [(S (S (S (S ?p))) - ?p)%nat] =>
        replace (S (S (S (S p))) - p)%nat with 4%nat by lia
    end.

Ltac atom c := destruct c; cbn -[Nat.eqb Nat.sub]; positions; try reflexivity.

Lemma year_long (b : str) (d1 d2 d3 d4 : char) (rest : str) (p : nat) :
  Re.m false (Re.ast RE_YEAR) K0
    {| Re.before := b; Re.after := d1 :: d2 :: d3 :: d4 :: rest; Re.pos := p |} []
  = if year_cond b d1 d2 d3 d4 rest
    then Some ({| Re.before := d4 :: d3 :: d2 :: d1 :: b; Re.after := rest;
                  Re.pos := S (S (S (S p))) |},
               [(1%nat, (p, S (S (S (S p))), [d1; d2; d3; d4]))])
    else None.
Proof.
  unfold year_cond.
  cbn -[Nat.eqb Nat.sub]. positions.
  unfold Re.at_word_boundary, Re.word_before, Re.word_after.
  cbn -[Nat.eqb Nat.sub].
  set (wb := match b with c :: _ => isword c | [] => false end).
  set (wa := match rest with c :: _ => isword c | [] => false end).
  atom wb; atom (isword d1); atom (d1 =? 49)%N; atom (in_range 54%N 57%N d2);
    atom (d1 =? 50)%N; atom (d2 =? 48)%N; atom (d2 =? 49)%N;
    atom (isdecimal d3); atom (isdecimal d4); atom (isword d4); atom wa.
Qed.

Lemma isdecimal_range (d : char) : isdecimal d = true <-> (48 <= d <= 57)%N.
Proof.
  unfold isdecimal, in_range. rewrite andb_true_iff, !N.leb_le. reflexivity.
Qed.

Lemma isdecimal_word (d : char) : isdecimal d = true -> isword d = true.
Proof.
  intros H. unfold isword, isalnum. rewrite H, !orb_true_r. reflexivity.
Qed.

Lemma int_of_4 (d1 d2 d3 d4 : char) :
  isdecimal d1 = true -> isdecimal d2 = true ->
  isdecimal d3 = true -> isdecimal d4 = true ->
  int_of [d1; d2; d3; d4] = Some (digits_value d1 d2 d3 d4).
Proof.
  intros H1 H2 H3 H4. unfold int_of, int_digits. rewrite H1, H2, H3, H4.
  unfold digits_value. simpl option_map. f_equal. f_equal. lia.
Qed.

Abbreviation prev_of b := (match b with c :: _ => Some c | [] => None end).

(** The condition of the pattern is that of a year token between 1600
    and 2199. *)
Lemma year_cond_token (b : str) (d1 d2 d3 d4 : char) (rest : str) :
  year_cond b d1 d2 d3 d4 rest = true ->
  int_of [d1; d2; d3; d4] = Some (digits_value d1 d2 d3 d4)
  /\ year_token 1600 2199 (prev_of b) (d1 :: d2 :: d3 :: d4 :: rest)
     = Some (digits_value d1 d2 d3 d4).
Proof.
  unfold year_cond. rewrite !andb_true_iff.
  intros ((((Hb & Hpat) & H3) & H4) & Ha).
  assert (H12 : (d1 = 49 /\ 54 <= d2 <= 57)%N \/ (d1 = 50 /\ (d2 = 48 \/ d2 = 49))%N).
  { apply orb_true_iff in Hpat. destruct Hpat as [Hp|Hp]; apply andb_true_iff in Hp;
      destruct Hp as [Hp1 Hp2]; apply N.eqb_eq in Hp1; [left|right]; (split; [assumption|]).
    - unfold in_range in Hp2. apply andb_true_iff in Hp2.
      rewrite !N.leb_le in Hp2. assumption.
    - apply orb_true_iff in Hp2. rewrite !N.eqb_eq in Hp2. assumption. }
  assert (H1 : isdecimal d1 = true) by (apply isdecimal_range; lia).
  assert (H2 : isdecimal d2 = true) by (apply isdecimal_range; lia).
  pose proof (int_of_4 H1 H2 H3 H4) as Hint.
  split; [exact Hint|].
  rewrite (isdecimal_word H1) in Hb. rewrite (isdecimal_word H4) in Ha.
  unfold year_token. rewrite H1, H2, H3, H4, Hint.
  assert (Hprev : match prev_of b with Some c => isword c | None => false end = false).
  { destruct b as [|c b']; simpl in *; [reflexivity|].
    destruct (isword c); [discriminate|reflexivity]. }
  assert (Hnext : match rest with c :: _ => isword c | [] => false end = false).
  { destruct (match rest with c :: _ => isword c | [] => false end);
      [discriminate|reflexivity]. }
  rewrite Hprev, Hnext. simpl andb.
  apply isdecimal_range in H3, H4.
  assert (Hv : (1600 <= digits_value d1 d2 d3 d4 <= 2199)%Z)
    by (unfold digits_value; lia).
  destruct (Z.leb_spec 1600 (digits_value d1 d2 d3 d4)); [|lia].
  destruct (Z.leb_spec (digits_value d1 d2 d3 d4) 2199); [|lia].
  reflexivity.
Qed.

Lemma year_token_cond (b : str) (d1 d2 d3 d4 : char) (rest : str) (v : Z) :
  year_token 1600 2199 (prev_of b) (d1 :: d2 :: d3 :: d4 :: rest) = Some v ->
  year_cond b d1 d2 d3 d4 rest = true.
Proof.
  unfold year_token.
  destruct (isdecimal d1 && isdecimal d2 && isdecimal d3 && isdecimal d4
            && negb (match prev_of b with Some c => isword c | None => false end)
            && negb (match rest with c :: _ => isword c | [] => false end)) eqn:E;
    [|discriminate].
  rewrite !andb_true_iff, !negb_true_iff in E.
  destruct E as (((((H1 & H2) & H3) & H4) & Hp) & Hn).
  rewrite (int_of_4 H1 H2 H3 H4).
  destruct (Z.leb_spec 1600 (digits_value d1 d2 d3 d4)); [|discriminate].
  destruct (Z.leb_spec (digits_value d1 d2 d3 d4) 2199); [|discriminate].
  intros _. unfold year_cond.
  rewrite (isdecimal_word H1), (isdecimal_word H4), H3, H4, Hn.
  assert (Hb : match b with c :: _ => isword c | [] => false end = false).
  { destruct b; [reflexivity|exact Hp]. }
  rewrite Hb. simpl xorb. rewrite !andb_true_r. simpl andb.
  pose proof H1 as R1. pose proof H2 as R2. pose proof H3 as R3. pose proof H4 as R4.
  apply isdecimal_range in R1, R2, R3, R4.
  unfold digits_value in *.
  assert (H12 : (d1 = 49 /\ 54 <= d2 <= 57)%N \/ (d1 = 50 /\ (d2 = 48 \/ d2 = 49))%N) by lia.
  unfold in_range.
  destruct H12 as [[-> [Hlo Hhi]]|[-> [-> | ->]]].
  - apply N.leb_le in Hlo, Hhi. rewrite Hlo, Hhi. reflexivity.
  - reflexivity.
  - reflexivity.
Qed.

Lemma year_token_after_word (c : char) (s : str) :
  isword c = true -> year_token 1600 2199 (Some c) s = None.
Proof.
  intros H. unfold year_token.
  destruct s as [|d1 [|d2 [|d3 [|d4 rest]]]]; try reflexivity.
  rewrite H. simpl negb. rewrite andb_false_r. reflexivity.
Qed.

Lemma year_token_short (prev : option char) (s : str) :
  (length s < 4)%nat -> year_token 1600 2199 prev s = None.
Proof.
  destruct s as [|d1 [|d2 [|d3 [|d4 rest]]]]; simpl; try reflexivity; lia.
Qed.

Lemma match_at_year_short (b a : str) (p : nat) :
  (length a < 4)%nat ->
  Re.match_at RE_YEAR {| Re.before := b; Re.after := a; Re.pos := p |} = None.
Proof.
  intros H. unfold Re.match_at.
  change (Re.icase RE_YEAR) with false.
  change (fun (z' : Re.cur) (cs : Re.caps) => Some (z', cs)) with K0.
  rewrite year_short by assumption. reflexivity.
Qed.

Lemma match_at_year_long (b : str) (d1 d2 d3 d4 : char) (rest : str) (p : nat) :
  Re.match_at RE_YEAR
    {| Re.before := b; Re.after := d1 :: d2 :: d3 :: d4 :: rest; Re.pos := p |}
  = if year_cond b d1 d2 d3 d4 rest
    then Some {| Re.m_start := p; Re.m_stop := S (S (S (S p)));
                 Re.m_text := [d1; d2; d3; d4];
                 Re.m_caps := [(1%nat, (p, S (S (S (S p))), [d1; d2; d3; d4]))];
                 Re.m_rest := {| Re.before := d4 :: d3 :: d2 :: d1 :: b;
                                 Re.after := rest; Re.pos := S (S (S (S p))) |} |}
    else None.
Proof.
  unfold Re.match_at.
  change (Re.icase RE_YEAR) with false.
  change (fun (z' : Re.cur) (cs : Re.caps) => Some (z', cs)) with K0.
  rewrite year_long.
  destruct (year_cond b d1 d2 d3 d4 rest); [|reflexivity].
  cbn -[Nat.sub]. rewrite four_ahead. reflexivity.
Qed.

(** The successive matches of [RE_YEAR] are the year tokens of the text. *)
Lemma finditer_years (fuel : nat) : forall b a p,
  (length a < fuel)%nat ->
  map year_of (Re.finditer_fuel fuel RE_YEAR
                 {| Re.before := b; Re.after := a; Re.pos := p |})
  = map Some (year_tokens 1600 2199 (prev_of b) a).
Proof.
  induction fuel as [|fuel IH]; intros b a p Hf; [lia|].
  cbn [Re.finditer_fuel].
  destruct (Nat.lt_ge_cases (length a) 4) as [Hshort|Hlong].
  - rewrite match_at_year_short by assumption.
    destruct a as [|c r]; [reflexivity|].
    cbn [Re.after Re.advance Re.before Re.pos].
    rewrite IH by (simpl in *; lia).
    cbn [year_tokens]. rewrite year_token_short by assumption. reflexivity.
  - destruct a as [|d1 [|d2 [|d3 [|d4 rest]]]]; try (simpl in Hlong; lia).
    rewrite match_at_year_long.
    destruct (year_cond b d1 d2 d3 d4 rest) eqn:Ec.
    + destruct (year_cond_token Ec) as [Hint Htok].
      cbn [Re.m_stop Re.pos Re.m_rest].
      replace (S (S (S (S p))) =? p)%nat with false
        by (symmetry; apply Nat.eqb_neq; lia).
      cbn [map]. rewrite IH by (simpl in *; lia).
      cbn [year_tokens]. rewrite Htok.
      assert (W : isword d1 = true /\ isword d2 = true /\ isword d3 = true).
      { unfold year_token in Htok.
        destruct (isdecimal d1 && isdecimal d2 && isdecimal d3 && isdecimal d4
                  && negb (match prev_of b with Some c => isword c | None => false end)
                  && negb (match rest with c :: _ => isword c | [] => false end)) eqn:E;
          [|discriminate].
        rewrite !andb_true_iff in E.
        destruct E as (((((H1 & H2) & H3) & _) & _) & _).
        auto using isdecimal_word. }
      destruct W as (W1 & W2 & W3).
      rewrite !year_token_after_word by assumption.
      cbn [map]. f_equal. unfold year_of, Re.group. cbn. exact Hint.
    + cbn [Re.after Re.advance Re.before Re.pos].
      rewrite IH by (simpl in *; lia).
      cbn [year_tokens].
      destruct (year_token 1600 2199 (prev_of b) (d1 :: d2 :: d3 :: d4 :: rest)) eqn:Et;
        [|reflexivity].
      apply year_token_cond in Et. congruence.
Qed.

Lemma last_of_years (years : list str) (tokens : list Z) :
  map int_of years = map Some tokens ->
  match years with
  | [] => Ok None
  | _ =>
      bind (nth_from_end years 1)
        (fun last_year =>
           match int_of last_year with
           | Some y => Ok (Some y)
           | None => Raise ValueError
           end)
  end = Ok (last_opt tokens).
Proof.
  intros H. unfold nth_from_end, last_opt.
  assert (Hrev : map int_of (rev years) = map Some (rev tokens)).
  { rewrite !map_rev. f_equal. exact H. }
  destruct years as [|y0 ys].
  - destruct tokens; [reflexivity|discriminate].
  - destruct (rev (y0 :: ys)) as [|x xs] eqn:Er.
    + apply (f_equal (@length str)) in Er. rewrite length_rev in Er. discriminate.
    + destruct (rev tokens) as [|t ts]; [discriminate|].
      simpl in Hrev. inversion Hrev as [[Hx Hxs]].
      simpl. rewrite Hx. reflexivity.
Qed.

(** [extract_year] returns the last year token between 1600 and 2199. *)
Lemma extract_year_last (s : str) :
  extract_year s = Ok (last_year 1600 2199 s).
Proof.
  unfold extract_year, last_year.
  apply last_of_years.
  unfold Re.findall1, Re.finditer, Re.start_of. rewrite map_map.
  apply (@finditer_years (S (length s)) [] s O). lia.
Qed.


End Years.




(** ** The accepting extractor *)

(** Every record that [_parse_page] lets through has authors and a title. *)
Lemma parse_page_keeps_complete_records
  (parse_line : str -> option Normalizer.RawRecord) (txt : str) :
  Forall (fun r => Normalizer.raw_authors r <> [] /\ Normalizer.raw_title r <> [])
         (Extractor._parse_page parse_line txt).
Proof.
  unfold Extractor._parse_page. apply Forall_forall. intros r Hr.
  apply in_flat_map in Hr. destruct Hr as (raw & _ & Hr).
  destruct (parse_line raw) as [r'|]; simpl in Hr; [|contradiction].
  destruct (nonempty (Normalizer.raw_authors r')) eqn:Ea; simpl in Hr; [|contradiction].
  destruct (nonempty (Normalizer.raw_title r')) eqn:Et; simpl in Hr; [|contradiction].
  destruct Hr as [<-|[]]. split; apply nonempty_true; assumption.
Qed.

(* ====================================================================== *)
(** * Further properties of the code                                       *)
(* ====================================================================== *)

(** ** The page score *)

Module PageScoreFacts.

Import PageScore.

Lemma ratio_range A (p : A -> bool) (xs : list A) : 0 <= ratio p xs /\ ratio p xs <= 1.
Proof.
  unfold ratio, len_or_1, Normalizer.count_if.
  assert (Hc : (length (filter p xs) <= length xs)%nat) by apply filter_length_le.
  destruct xs as [|x xs'].
  - simpl. split; [discriminate|]. unfold Qle; simpl; lia.
  - set (n := length (x :: xs')) in *.
    assert (Hn : (0 < n)%nat) by (unfold n; simpl; lia).
    set (k := length (filter p (x :: xs'))) in *.
    assert (Hq : 0 < inject_Z (Z.of_nat n)).
    { unfold Qlt; simpl. lia. }
    split.
    + apply Qle_shift_div_l; [assumption|]. rewrite Qmult_0_l.
      change 0 with (inject_Z 0). rewrite <- Zle_Qle. lia.
    + apply Qle_shift_div_r; [assumption|]. rewrite Qmult_1_l.
      rewrite <- Zle_Qle. lia.
Qed.

Lemma pymin_range (a : Q) : 0 <= a -> 0 <= pymin a 1 /\ pymin a 1 <= 1.
Proof.
  intros Ha. unfold pymin. destruct (Qle_bool a 1) eqn:E.
  - apply Qle_bool_iff in E. split; assumption.
  - split; [discriminate|apply Qle_refl].
Qed.

End PageScoreFacts.

(** X1. The score of a page, floats read as exact rationals: a page of
    white space only scores 0; every other page scores between 0.36 and
    1; and a page on which at least 5 % of the non-blank lines are citation
    lines scores at least 0.45. *)
Theorem score_page_range (M : FindBibliography.module) (txt : str) :
  (strip txt = [] -> PageScore._score_page M txt == 0)
  /\ (strip txt <> [] -> (36 # 100) <= PageScore._score_page M txt /\ PageScore._score_page M txt <= 1)
  /\ (strip txt <> [] -> (5 # 100) <= PageScore.cite_ratio txt -> (45 # 100) <= PageScore._score_page M txt).
Proof.
  unfold PageScore._score_page.
  destruct (PageScoreFacts.ratio_range PageScore._is_cite_line (ExtractToc.stripped_lines txt)) as [Hr0 Hr1].
  fold (PageScore.cite_ratio txt) in Hr0, Hr1.
  assert (Hdiv : 0 <= PageScore.cite_ratio txt / PageScore.CITE_RATIO_THR).
  { apply Qle_shift_div_l; [reflexivity|]. rewrite Qmult_0_l. assumption. }
  destruct (PageScoreFacts.pymin_range Hdiv) as [Hm0 Hm1].
  set (mn := PageScore.pymin (PageScore.cite_ratio txt / PageScore.CITE_RATIO_THR) 1) in *.
  set (hb := if Re.found (FindBibliography._RE_TERMS M) (PageScore.header_of txt)
                && Qle_bool PageScore.HDR_CAPS_MIN (PageScore.caps txt) then 1 else 60 # 100).
  assert (Hhb : (60 # 100) <= hb /\ hb <= 1).
  { unfold hb. destruct (_ && _); split; try discriminate; apply Qle_refl. }
  destruct Hhb as [Hb0 Hb1]. clearbody hb mn.
  assert (Hs : (36 # 100) <= PageScore.HDR_W * hb + PageScore.CITE_W * mn /\ PageScore.HDR_W * hb + PageScore.CITE_W * mn <= 1).
  { unfold PageScore.HDR_W, PageScore.CITE_W. split; lra. }
  split; [|split].
  - intros H. rewrite H. simpl. reflexivity.
  - intros H. apply nonempty_true in H. rewrite H. cbn [negb].
    destruct (Qle_bool (5 # 100) (PageScore.cite_ratio txt)); [|exact Hs].
    unfold PageScore.pymax, PageScore.MIN_SCORE_ABS.
    destruct (Qle_bool _ _) eqn:E; [exact Hs|].
    split; [discriminate|]. discriminate.
  - intros H Hc. apply nonempty_true in H. rewrite H. cbn [negb].
    apply Qle_bool_iff in Hc. rewrite Hc. clear Hc.
    unfold PageScore.pymax, PageScore.MIN_SCORE_ABS.
    destruct (Qle_bool (45 # 100) (PageScore.HDR_W * hb + PageScore.CITE_W * mn)) eqn:E;
      [apply Qle_bool_iff in E; exact E|apply Qle_refl].
Qed.

(** ** Samples whose pages all score the same *)

Module Uniform.

Import FindBibliography.

Lemma insertQ_In (x y : Q) (l : list Q) : In y (insertQ x l) <-> y = x \/ In y l.
Proof.
  induction l as [|z l IH]; simpl.
  - intuition.
  - destruct (Qle_bool x z); simpl; [intuition|]. rewrite IH. intuition.
Qed.

Lemma sortedQ_In (y : Q) (l : list Q) : In y (sortedQ l) <-> In y l.
Proof.
  induction l as [|x l IH]; simpl; [reflexivity|].
  rewrite insertQ_In, IH. intuition.
Qed.

Lemma insertQ_length (x : Q) (l : list Q) : length (insertQ x l) = S (length l).
Proof.
  induction l as [|z l IH]; simpl; [reflexivity|].
  destruct (Qle_bool x z); simpl; [reflexivity|]. rewrite IH. reflexivity.
Qed.

Lemma sortedQ_length (l : list Q) : length (sortedQ l) = length l.
Proof.
  induction l as [|x l IH]; simpl; [reflexivity|].
  rewrite insertQ_length, IH. reflexivity.
Qed.

(** The median of values that all equal [c] is [c]. *)
Lemma median_uniform (l : list Q) (c : Q) :
  l <> [] -> (forall x, In x l -> x == c) ->
  exists med, median l = Ok med /\ med == c.
Proof.
  intros Hne Hall. unfold median. destruct l as [|x0 l0] eqn:El; [congruence|].
  rewrite <- El in *. clear El x0 l0.
  assert (Hn : (0 < length (sortedQ l))%nat).
  { rewrite sortedQ_length. destruct l; [congruence|simpl; lia]. }
  assert (Hnth : forall i, (i < length (sortedQ l))%nat -> nth i (sortedQ l) 0 == c).
  { intros i Hi. apply Hall. apply sortedQ_In. apply nth_In. assumption. }
  set (n := length (sortedQ l)) in *.
  assert (Hhalf : (n / 2 < n)%nat) by (apply Nat.div_lt; lia).
  destruct (Nat.odd n).
  - eexists. split; [reflexivity|]. apply Hnth. assumption.
  - eexists. split; [reflexivity|].
    rewrite (Hnth (n / 2 - 1)%nat) by lia. rewrite (Hnth (n / 2)%nat) by assumption.
    field.
Qed.

Section Scorer.

Variable _score_page : str -> Q.
Variable oracle : option (str -> result bool).

Lemma refine_off gpt_only pages scores : refine oracle false gpt_only pages scores = scores.
Proof. unfold refine. destruct oracle; reflexivity. Qed.

(** When every position reaches the threshold, the whole array is the one
    maximal run. *)
Lemma select_interval_all (scores : list Q) (threshold : Q) :
  (2 <= length scores)%nat ->
  (forall sc, In sc scores -> threshold <= sc) ->
  select_interval scores threshold = Ok (Some (O, (length scores - 1)%nat)).
Proof.
  intros Hlen Hall.
  assert (Hq : forall i, (i < length scores)%nat -> Spec.qualifies scores threshold i = true).
  { intros i Hi. unfold Spec.qualifies.
    destruct (nth_error scores i) as [sc|] eqn:E.
    - apply Qle_bool_iff. apply Hall. eapply nth_error_In; eassumption.
    - apply nth_error_None in E. lia. }
  assert (Hwhole : Spec.is_maximal_run scores threshold 0 (length scores - 1) = true).
  { apply Interval.maximal_run_iff. repeat split; try lia.
    - intros j Hj. apply Hq. lia.
    - unfold Spec.qualifies.
      replace (S (length scores - 1)) with (length scores) by lia.
      assert (E : nth_error scores (length scores) = None) by (apply nth_error_None; lia).
      rewrite E. reflexivity. }
  destruct (Interval.best_interval_spec scores threshold) as (best & E & Hbest).
  unfold select_interval. rewrite E. cbn [bind].
  destruct best as [[a b]|]; [|exfalso; eapply Hbest; exact Hwhole].
  destruct Hbest as [Hrun _].
  pose proof (Interval.maximal_run_bounds Hrun) as Hb.
  apply Interval.maximal_run_iff in Hrun. destruct Hrun as (_ & _ & Hl & Hr).
  assert (a = O).
  { destruct Hl as [?|Hl]; [assumption|]. rewrite Hq in Hl by lia. discriminate. }
  assert (b = (length scores - 1)%nat).
  { destruct (Nat.eq_dec (S b) (length scores)); [lia|].
    rewrite Hq in Hr by lia. discriminate. }
  subst a b. unfold MIN_BLOCK_LEN.
  destruct (Nat.leb_spec 2 (length scores - 1 - 0 + 1)); [reflexivity|lia].
Qed.

Lemma abs_pages_all (pages : list (nat * str)) :
  map (fun i => (Z.of_nat (fst (nth i pages (O, []))) + 1)%Z) (seq 0 (length pages))
  = map (fun p => (Z.of_nat (fst p) + 1)%Z) pages.
Proof.
  rewrite <- (map_map (fun i => nth i pages (O, [])) (fun p => (Z.of_nat (fst p) + 1)%Z)).
  f_equal. apply nth_ext with (d := (O, [])) (d' := (O, [])).
  - rewrite length_map, length_seq. reflexivity.
  - intros i Hi. rewrite length_map, length_seq in Hi.
    rewrite (nth_indep _ _ (nth 0 pages (O, []))) by (rewrite length_map, length_seq; lia).
    rewrite map_nth with (d := O). rewrite seq_nth by lia. reflexivity.
Qed.

Lemma minZ_attained (l : list Z) (d : Z) :
  (minZ l d = d \/ In (minZ l d) l) /\ (minZ l d <= d)%Z /\ Forall (fun x => minZ l d <= x)%Z l.
Proof.
  induction l as [|x l IH]; simpl.
  - split; [left; reflexivity|split; [lia|constructor]].
  - destruct IH as (Hin & Hd & Hall). split; [|split].
    + destruct (Z.min_spec x (minZ l d)) as [[_ ->]|[_ ->]]; [right; left; reflexivity|].
      destruct Hin; [left; assumption|right; right; assumption].
    + lia.
    + constructor; [lia|]. eapply Forall_impl; [|exact Hall]. simpl. lia.
Qed.

Lemma maxZ_attained (l : list Z) (d : Z) :
  (maxZ l d = d \/ In (maxZ l d) l) /\ (d <= maxZ l d)%Z /\ Forall (fun x => x <= maxZ l d)%Z l.
Proof.
  induction l as [|x l IH]; simpl.
  - split; [left; reflexivity|split; [lia|constructor]].
  - destruct IH as (Hin & Hd & Hall). split; [|split].
    + destruct (Z.max_spec x (maxZ l d)) as [[_ ->]|[_ ->]].
      * destruct Hin; [left; assumption|right; right; assumption].
      * right; left; reflexivity.
    + lia.
    + constructor; [lia|]. eapply Forall_impl; [|exact Hall]. simpl. lia.
Qed.

End Scorer.

End Uniform.

(** X2. When the sample has at least two pages, all pages score the same
    value [c], the oracle is off and [c * boost <= c], the evaluation
    answers with the whole sample: the least and the greatest page number
    of the sample. *)
Theorem uniform_scores_select_whole_sample
  (_score_page : str -> Q) (oracle : option (str -> result bool))
  (gpt_only : bool) (boost : Q) (pages : list (nat * str)) (c : Q) :
  (2 <= length pages)%nat ->
  (forall p, In p pages -> _score_page (snd p) == c) ->
  c * boost <= c ->
  exists f l,
    FindBibliography._evaluate _score_page oracle false gpt_only boost pages = Ok (Some (f, l))
    /\ (forall p, In p pages -> (f <= Z.of_nat (fst p) + 1 <= l)%Z)
    /\ (exists p, In p pages /\ f = (Z.of_nat (fst p) + 1)%Z)
    /\ (exists q, In q pages /\ l = (Z.of_nat (fst q) + 1)%Z).
Proof.
  intros Hlen Hall Hboost. unfold FindBibliography._evaluate.
  set (scores := map (fun p => _score_page (snd p)) pages).
  assert (Hsc : forall x, In x scores -> x == c).
  { intros x Hx. apply in_map_iff in Hx. destruct Hx as (p & <- & Hp). auto. }
  destruct (@Uniform.median_uniform scores c) as (med & Emed & Hmed).
  { unfold scores. destruct pages; [simpl in Hlen; lia|discriminate]. }
  { exact Hsc. }
  rewrite Emed. cbn [bind]. rewrite Uniform.refine_off.
  rewrite Uniform.select_interval_all.
  - cbn [bind]. unfold scores. rewrite length_map.
    replace (S (length pages - 1) - 0)%nat with (length pages) by lia.
    rewrite Uniform.abs_pages_all.
    destruct pages as [|p0 rest]; [simpl in Hlen; lia|].
    cbn [map]. set (abs := fun p : nat * str => (Z.of_nat (fst p) + 1)%Z).
    destruct (Uniform.minZ_attained (map abs rest) (abs p0)) as (Hmi & Hmd & Hma).
    destruct (Uniform.maxZ_attained (map abs rest) (abs p0)) as (Hxi & Hxd & Hxa).
    eexists _, _. split; [reflexivity|]. split; [|split].
    + intros p [<-|Hp]; [unfold abs in *; lia|].
      rewrite Forall_forall in Hma, Hxa.
      assert (In (abs p) (map abs rest)) by (apply in_map; assumption).
      specialize (Hma _ H). specialize (Hxa _ H). unfold abs in *. lia.
    + destruct Hmi as [E|Hin].
      * exists p0. split; [left; reflexivity|exact E].
      * apply in_map_iff in Hin. destruct Hin as (p & E & Hp).
        exists p. split; [right; assumption|]. symmetry. exact E.
    + destruct Hxi as [E|Hin].
      * exists p0. split; [left; reflexivity|exact E].
      * apply in_map_iff in Hin. destruct Hin as (p & E & Hp).
        exists p. split; [right; assumption|]. symmetry. exact E.
  - unfold scores. rewrite length_map. assumption.
  - intros sc Hin. rewrite (Hsc _ Hin). rewrite Hmed. assumption.
Qed.

Lemma uniform_scores_select_whole_sample_witness :
  exists f l,
    FindBibliography._evaluate (PageScore._score_page Samples.detector_module) None
      false false 1 [(0%nat, []); (1%nat, [])] = Ok (Some (f, l))
    /\ (forall p, In p [(0%nat, @nil char); (1%nat, [])] ->
        (f <= Z.of_nat (fst p) + 1 <= l)%Z)
    /\ (exists p, In p [(0%nat, @nil char); (1%nat, [])] /\ f = (Z.of_nat (fst p) + 1)%Z)
    /\ (exists q, In q [(0%nat, @nil char); (1%nat, [])] /\ l = (Z.of_nat (fst q) + 1)%Z).
Proof.
  apply (@uniform_scores_select_whole_sample
           (PageScore._score_page Samples.detector_module) None false 1
           [(0%nat, []); (1%nat, [])] 0).
  - simpl. lia.
  - intros p [<-|[<-|[]]]; reflexivity.
  - vm_compute. discriminate.
Defined.

(** ** The table-of-contents heuristic *)

Module Blank.

Import Notions.

(** White space is not upper case, so lower-casing leaves it alone. *)
Lemma isspace_not_upper (c : char) : isspace c = true -> isupper c = false.
Proof.
  unfold isspace, isupper, in_range. intros H.
  repeat rewrite orb_true_iff in H. repeat rewrite andb_true_iff in H.
  repeat rewrite N.leb_le in H. repeat rewrite N.eqb_eq in H.
  repeat rewrite orb_false_iff. repeat rewrite andb_false_iff.
  repeat rewrite N.leb_gt. lia.
Qed.

Lemma lower_blank (s : str) : blank s -> lower s = s.
Proof.
  induction 1 as [|c s Hc _ IH]; simpl; [reflexivity|].
  unfold tolower. rewrite (isspace_not_upper Hc). rewrite IH. reflexivity.
Qed.

Lemma find_blank (k s : str) (c0 : char) (r : str) :
  k = c0 :: r -> isspace c0 = false -> blank s -> find k s = None.
Proof.
  intros -> Hc0. induction 1 as [|c s Hc _ IH]; simpl; [reflexivity|].
  destruct (N.eqb_spec c0 c) as [->|_]; [congruence|]. simpl. rewrite IH. reflexivity.
Qed.

Lemma lstrip_blank (s : str) : blank s -> lstrip_by isspace s = [].
Proof. induction 1 as [|c s Hc _ IH]; simpl; [reflexivity|]. rewrite Hc. assumption. Qed.

Lemma strip_blank (s : str) : blank s -> strip s = [].
Proof. intros H. unfold strip, strip_by. rewrite lstrip_blank by assumption. reflexivity. Qed.

Lemma islinebreak_isspace (c : char) : islinebreak c = true -> isspace c = true.
Proof.
  unfold isspace, islinebreak, in_range. intros H.
  repeat rewrite orb_true_iff in H. repeat rewrite andb_true_iff in H.
  repeat rewrite N.leb_le in H. repeat rewrite N.eqb_eq in H.
  repeat rewrite orb_true_iff. repeat rewrite andb_true_iff.
  repeat rewrite N.leb_le. repeat rewrite N.eqb_eq. lia.
Qed.

Lemma splitlines_aux_cons (c : char) (r cur : str) :
  splitlines_aux (c :: r) cur
  = if islinebreak c then
      match r with
      | d :: r' =>
          if (c =? 13)%N && (d =? 10)%N then rev cur :: splitlines_aux r' []
          else rev cur :: splitlines_aux r []
      | [] => rev cur :: splitlines_aux r []
      end
    else splitlines_aux r (c :: cur).
Proof.
  cbn [splitlines_aux]. destruct (islinebreak c); [|reflexivity].
  destruct r as [|d r'].
  - repeat match goal with
           | |- context [match ?x with _ => _ end] => is_var x; destruct x
           end; reflexivity.
  - destruct (N.eqb_spec c 13) as [->|Hc]; [destruct (N.eqb_spec d 10) as [->|Hd]|];
      cbn [andb]; [reflexivity| |].
    + repeat match goal with
             | |- context [match ?x with _ => _ end] => is_var x; destruct x
             end; try reflexivity; congruence.
    + repeat match goal with
             | |- context [match ?x with _ => _ end] => is_var x; destruct x
             end; try reflexivity; congruence.
Qed.

Lemma splitlines_blank_fuel (n : nat) : forall s cur,
  (length s <= n)%nat -> blank s -> blank cur -> Forall blank (splitlines_aux s cur).
Proof.
  induction n as [|n IH]; intros s cur Hn Hs Hcur.
  - destruct s; [|simpl in Hn; lia]. simpl.
    destruct cur; [constructor|]. constructor; [|constructor]. apply Forall_rev. assumption.
  - destruct s as [|c s].
    + simpl. destruct cur; [constructor|]. constructor; [|constructor].
      apply Forall_rev. assumption.
    + rewrite splitlines_aux_cons. inversion Hs as [|? ? Hc Hs']; subst.
      assert (Hrev : blank (rev cur)) by (apply Forall_rev; assumption).
      simpl in Hn.
      destruct (islinebreak c).
      * destruct s as [|d s'].
        { constructor; [assumption|]. apply IH; [simpl; lia|constructor|constructor]. }
        inversion Hs'; subst.
        destruct ((c =? 13)%N && (d =? 10)%N); (constructor; [assumption|]);
          apply IH; try (simpl in *; lia); try assumption; constructor.
      * apply IH; [lia|assumption|constructor; assumption].
Qed.

Lemma splitlines_blank (s : str) : blank s -> Forall blank (splitlines s).
Proof.
  intros H. unfold splitlines. eapply splitlines_blank_fuel; [reflexivity|assumption|constructor].
Qed.

Lemma stripped_lines_blank (s : str) : blank s -> ExtractToc.stripped_lines s = [].
Proof.
  intros H. unfold ExtractToc.stripped_lines.
  pose proof (splitlines_blank H) as Hl.
  induction Hl as [|ln lns Hln _ IH]; simpl; [reflexivity|].
  rewrite (strip_blank Hln). simpl. exact IH.
Qed.

End Blank.

Module Scan.

Import ExtractToc.

Lemma keywords_start_with_a_letter :
  Forall (fun k => exists c r, k = c :: r /\ isspace c = false) BASE_KEYWORDS.
Proof. repeat constructor; eexists _, _; split; reflexivity. Qed.

(** The heuristic raises nothing but a division by zero, and only on a
    text without a non-blank line. *)
Lemma looks_like_toc_raises (text : str) (e : exn) :
  _looks_like_toc text = Raise e ->
  e = ZeroDivisionError /\ text <> [] /\ stripped_lines text = [].
Proof.
  unfold _looks_like_toc.
  destruct (nonempty text) eqn:Ene; cbn [negb]; [|discriminate].
  apply nonempty_true in Ene.
  destruct (existsb _ BASE_KEYWORDS); [discriminate|].
  destruct (3 <=? _)%nat; [discriminate|].
  destruct (stripped_lines text) eqn:El; [|discriminate].
  intros H. inversion H. repeat split; congruence.
Qed.

Lemma scan_pages_spec (texts : list str) : forall idx limit,
  (limit <= length texts)%nat ->
  match scan_pages texts idx limit with
  | Raise e => e = ZeroDivisionError
  | Ok (Some p, lines) =>
      exists i txt,
        p = (Z.of_nat (idx + i) + 1)%Z /\ (i < limit)%nat /\ nth_error texts i = Some txt
        /\ _looks_like_toc txt = Ok true /\ lines = stripped_lines txt
        /\ forall j t, (j < i)%nat -> nth_error texts j = Some t -> _looks_like_toc t = Ok false
  | Ok (None, lines) =>
      lines = []
      /\ forall j t, (j < limit)%nat -> nth_error texts j = Some t -> _looks_like_toc t = Ok false
  end.
Proof.
  induction texts as [|txt texts IH]; intros idx limit Hl.
  - simpl in Hl. assert (limit = O) by lia. subst. simpl. split; [reflexivity|]. intros; lia.
  - destruct limit as [|limit]; [simpl; split; [reflexivity|intros; lia]|].
    simpl in Hl. cbn [scan_pages].
    destruct (_looks_like_toc txt) as [[|]|e] eqn:E; cbn [bind].
    + exists O, txt. rewrite Nat.add_0_r. repeat split; try reflexivity; try lia; try assumption.
    + specialize (IH (S idx) limit ltac:(lia)).
      destruct (scan_pages texts (S idx) limit) as [[[p|] lines]|e'].
      * destruct IH as (i & t & Hp & Hi & Hn & Hlook & Hlines & Hbefore).
        exists (S i), t. repeat split; try assumption; try lia.
        intros [|j] t' Hj Hn'; simpl in Hn'; [congruence|]. eapply Hbefore; [|eassumption]. lia.
      * destruct IH as [-> Hbefore]. split; [reflexivity|].
        intros [|j] t' Hj Hn'; simpl in Hn'; [congruence|]. eapply Hbefore; [|eassumption]. lia.
      * assumption.
    + destruct (looks_like_toc_raises E) as [-> _]. reflexivity.
Qed.

End Scan.

(** X3. The one error of the ToC heuristic: [_looks_like_toc] raises
    nothing but ZeroDivisionError, and only on a non-empty text without a
    non-blank line; on every non-empty text of white space only it does
    raise it. *)
Theorem looks_like_toc_error (text : str) :
  (forall e, ExtractToc._looks_like_toc text = Raise e ->
             e = ZeroDivisionError /\ text <> [] /\ ExtractToc.stripped_lines text = [])
  /\ (text <> [] -> Forall (fun c => isspace c = true) text ->
      ExtractToc._looks_like_toc text = Raise ZeroDivisionError).
Proof.
  split.
  - intros e. apply Scan.looks_like_toc_raises.
  - intros Hne Hb. unfold ExtractToc._looks_like_toc.
    apply nonempty_true in Hne. rewrite Hne. cbn [negb].
    rewrite (Blank.lower_blank Hb).
    assert (Hk : existsb (fun k => contains k text) ExtractToc.BASE_KEYWORDS = false).
    { pose proof Scan.keywords_start_with_a_letter as Hks.
      induction Hks as [|k ks (c & r & Ek & Hc) _ IH]; simpl; [reflexivity|].
      unfold contains at 1. rewrite (Blank.find_blank Ek Hc Hb). simpl. exact IH. }
    rewrite Hk. rewrite (Blank.stripped_lines_blank Hb). reflexivity.
Qed.

(** X4. The heuristic scan of [_scan_pdf], taken when the outline gives no
    page: it looks at the first [(n + 2) // 3] pages only; it answers with
    the first of them that looks like a table of contents, together with
    the stripped non-blank lines of that page, every earlier page having
    been judged not to be one; it answers (None, []) when none of them
    does; and the only error it raises itself is ZeroDivisionError. *)
Theorem scan_pdf_heuristic (doc : document) :
  ExtractToc.truthy_int (fst (ExtractToc._outline_fallback doc)) = false ->
  let texts := plumber_texts doc in
  let limit := ((length texts + 2) / 3)%nat in
  (forall e, ExtractToc._scan_pdf doc = Raise e -> e = ZeroDivisionError)
  /\ (forall pg lines, ExtractToc._scan_pdf doc = Ok (pg, lines) ->
      match pg with
      | Some p =>
          exists i txt,
            p = (Z.of_nat i + 1)%Z /\ (i < limit)%nat /\ nth_error texts i = Some txt
            /\ ExtractToc._looks_like_toc txt = Ok true /\ lines = ExtractToc.stripped_lines txt
            /\ forall j t, (j < i)%nat -> nth_error texts j = Some t ->
                           ExtractToc._looks_like_toc t = Ok false
      | None =>
          lines = []
          /\ forall j t, (j < limit)%nat -> nth_error texts j = Some t ->
                         ExtractToc._looks_like_toc t = Ok false
      end).
Proof.
  intros Hout texts limit. unfold ExtractToc._scan_pdf.
  destruct (ExtractToc._outline_fallback doc) as [page_no toc_lines]. simpl in Hout. rewrite Hout.
  fold texts. fold limit.
  assert (Hl : (limit <= length texts)%nat).
  { unfold limit. destruct (length texts) as [|n]; [reflexivity|].
    apply Nat.Div0.div_le_upper_bound. lia. }
  pose proof (@Scan.scan_pages_spec texts O limit Hl) as H.
  destruct (ExtractToc.scan_pages texts 0 limit) as [[[p|] lines]|e].
  - split; [discriminate|]. intros pg lines' E. inversion E; subst. exact H.
  - split; [discriminate|]. intros pg lines' E. inversion E; subst. exact H.
  - split; [|discriminate]. intros e' E. inversion E; subst. reflexivity.
Qed.

Lemma scan_pdf_heuristic_witness :
  ExtractToc.truthy_int (fst (ExtractToc._outline_fallback Samples.toc_document)) = false
  /\ forall e, ExtractToc._scan_pdf Samples.toc_document = Raise e -> e = ZeroDivisionError.
Proof.
  split; [reflexivity|].
  exact (proj1 (scan_pdf_heuristic (doc := Samples.toc_document) eq_refl)).
Defined.


(** ** The keyword stage *)

Module KeywordRuns.

Import FindBibliography Notions.

Lemma hits_from_sorted (M : KeywordHits.module) (texts : list str) : forall i,
  StronglySorted Z.lt (KeywordHits.hits_from M texts i).
Proof.
  induction texts as [|t texts IH]; intros i; simpl; [constructor|].
  destruct (KeywordHits.check_page M t); [|apply IH].
  constructor; [apply IH|].
  apply Forall_forall. intros p Hp. apply Bounds.hits_from_range in Hp. lia.
Qed.

Lemma hits_from_iff (M : KeywordHits.module) (texts : list str) : forall i p,
  In p (KeywordHits.hits_from M texts i)
  <-> exists j txt, p = (Z.of_nat (i + j) + 1)%Z /\ nth_error texts j = Some txt
                    /\ KeywordHits.check_page M txt = true.
Proof.
  induction texts as [|t texts IH]; intros i p; simpl.
  - split; [contradiction|]. intros (j & txt & _ & H & _). destruct j; discriminate.
  - assert (Hrec : In p (KeywordHits.hits_from M texts (S i))
                   <-> exists j txt, p = (Z.of_nat (i + S j) + 1)%Z
                                     /\ nth_error texts j = Some txt
                                     /\ KeywordHits.check_page M txt = true).
    { rewrite IH. split; intros (j & txt & Hp & H); exists j, txt; (split; [|assumption]); lia. }
    destruct (KeywordHits.check_page M t) eqn:E.
    + simpl. rewrite Hrec. split.
      * intros [<-|(j & txt & H)].
        -- exists O, t. rewrite Nat.add_0_r. auto.
        -- exists (S j), txt. assumption.
      * intros ([|j] & txt & Hp & Hn & Hc).
        -- left. rewrite Nat.add_0_r in Hp. congruence.
        -- right. exists j, txt. auto.
    + rewrite Hrec. split.
      * intros (j & txt & H). exists (S j), txt. assumption.
      * intros ([|j] & txt & Hp & Hn & Hc).
        -- simpl in Hn. congruence.
        -- exists j, txt. auto.
Qed.

Lemma analyse_pdf_is_hit (M : KeywordHits.module) (doc : document) (p : Z) :
  In p (KeywordHits.analyse_pdf M doc) <-> is_hit M doc p = true.
Proof.
  unfold KeywordHits.analyse_pdf, is_hit. rewrite hits_from_iff. split.
  - intros (j & txt & -> & Hn & Hc). simpl.
    replace (Z.to_nat (Z.of_nat j + 1 - 1)) with j by lia. rewrite Hn.
    rewrite Hc. destruct (Z.leb_spec 1 (Z.of_nat j + 1)); [reflexivity|lia].
  - intros H. apply andb_true_iff in H. destruct H as [H1 H2]. apply Z.leb_le in H1.
    destruct (nth_error _ _) as [txt|] eqn:E; [|discriminate].
    exists (Z.to_nat (p - 1)), txt. simpl. repeat split; try assumption. lia.
Qed.


(** *** Ranges of consecutive numbers *)

Lemma zrange_cons (a : Z) (n : nat) : zrange a (S n) = a :: zrange (a + 1) n.
Proof.
  unfold zrange. cbn [seq map]. f_equal; [lia|].
  rewrite <- seq_shift, map_map. apply map_ext. intros i. lia.
Qed.

Lemma zrange_snoc (a : Z) (n : nat) : zrange a (S n) = zrange a n ++ [(a + Z.of_nat n)%Z].
Proof. unfold zrange. rewrite seq_S, map_app. reflexivity. Qed.

Lemma zrange_hd (a : Z) (n : nat) : hd 0%Z (zrange a (S n)) = a.
Proof. rewrite zrange_cons. reflexivity. Qed.

Lemma zrange_last (a : Z) (n : nat) : last (zrange a (S n)) 0%Z = (a + Z.of_nat n)%Z.
Proof. rewrite zrange_snoc. apply last_last. Qed.

Lemma zrange_length (a : Z) (n : nat) : length (zrange a n) = n.
Proof. unfold zrange. rewrite length_map, length_seq. reflexivity. Qed.

Lemma zrange_In (a : Z) (n : nat) (x : Z) :
  In x (zrange a n) <-> (a <= x < a + Z.of_nat n)%Z.
Proof.
  unfold zrange. rewrite in_map_iff. split.
  - intros (i & <- & Hi). apply in_seq in Hi. lia.
  - intros H. exists (Z.to_nat (x - a)). split; [lia|]. apply in_seq. lia.
Qed.

Lemma FOP_app (A : Type) (R : A -> A -> Prop) (l1 l2 : list A) :
  ForallOrdPairs R (l1 ++ l2)
  <-> ForallOrdPairs R l1 /\ ForallOrdPairs R l2
      /\ forall x y, In x l1 -> In y l2 -> R x y.
Proof.
  induction l1 as [|a l1 IH]; simpl.
  - split; [intros H; repeat split; [constructor|assumption|contradiction]|tauto].
  - split.
    + intros H. inversion H as [|? ? Ha Hr]; subst. apply IH in Hr.
      destruct Hr as (H1 & H2 & H12). rewrite Forall_app in Ha. destruct Ha as [Ha1 Ha2].
      repeat split; [constructor; assumption|assumption|].
      intros x y [<-|Hx] Hy; [|auto]. rewrite Forall_forall in Ha2. auto.
    + intros (H1 & H2 & H12). inversion H1 as [|? ? Ha Hr]; subst.
      constructor.
      * apply Forall_app. split; [assumption|]. apply Forall_forall. intros y Hy.
        apply H12; [left; reflexivity|assumption].
      * apply IH. repeat split; [assumption|assumption|]. intros x y Hx Hy.
        apply H12; [right; assumption|assumption].
Qed.

Lemma FOP_head (A : Type) (R : A -> A -> Prop) (a : A) (l : list A) :
  ForallOrdPairs R (a :: l) -> forall y, In y l -> R a y.
Proof. intros H. inversion H; subst. apply Forall_forall. assumption. Qed.

Lemma sortZ_sorted (l : list Z) : StronglySorted Z.lt l -> sortZ l = l.
Proof.
  induction 1 as [|x l Hs IH Hx]; simpl; [reflexivity|].
  rewrite IH. destruct l as [|y l']; [reflexivity|]. simpl.
  inversion Hx; subst. destruct (Z.leb_spec x y); [reflexivity|lia].
Qed.

(** *** The run-cutting loop *)

Lemma runs_loop_ok (ps : list Z) : forall runs cur,
  StronglySorted Z.lt ps -> (forall x, In x ps -> (last cur 0 < x)%Z) ->
  runs_ok (runs ++ [cur]) ->
  exists runs' cur',
    fold_left runs_step ps (runs, cur) = (runs', cur')
    /\ runs_ok (runs' ++ [cur'])
    /\ concat (runs' ++ [cur']) = concat (runs ++ [cur]) ++ ps.
Proof.
  induction ps as [|p ps IH]; intros runs cur Hs Hlast Hok.
  - exists runs, cur. rewrite app_nil_r. auto.
  - inversion Hs as [|? ? Hs' Hp]; subst. rewrite Forall_forall in Hp.
    destruct Hok as [Hall Hord]. apply Forall_app in Hall. destruct Hall as [Hruns Hcur].
    inversion Hcur as [|? ? (a & n & Ecur) _]; subst.
    apply FOP_app in Hord. destruct Hord as (Hord1 & _ & Hord12).
    assert (Hlp : (last (zrange a (S n)) 0 < p)%Z) by (apply Hlast; left; reflexivity).
    cbn [fold_left]. unfold runs_step at 2.
    destruct (Z.eqb_spec p (last (zrange a (S n)) 0 + 1)%Z) as [E|E].
    + assert (Ecur' : zrange a (S n) ++ [p] = zrange a (S (S n))).
      { rewrite (zrange_snoc a (S n)). rewrite E, zrange_last. do 2 f_equal. lia. }
      destruct (IH runs (zrange a (S n) ++ [p])) as (runs' & cur' & Ef & Hok' & Hc).
      * assumption.
      * intros x Hx. rewrite last_last. apply Hp. assumption.
      * rewrite Ecur'. split.
        -- apply Forall_app. split; [assumption|]. constructor; [|constructor]. eauto.
        -- apply FOP_app. repeat split; [assumption|repeat constructor|].
           intros x y Hx [<-|[]]. rewrite zrange_hd.
           rewrite <- (zrange_hd a n). apply Hord12; [assumption|left; reflexivity].
      * exists runs', cur'. split; [assumption|split; [assumption|]].
        rewrite Hc. change (p :: ps) with ([p] ++ ps).
        rewrite !concat_app. cbn [concat]. rewrite !app_nil_r, <- !app_assoc. reflexivity.
    + destruct (IH (runs ++ [zrange a (S n)]) [p]) as (runs' & cur' & Ef & Hok' & Hc).
      * assumption.
      * intros x Hx. simpl. apply Hp. assumption.
      * split.
        -- apply Forall_app. split; [apply Forall_app; split; assumption|].
           constructor; [|constructor]. exists p, O. unfold zrange. simpl. f_equal. lia.
        -- apply FOP_app. repeat split; [|repeat constructor|].
           ++ apply FOP_app. repeat split; [assumption|repeat constructor|assumption].
           ++ intros x y Hx [<-|[]]. simpl. apply in_app_or in Hx. destruct Hx as [Hx|[<-|[]]].
              ** specialize (Hord12 x _ Hx (or_introl eq_refl)).
                 rewrite zrange_hd in Hord12. rewrite zrange_last in Hlp. lia.
              ** lia.
      * exists runs', cur'. split; [assumption|split; [assumption|]].
        rewrite Hc. change (p :: ps) with ([p] ++ ps).
        rewrite !concat_app. cbn [concat]. rewrite !app_nil_r, <- !app_assoc. reflexivity.
Qed.

(** *** The runs are the maximal blocks *)

Section Blocks.

Variable L : list Z.
Variable segs : list (list Z).
Hypothesis Hok : runs_ok segs.
Hypothesis Hcat : concat segs = L.

Abbreviation block := (maximal_block (fun p => In p L)).

Lemma seg_elements (r : list Z) (x : Z) : In r segs -> In x r -> In x L.
Proof using Hok Hcat. intros Hr Hx. rewrite <- Hcat. apply in_concat. eauto. Qed.

(** Two runs of the list with a common or adjacent element are the same run. *)
Lemma seg_apart (r r' : list Z) (a a' : Z) (n n' : nat) :
  In r segs -> In r' segs -> r = zrange a (S n) -> r' = zrange a' (S n') ->
  (a' - 1 <= a + Z.of_nat n)%Z -> (a - 1 <= a' + Z.of_nat n')%Z -> r = r'.
Proof using Hok Hcat.
  intros Hr Hr' Er Er' H1 H2. subst r r'.
  destruct Hok as [_ Hord].
  destruct (in_split _ _ Hr) as (l1 & l2 & Es). rewrite Es in Hr', Hord.
  apply FOP_app in Hord. destruct Hord as (_ & Hord2 & Hord12).
  pose proof (FOP_head Hord2) as Hafter.
  apply in_app_or in Hr'. destruct Hr' as [Hin|[E|Hin]].
  - specialize (Hord12 _ _ Hin (or_introl eq_refl)).
    rewrite zrange_hd, zrange_last in Hord12. lia.
  - assumption.
  - specialize (Hafter _ Hin). cbv beta in Hafter.
    rewrite zrange_hd, zrange_last in Hafter. lia.
Qed.

Lemma seg_is_block (r : list Z) : In r segs -> block (hd 0%Z r) (last r 0%Z).
Proof using Hok Hcat.
  intros Hr. destruct Hok as [Hall _]. rewrite Forall_forall in Hall.
  destruct (Hall _ Hr) as (a & n & Er). rewrite Er, zrange_hd, zrange_last.
  assert (Hout : forall x, In x L -> (a - 1 <= x <= a + Z.of_nat n + 1)%Z ->
                           (a <= x <= a + Z.of_nat n)%Z).
  { intros x Hx Hrange. rewrite <- Hcat in Hx. apply in_concat in Hx.
    destruct Hx as (r' & Hr' & Hx). destruct (Hall _ Hr') as (a' & n' & Er').
    rewrite Er' in Hx. apply zrange_In in Hx.
    assert (E : r = r') by (eapply seg_apart; eauto; lia).
    rewrite Er, Er' in E. pose proof (f_equal (hd 0%Z) E) as Eh.
    pose proof (f_equal (@length Z) E) as El.
    rewrite !zrange_hd in Eh. rewrite !zrange_length in El. lia. }
  repeat split.
  - lia.
  - intros p Hp. apply (@seg_elements r); [assumption|]. rewrite Er. apply zrange_In. lia.
  - intros H. apply Hout in H; lia.
  - intros H. apply Hout in H; lia.
Qed.

Lemma block_is_seg (f l : Z) :
  block f l -> exists r, In r segs /\ f = hd 0%Z r /\ l = last r 0%Z.
Proof using Hok Hcat.
  intros (Hfl & Hin & Hlo & Hhi).
  assert (Hf : In f L) by (apply Hin; lia).
  rewrite <- Hcat in Hf. apply in_concat in Hf. destruct Hf as (r & Hr & Hf).
  destruct Hok as [Hall _]. rewrite Forall_forall in Hall.
  destruct (Hall _ Hr) as (a & n & Er).
  destruct (seg_is_block Hr) as (_ & Hrin & Hrlo & Hrhi).
  rewrite Er, zrange_hd, zrange_last in *. apply zrange_In in Hf.
  exists (zrange a (S n)). rewrite zrange_hd, zrange_last.
  assert (f = a).
  { destruct (Z.eq_dec f a); [assumption|]. exfalso. apply Hlo. apply Hrin. lia. }
  subst f. split; [assumption|]. split; [reflexivity|].
  destruct (Z.lt_trichotomy l (a + Z.of_nat n)) as [Hlt|[E|Hgt]]; [|assumption|].
  - exfalso. apply Hhi. apply Hrin. lia.
  - exfalso. apply Hrhi. apply Hin. lia.
Qed.

End Blocks.

(** *** The longest run *)

Lemma longest_spec (rs : list (list Z)) : forall pre best mid,
  Forall (fun r => (length r < length best)%nat) pre ->
  Forall (fun r => (length r <= length best)%nat) mid ->
  exists l1 l2,
    pre ++ best :: mid ++ rs = l1 ++ longest best rs :: l2
    /\ Forall (fun r => (length r < length (longest best rs))%nat) l1
    /\ Forall (fun r => (length r <= length (longest best rs))%nat) l2.
Proof.
  induction rs as [|r rs IH]; intros pre best mid Hpre Hmid; simpl.
  - exists pre, mid. rewrite app_nil_r. auto.
  - destruct (Nat.ltb_spec (length best) (length r)) as [Hlt|Hge].
    + destruct (IH (pre ++ best :: mid) r []) as (l1 & l2 & E & H1 & H2).
      * apply Forall_app. split; [|constructor; [assumption|]].
        -- eapply Forall_impl; [|exact Hpre]. simpl. lia.
        -- eapply Forall_impl; [|exact Hmid]. simpl. lia.
      * constructor.
      * exists l1, l2. repeat split; try assumption.
        rewrite <- E. simpl. rewrite <- !app_assoc. reflexivity.
    + destruct (IH pre best (mid ++ [r])) as (l1 & l2 & E & H1 & H2).
      * assumption.
      * apply Forall_app. split; [assumption|]. constructor; [assumption|constructor].
      * exists l1, l2. repeat split; try assumption.
        rewrite <- E. rewrite <- !app_assoc. reflexivity.
Qed.

Lemma keyword_block_sorted (L : list Z) (k : Z) :
  StronglySorted Z.lt L ->
  forall f l,
    keyword_block L k = Some (f, l)
    <-> maximal_block (fun p => In p L) f l
        /\ (k <= l - f + 1)%Z
        /\ forall f' l', maximal_block (fun p => In p L) f' l' -> block_preferred f l f' l'.
Proof.
  intros Hs f l. unfold keyword_block. rewrite (sortZ_sorted Hs).
  destruct L as [|p0 ps].
  { split; [discriminate|]. intros ((Hfl & Hin & _) & _). exfalso. apply (Hin f). lia. }
  inversion Hs as [|? ? Hs' Hp]; subst. rewrite Forall_forall in Hp.
  destruct (@runs_loop_ok ps [] [p0] Hs') as (runs & cur & Ef & Hok & Hcat).
  { intros x Hx. simpl. auto. }
  { split; [repeat constructor; exists p0, O; unfold zrange; simpl; f_equal; lia
           |repeat constructor]. }
  rewrite Ef. simpl in Hcat.
  destruct (runs ++ [cur]) as [|r rs] eqn:Esegs; [destruct runs; discriminate|].
  destruct (@longest_spec rs [] r []) as (l1 & l2 & Edec & H1 & H2); [constructor|constructor|].
  simpl in Edec. set (b := longest r rs) in *.
  assert (Hb : In b (r :: rs)) by (rewrite Edec; apply in_elt).
  pose proof (seg_is_block Hok Hcat Hb) as Hblock.
  destruct Hok as [Hall Hord]. pose proof Hall as Hall'. rewrite Forall_forall in Hall'.
  destruct (Hall' _ Hb) as (ab & nb & Eb).
  assert (Hlen : forall r' a' n', r' = zrange a' (S n') ->
                   (last r' 0 - hd 0 r' = Z.of_nat (length r') - 1)%Z).
  { intros r' a' n' ->. rewrite zrange_hd, zrange_last, zrange_length. lia. }
  assert (Hpref : forall r', In r' (r :: rs) ->
             block_preferred (hd 0%Z b) (last b 0%Z) (hd 0%Z r') (last r' 0%Z)
             /\ (block_preferred (hd 0%Z r') (last r' 0%Z) (hd 0%Z b) (last b 0%Z) -> r' = b)).
  { intros r' Hr'. destruct (Hall' _ Hr') as (a' & n' & Er').
    pose proof (Hlen _ _ _ Er') as Hl'. pose proof (Hlen _ _ _ Eb) as Hlb.
    rewrite Edec in Hr', Hord. apply FOP_app in Hord. destruct Hord as (_ & Hord2 & _).
    pose proof (FOP_head Hord2) as Hafter.
    rewrite Forall_forall in H1, H2. unfold block_preferred.
    apply in_app_or in Hr'. destruct Hr' as [Hin|[E|Hin]].
    - specialize (H1 _ Hin). split; [lia|]. lia.
    - subst r'. split; [lia|reflexivity].
    - specialize (H2 _ Hin). specialize (Hafter _ Hin). cbv beta in Hafter.
      fold b in Hafter. rewrite Eb in Hafter, Hlb. rewrite Er' in Hafter.
      rewrite !zrange_hd, !zrange_last in *. rewrite Er', Eb in *.
      rewrite !zrange_hd, !zrange_last in *. rewrite !zrange_length in *.
      split; [lia|]. intros; lia. }
  pose proof (Hlen _ _ _ Eb) as Hlb.
  assert (Hok : runs_ok (r :: rs)) by (split; assumption).
  split.
  - destruct (Z.leb_spec k (Z.of_nat (length b))) as [Hk|Hk]; [|discriminate].
    intros H. inversion H; subst. split; [assumption|]. split; [lia|].
    intros f' l' Hbl. destruct (block_is_seg Hok Hcat Hbl) as (r' & Hr' & -> & ->).
    apply Hpref. assumption.
  - intros (Hbl & Hk & Hbest).
    destruct (block_is_seg Hok Hcat Hbl) as (r' & Hr' & -> & ->).
    assert (r' = b).
    { apply Hpref; [assumption|]. apply Hbest. assumption. }
    subst r'. destruct (Z.leb_spec k (Z.of_nat (length b))); [reflexivity|lia].
Qed.


Lemma maximal_block_ext (hit hit' : Z -> Prop) (f l : Z) :
  (forall p, hit p <-> hit' p) -> maximal_block hit f l -> maximal_block hit' f l.
Proof.
  intros H (H1 & H2 & H3 & H4). repeat split.
  - assumption.
  - intros p Hp. apply H. auto.
  - intros Hc. apply H3. apply H. assumption.
  - intros Hc. apply H4. apply H. assumption.
Qed.

End KeywordRuns.

(** X5. The pages that [analyse_pdf] reports are exactly the pages of the
    document whose text holds a catalog term, as 1-based numbers in
    strictly increasing order; each lies between 1 and the page count. *)
Theorem analyse_pdf_lists_the_hit_pages (M : KeywordHits.module) (doc : document) :
  StronglySorted Z.lt (KeywordHits.analyse_pdf M doc)
  /\ (forall p, In p (KeywordHits.analyse_pdf M doc) <-> Notions.is_hit M doc p = true)
  /\ (forall p, In p (KeywordHits.analyse_pdf M doc) -> (1 <= p <= page_count doc)%Z).
Proof.
  split; [apply KeywordRuns.hits_from_sorted|]. split.
  - intros p. apply KeywordRuns.analyse_pdf_is_hit.
  - intros p Hp. unfold KeywordHits.analyse_pdf in Hp.
    apply Bounds.hits_from_range in Hp. unfold page_count. lia.
Qed.

(** X6. The keyword stage answers (f, l) exactly when pages f..l are a
    maximal run of consecutive pages that hold a catalog term, the run has
    at least [kw_min_block] pages, and no other maximal run is longer, or
    as long and earlier. *)
Theorem keyword_stage_characterised
  (M : KeywordHits.module) (doc : document) (kw_min_block f l : Z) :
  FindBibliography.keyword_block (KeywordHits.analyse_pdf M doc) kw_min_block = Some (f, l)
  <-> Notions.maximal_block (fun p => Notions.is_hit M doc p = true) f l
      /\ (kw_min_block <= l - f + 1)%Z
      /\ forall f' l', Notions.maximal_block (fun p => Notions.is_hit M doc p = true) f' l' ->
                       Notions.block_preferred f l f' l'.
Proof.
  assert (Hs : StronglySorted Z.lt (KeywordHits.analyse_pdf M doc))
    by apply KeywordRuns.hits_from_sorted.
  rewrite (KeywordRuns.keyword_block_sorted kw_min_block Hs).
  assert (Hto : forall a b, Notions.maximal_block (fun p => In p (KeywordHits.analyse_pdf M doc)) a b
                            -> Notions.maximal_block (fun p => Notions.is_hit M doc p = true) a b).
  { intros a b. apply KeywordRuns.maximal_block_ext. intros p. apply KeywordRuns.analyse_pdf_is_hit. }
  assert (Hfrom : forall a b, Notions.maximal_block (fun p => Notions.is_hit M doc p = true) a b
                   -> Notions.maximal_block (fun p => In p (KeywordHits.analyse_pdf M doc)) a b).
  { intros a b. apply KeywordRuns.maximal_block_ext. intros p. symmetry.
    apply KeywordRuns.analyse_pdf_is_hit. }
  split; intros (H1 & H2 & H3).
  - split; [apply Hto; assumption|]. split; [assumption|].
    intros f' l' Hb. apply H3. apply Hfrom. assumption.
  - split; [apply Hfrom; assumption|]. split; [assumption|].
    intros f' l' Hb. apply H3. apply Hto. assumption.
Qed.

(** ** The term catalog *)

Module Catalog.

Import FindBibliography.

Lemma as_set_In (x : str) (l : list str) : In x (as_set l) <-> In x l.
Proof.
  induction l as [|y l IH]; simpl; [reflexivity|].
  destruct (RefParser.in_set y l) eqn:E.
  - rewrite IH. split; [auto|]. intros [<-|H]; [|assumption].
    unfold RefParser.in_set in E. apply existsb_exists in E.
    destruct E as (z & Hz & Ez). apply str_eqb_eq in Ez. subst. assumption.
  - simpl. rewrite IH. reflexivity.
Qed.

Lemma index_of_In (x : str) (l : list str) (i : nat) :
  KeywordHits.index_of x l = Some i -> In x l.
Proof.
  revert i. induction l as [|y l IH]; intros i; simpl; [discriminate|].
  destruct (str_eqb x y) eqn:E.
  - intros _. left. symmetry. apply str_eqb_eq. assumption.
  - destruct (KeywordHits.index_of x l); [|discriminate]. intros _. right. eapply IH. reflexivity.
Qed.

Lemma dict_terms_header (rows : csv) :
  KeywordHits.dict_terms rows <> [] ->
  exists header body, rows = header :: body /\ In (py "term") header.
Proof.
  unfold KeywordHits.dict_terms. destruct rows as [|header body]; [congruence|].
  destruct (KeywordHits.index_of (py "term") (rev header)) as [k|] eqn:E; simpl; [|congruence].
  intros _. exists header, body. split; [reflexivity|].
  apply in_rev. eapply index_of_In. eassumption.
Qed.

End Catalog.

(** X7. Whenever the module loads with a catalog file, the column header
    [term] is itself one of [BIB_TERMS]: the term set is read with
    [csv.reader], which does not skip the header row that [csv.DictReader]
    needs. *)
Theorem header_word_is_a_bib_term (file : option csv) (M : FindBibliography.module) :
  FindBibliography.load file = Ok M ->
  In (py "term") (FindBibliography.BIB_TERMS M).
Proof.
  unfold FindBibliography.load, KeywordHits.load.
  destruct file as [rows|]; [|discriminate].
  destruct (KeywordHits.dict_terms rows) as [|t ts] eqn:E; [discriminate|].
  cbn [bind]. intros H. inversion H; subst; clear H. cbn [FindBibliography.BIB_TERMS].
  destruct (@Catalog.dict_terms_header rows) as (header & body & -> & Hin); [congruence|].
  unfold FindBibliography.bind_BIB_TERMS, FindBibliography.csv_terms.
  apply Catalog.as_set_In. apply in_flat_map. exists header. split; [left; reflexivity|].
  apply in_flat_map. exists (py "term"). split; [assumption|]. left. reflexivity.
Qed.

Lemma header_word_is_a_bib_term_witness :
  FindBibliography.load (Some Samples.catalog) = Ok Samples.detector_module
  /\ In (py "term") (FindBibliography.BIB_TERMS Samples.detector_module).
Proof.
  split; [exact Runs.catalog_loads|].
  exact (header_word_is_a_bib_term Runs.catalog_loads).
Defined.

Module BlankTerm.

Import KeywordHits.

Lemma alternatives_with_empty (ts : list str) :
  In [] ts ->
  forall ic k z cs, k z cs <> None -> Re.m ic (alternatives ts) k z cs <> None.
Proof.
  induction ts as [|t ts IH]; intros Hin ic k z cs Hk; [contradiction|].
  destruct ts as [|t' ts'].
  - destruct Hin as [->|[]]. exact Hk.
  - change (alternatives (t :: t' :: ts'))
      with (Re.Alt (literal t) (alternatives (t' :: ts'))).
    cbn [Re.m]. unfold Re.orelse.
    destruct (Re.m ic (literal t) k z cs) eqn:E; [discriminate|].
    destruct Hin as [->|Hin].
    + simpl in E. congruence.
    + apply IH; assumption.
Qed.

Lemma term_re_at (ts : list str) (z : Re.cur) :
  In [] ts ->
  Re.match_at (term_re ts) z = None <-> Re.at_word_boundary z = false.
Proof.
  intros Hin. unfold Re.match_at, term_re. cbn [Re.ast Re.icase Re.m].
  destruct (Re.at_word_boundary z) eqn:B.
  - split; [|discriminate]. intros H. exfalso.
    destruct (Re.m true (alternatives ts) _ z []) eqn:E; [discriminate|].
    revert E. apply alternatives_with_empty; [assumption|]. rewrite B. discriminate.
  - split; reflexivity.
Qed.

Lemma scan_term_re (ts : list str) (a : str) : forall b p,
  In [] ts ->
  match b with c :: _ => isword c = false | [] => True end ->
  Re.scan (term_re ts) b a p = None <-> existsb isword a = false.
Proof.
  induction a as [|c a IH]; intros b p Hin Hb; cbn [Re.scan].
  - assert (B : Re.at_word_boundary {| Re.before := b; Re.after := []; Re.pos := p |} = false).
    { unfold Re.at_word_boundary, Re.word_before, Re.word_after. simpl.
      destruct b; [reflexivity|]. rewrite Hb. reflexivity. }
    apply (term_re_at _ Hin) in B. rewrite B. split; reflexivity.
  - assert (B : Re.at_word_boundary {| Re.before := b; Re.after := c :: a; Re.pos := p |}
                = isword c).
    { unfold Re.at_word_boundary, Re.word_before, Re.word_after. simpl.
      destruct b; [reflexivity|]. rewrite Hb. reflexivity. }
    cbn [existsb]. destruct (isword c) eqn:W.
    + destruct (Re.match_at (term_re ts) _) eqn:E.
      * split; discriminate.
      * apply (term_re_at _ Hin) in E. congruence.
    + apply (term_re_at _ Hin) in B. rewrite B. cbn [orb]. apply IH; assumption.
Qed.

End BlankTerm.


(** X8. A catalog row whose term cell holds white space only gives the
    empty term.  With the empty term among [TERMS], every page that holds
    an ASCII or Latin-1 word character is a keyword hit, and a page written
    with characters of U+0000..U+00FF is a keyword hit exactly when it
    holds a word character. *)
Theorem blank_term_hits_every_page_with_a_word
  (file : option csv) (M : KeywordHits.module) :
  KeywordHits.load file = Ok M ->
  In [] (KeywordHits.TERMS M) ->
  forall txt,
    (existsb isword txt = true -> KeywordHits.check_page M txt = true)
    /\ (Notions.latin1 txt = true ->
        KeywordHits.check_page M txt = existsb isword txt).
Proof.
  unfold KeywordHits.load. destruct file as [rows|]; [|discriminate].
  destruct (KeywordHits.dict_terms rows) as [|t ts] eqn:E; [discriminate|].
  intros H Hin txt. inversion H; subst; clear H. cbn [KeywordHits.TERMS] in Hin.
  assert (Heq : KeywordHits.check_page
                  {| KeywordHits.TERMS := t :: ts;
                     KeywordHits._TERM_RE := KeywordHits.term_re (t :: ts) |} txt
                = existsb isword txt).
  { unfold KeywordHits.check_page, Re.found, Re.search. cbn [KeywordHits._TERM_RE].
    pose proof (@BlankTerm.scan_term_re (t :: ts) txt [] O Hin I) as Hs.
    destruct (Re.scan _ [] txt 0) eqn:Es.
    - destruct (existsb isword txt); [reflexivity|]. exfalso.
      assert (Some m = None) by (apply Hs; reflexivity). discriminate.
    - symmetry. apply Hs. reflexivity. }
  split.
  - intros Hw. rewrite Heq. exact Hw.
  - intros _. exact Heq.
Qed.

Lemma blank_term_hits_every_page_with_a_word_witness :
  exists M,
    KeywordHits.load (Some Notions.blank_row_catalog) = Ok M
    /\ In [] (KeywordHits.TERMS M)
    /\ Notions.latin1 (py "Chapter 1") = true
    /\ KeywordHits.check_page M (py "Chapter 1") = true.
Proof.
  eexists. split; [reflexivity|]. split; [left; reflexivity|].
  split; [reflexivity|].
  rewrite (proj2 (@blank_term_hits_every_page_with_a_word
                    (Some Notions.blank_row_catalog) _ eq_refl
                    (or_introl eq_refl) (py "Chapter 1")) eq_refl).
  reflexivity.
Defined.


(** ** Errors of the reference parser *)

Module ParserErrors.

Import RefParser.

Lemma In_find (c : char) (s : str) : In c s -> find [c] s <> None.
Proof.
  induction s as [|d s IH]; intros H; [contradiction|].
  cbn [find startswith]. destruct (N.eqb_spec c d) as [->|Hne]; [discriminate|].
  cbn [andb]. destruct H as [->|H]; [congruence|].
  destruct (find [c] s); [discriminate|]. exfalso. apply IH; auto.
Qed.

Lemma mem_In (c : char) (s : str) : mem c s = true -> In c s.
Proof.
  unfold mem. intros H. apply existsb_exists in H. destruct H as (d & Hd & E).
  apply N.eqb_eq in E. subst. assumption.
Qed.

(** A pattern that begins with a literal character is found only in a text
    that holds this character. *)
Lemma scan_literal_head (rx : Re.regex) (c : char) (r : Re.re) (a : str) : forall b p mo,
  Re.ast rx = Re.Seq (Re.Lit c) r -> Re.icase rx = false ->
  Re.scan rx b a p = Some mo -> In c a.
Proof.
  induction a as [|d a IH]; intros b p mo Hast Hic; cbn [Re.scan];
    unfold Re.match_at; rewrite Hast, Hic; cbn [Re.m]; unfold Re.one; cbn [Re.after].
  - discriminate.
  - unfold Re.lit_match. destruct (N.eqb_spec d c) as [->|Hne].
    + intros _. left. reflexivity.
    + cbn [option_map]. intros H. right. eapply IH; eassumption.
Qed.

Lemma quoted_title_has_quote (s : str) :
  truthy (fst (extract_title_quoted s)) = true -> find (py "“") s <> None.
Proof.
  unfold extract_title_quoted. destruct (Re.search RE_QUOTED s) as [mo|] eqn:E; [|discriminate].
  intros _. apply In_find.
  eapply scan_literal_head with (rx := RE_QUOTED); [reflexivity|reflexivity|exact E].
Qed.

Lemma person_of_chunk_errors (c : str) (e : exn) :
  person_of_chunk c = Raise e -> e = IndexError /\ mem 44%N c = false /\ split_ws c = [].
Proof.
  unfold person_of_chunk. destruct (mem 44%N c) eqn:Em.
  - unfold split_on1. pose proof (In_find (mem_In Em)) as Hf.
    change (py ",") with [44%N]. destruct (find [44%N] c) eqn:Ef; [cbn [map]; discriminate|].
    exfalso. apply Hf. exact Ef.
  - destruct (split_ws c) as [|p0 [|p1 rest]] eqn:Es.
    + cbn. intros H. inversion H. auto.
    + discriminate.
    + unfold nth_from_end.
      destruct (nth_error (rev (p0 :: p1 :: rest)) (pred 1)) eqn:E1.
      2:{ apply nth_error_None in E1. rewrite length_rev in E1. simpl in E1. lia. }
      cbn [bind].
      destruct (nth_error (rev (p0 :: p1 :: rest)) (pred 2)) eqn:E2.
      2:{ apply nth_error_None in E2. rewrite length_rev in E2. simpl in E2. lia. }
      cbn [bind]. destruct (in_set _ _); discriminate.
Qed.

Lemma people_of_chunks_errors (chunks : list str) (e : exn) :
  people_of_chunks chunks = Raise e ->
  e = IndexError /\ exists c, In c chunks /\ mem 44%N c = false /\ split_ws c = [].
Proof.
  induction chunks as [|c chunks IH]; cbn [people_of_chunks]; [discriminate|].
  destruct (person_of_chunk c) as [p|e'] eqn:Ep; cbn [bind].
  - destruct (people_of_chunks chunks) as [ps|e'']; cbn [bind]; [discriminate|].
    intros H. inversion H; subst. destruct (IH eq_refl) as (-> & c' & Hc & Hrest).
    split; [reflexivity|]. exists c'. split; [right; assumption|assumption].
  - intros H. inversion H; subst. destruct (person_of_chunk_errors Ep) as (-> & Hm & Hs).
    split; [reflexivity|]. exists c. auto with datatypes.
Qed.

Lemma split_people_errors (text : str) (e : exn) : split_people text = Raise e -> e = IndexError.
Proof. unfold split_people. intros H. apply people_of_chunks_errors in H. tauto. Qed.

Lemma parse_reference_errors (raw : str) (e : exn) :
  parse_reference raw = Raise e -> e = IndexError.
Proof.
  unfold parse_reference.
  destruct (strip_identifiers (clean raw)) as [[[doi isbn] url] s1].
  rewrite Years.extract_year_last. cbn [bind].
  pose proof (@quoted_title_has_quote s1) as Hq.
  destruct (extract_title_quoted s1) as [tmp_title s2]. cbn [fst] in Hq.
  destruct (truthy tmp_title) eqn:Et.
  - destruct (find (py "“") s1) as [i|]; [|exfalso; apply Hq; reflexivity].
    cbn [bind].
    match goal with |- context [if nonempty ?l then split_people ?l else _] =>
      destruct (nonempty l); [destruct (split_people l) as [ps|e'] eqn:Ep|] end;
      cbn [bind].
    + repeat match goal with |- context [let '(_, _) := ?x in _] => destruct x end.
      discriminate.
    + intros H. inversion H; subst. eapply split_people_errors; eassumption.
    + repeat match goal with |- context [let '(_, _) := ?x in _] => destruct x end.
      discriminate.
  - cbn [bind].
    match goal with |- context [if nonempty ?l then split_people ?l else _] =>
      destruct (nonempty l); [destruct (split_people l) as [ps|e'] eqn:Ep|] end;
      cbn [bind].
    + repeat match goal with |- context [let '(_, _) := ?x in _] => destruct x end.
      discriminate.
    + intros H. inversion H; subst. eapply split_people_errors; eassumption.
    + repeat match goal with |- context [let '(_, _) := ?x in _] => destruct x end.
      discriminate.
Qed.

End ParserErrors.

(** X9. Whatever the input line, the only exception that [parse_reference]
    raises by itself is IndexError (the diagnostic prints and the Unicode
    normalisation are left aside). *)
Theorem parse_reference_raises_only_index_error (raw : str) (e : exn) :
  RefParser.parse_reference raw = Raise e -> e = IndexError.
Proof. apply ParserErrors.parse_reference_errors. Qed.

Lemma parse_reference_raises_only_index_error_witness :
  exists e, RefParser.parse_reference Samples.LONE_NEWLINE = Raise e /\ e = IndexError.
Proof.
  exists IndexError. split; [vm_compute; reflexivity|].
  apply (@parse_reference_raises_only_index_error Samples.LONE_NEWLINE IndexError).
  vm_compute. reflexivity.
Defined.

(** ** Normalisation of extractor records *)

Module RecordFacts.

Import RefParser NormalizeRecords.

Lemma parse_reference_roles (raw : str) (r : ParsedRef) :
  parse_reference raw = Ok r -> authors r = [] \/ editors r = [].
Proof.
  unfold parse_reference.
  destruct (strip_identifiers (clean raw)) as [[[doi isbn] url] s1].
  destruct (extract_year s1) as [y|]; [|discriminate]. cbn [bind].
  destruct (extract_title_quoted s1) as [tmp_title s2].
  match goal with |- context [bind ?x _] => destruct x as [left|]; [|discriminate] end.
  cbn [bind].
  match goal with |- context [bind ?x _] => destruct x as [people|]; [|discriminate] end.
  cbn [bind].
  repeat match goal with |- context [let '(_, _) := ?x in _] => destruct x end.
  intros H. inversion H; subst; clear H. cbn [authors editors].
  destruct (Re.found RE_ED _); auto.
Qed.

Lemma normalize_record_facts (rec : Normalizer.RawRecord) (n : Normalizer.NormalizedRef) :
  normalize_record rec = Ok n ->
  Normalizer.n_raw n = rec /\ Normalizer.n_year n <> None
  /\ (Normalizer.n_authors n = [] \/ Normalizer.n_editors n = []).
Proof.
  unfold normalize_record.
  destruct (parse_reference (raw_line_of rec)) as [parsed|] eqn:E; [|discriminate].
  cbn [bind]. intros H. inversion H; subst; clear H.
  cbn [Normalizer.n_raw Normalizer.n_year Normalizer.n_authors Normalizer.n_editors].
  split; [reflexivity|]. split; [destruct (year parsed); discriminate|].
  eapply parse_reference_roles; eassumption.
Qed.

Lemma normalize_record_errors (rec : Normalizer.RawRecord) (e : exn) :
  normalize_record rec = Raise e ->
  e = IndexError /\ parse_reference (raw_line_of rec) = Raise IndexError.
Proof.
  unfold normalize_record.
  destruct (parse_reference (raw_line_of rec)) as [parsed|e'] eqn:E; [discriminate|].
  cbn [bind]. intros H. inversion H; subst; clear H.
  rewrite (ParserErrors.parse_reference_errors E). auto.
Qed.

End RecordFacts.

(** X10. [normalize_records] on records of the extractor is all or
    nothing.  When it returns, the output has one entry per input record,
    in the input order, each carrying its input record, a year, and people
    in at most one of the two roles (authors, editors).  When it raises, the
    exception is IndexError and comes from re-parsing the line of one of the
    records; no partial list is returned. *)
Theorem normalize_records_all_or_nothing (records : list Normalizer.RawRecord) :
  (forall out, NormalizeRecords.normalize_records records = Ok out ->
     map Normalizer.n_raw out = records
     /\ Forall (fun n => Normalizer.n_year n <> None
                         /\ (Normalizer.n_authors n = [] \/ Normalizer.n_editors n = [])) out)
  /\ (forall e, NormalizeRecords.normalize_records records = Raise e ->
        e = IndexError
        /\ exists rec, In rec records
                       /\ RefParser.parse_reference (NormalizeRecords.raw_line_of rec) = Raise IndexError).
Proof.
  induction records as [|rec records [IHok IHerr]]; cbn [NormalizeRecords.normalize_records].
  - split; [|discriminate]. intros out H. inversion H. split; [reflexivity|constructor].
  - destruct (NormalizeRecords.normalize_record rec) as [n|e0] eqn:En; cbn [bind].
    + destruct (RecordFacts.normalize_record_facts En) as (Hraw & Hy & Hrole).
      destruct (NormalizeRecords.normalize_records records) as [ns|e1]; cbn [bind].
      * split; [|discriminate]. intros out H. inversion H; subst; clear H.
        destruct (IHok ns eq_refl) as [Hm Hf]. split.
        -- cbn [map]. rewrite Hm. reflexivity.
        -- constructor; [split; assumption|assumption].
      * split; [discriminate|]. intros e H. inversion H; subst; clear H.
        destruct (IHerr e eq_refl) as (-> & r & Hr & Hp).
        split; [reflexivity|]. exists r. split; [right; assumption|assumption].
    + split; [discriminate|]. intros e H. inversion H; subst; clear H.
      destruct (RecordFacts.normalize_record_errors En) as [-> Hp].
      split; [reflexivity|]. exists rec. split; [left; reflexivity|assumption].
Qed.

(** ** Style and type detection *)

Module StyleFacts.

Import StyleDetector.

Lemma max_key_cases (k0 k1 k2 k3 : str) (v0 v1 v2 v3 : nat) :
  let r := max_key (k0, v0) [(k1, v1); (k2, v2); (k3, v3)] in
  (r = (k0, v0) \/ r = (k1, v1) \/ r = (k2, v2) \/ r = (k3, v3))
  /\ ((v1 <= v0)%nat -> (v2 <= v0)%nat -> (v3 <= v0)%nat -> r = (k0, v0)).
Proof.
  cbn [max_key snd].
  destruct (Nat.ltb_spec v0 v1); cbn [snd];
    [destruct (Nat.ltb_spec v1 v2)|destruct (Nat.ltb_spec v0 v2)]; cbn [snd];
    match goal with |- context [(?a <? ?b)%nat] => destruct (Nat.ltb_spec a b) end;
    (split; [tauto|intros; try reflexivity; lia]).
Qed.

End StyleFacts.

(** X11. [detect_style_and_type] answers with one of the five style
    families and one of six entry types ("report", which the module
    documentation lists, is never returned); and whenever the line shows a
    year in parentheses or a name followed by a year, the family is
    "author-year". *)
Theorem detect_style_and_type_range (raw : str) :
  let s := join (py " ") (split_ws raw) in
  let r := StyleDetector.detect_style_and_type raw in
  In (StyleDetector.style_family r)
     (map py ["author-year"; "numeric"; "note-chicago"; "mla-like"; "other"]%string)
  /\ In (StyleDetector.entry_type r)
        (map py ["chapter"; "journal-article"; "book"; "thesis"; "proceedings";
                 "other"]%string)
  /\ (Re.found StyleDetector.RE_PAREN_YEAR s || Re.found StyleDetector.RE_NAME_YEAR s = true ->
      StyleDetector.style_family r = py "author-year").
Proof.
  intros s r. unfold r, StyleDetector.detect_style_and_type. fold s.
  cbn [StyleDetector.sig_year StyleDetector.sig_bracket_num StyleDetector.sig_ed_kw
       StyleDetector.sig_place_pub StyleDetector.sig_in_kw StyleDetector.sig_vol_iss
       StyleDetector.sig_vol_kw StyleDetector.sig_range].
  set (ay := ((if Re.found StyleDetector.RE_PAREN_YEAR s || Re.found StyleDetector.RE_NAME_YEAR s
               then 2 else 0) + (if Re.found StyleDetector.RE_YEAR s then 1 else 0))%nat).
  set (nu := (if _ || Re.found StyleDetector.RE_LEADING_NUM s then 2 else 0)%nat).
  set (no := (if _ && _ && Re.found StyleDetector.RE_YEAR s then 2 else 0)%nat).
  set (ml := (if _ || mem 34%N s then 2 else 0)%nat).
  destruct (StyleFacts.max_key_cases (py "author-year") (py "numeric") (py "note-chicago")
              (py "mla-like") ay nu no ml) as [Hcases Hfirst].
  assert (Hnu : (nu <= 2)%nat) by (unfold nu; match goal with |- ((if ?c then _ else _) <= _)%nat => destruct c end; lia).
  assert (Hno : (no <= 2)%nat) by (unfold no; match goal with |- ((if ?c then _ else _) <= _)%nat => destruct c end; lia).
  assert (Hml : (ml <= 2)%nat) by (unfold ml; match goal with |- ((if ?c then _ else _) <= _)%nat => destruct c end; lia).
  split; [|split].
  - destruct Hcases as [E|[E|[E|E]]]; rewrite E; cbn [StyleDetector.style_family];
      match goal with |- context [(?v =? 0)%nat] => destruct (v =? 0)%nat end;
      cbn [map In]; tauto.
  - cbn [StyleDetector.entry_type].
    destruct (StyleDetector.max_key _ _) as [best top]. cbn [StyleDetector.entry_type].
    repeat match goal with |- context [if ?c then _ else _] => destruct c end;
      cbn [map In]; tauto.
  - intros Hp. assert (Hay : (2 <= ay)%nat).
    { unfold ay. rewrite Hp. destruct (Re.found StyleDetector.RE_YEAR s); simpl; lia. }
    rewrite Hfirst by lia. cbn [StyleDetector.style_family].
    destruct (Nat.eqb_spec ay 0); [lia|reflexivity].
Qed.


(** ** Interval selection of the style probe *)

Module ProbeFacts.

Import Probe ProbeNotions Spec.

Section Facts.

Variable scores : list Q.
Variable med : Q.

Abbreviation n := (length scores).
Abbreviation qual := (qualifies scores med).
Abbreviation maxrun := (is_maximal_run scores med).

Lemma close_inv (i c : nat) (best : option (nat * nat)) :
  (i <= n)%nat -> cur_inv scores med i (Some c) -> best_inv scores med i best ->
  qual i = false ->
  best_inv scores med (S i) (close best c i).
Proof.
  intros Hi (Hc & Hq & Hl) Hb Hend.
  assert (Hrun : maxrun c (i - 1) = true).
  { apply Interval.maximal_run_iff. repeat split; try lia; try assumption.
    - intros j Hj. apply Hq. lia.
    - replace (S (i - 1)) with i by lia. assumption. }
  assert (Hnew : forall c' d', maxrun c' d' = true -> (S d' < S i)%nat ->
                  (S d' < i)%nat \/ (c', d') = (c, (i - 1)%nat)).
  { intros c' d' Hr Hd.
    destruct (Nat.eq_dec d' (i - 1)) as [->|Hne]; [|left; lia].
    right. f_equal. eapply Interval.maximal_run_start_unique; eassumption. }
  unfold close, MIN_BLOCK_LEN.
  destruct (Nat.leb_spec 2 (i - c)) as [Hlen|Hlen].
  - unfold longer. destruct best as [[a b]|].
    + destruct Hb as (Hab & Hbi & Hl2 & Hdom).
      assert (Hac : (a <= c)%nat).
      { apply Interval.maximal_run_iff in Hab. destruct Hab as (Hab & _ & _ & Hr).
        destruct (Nat.le_gt_cases c (S b)) as [Hle|Hgt]; [|lia].
        rewrite Hq in Hr by lia. discriminate. }
      destruct (Nat.ltb_spec (b - a + 1) (i - c)) as [Hlt|Hge]; cbn [best_inv].
      * repeat split; try assumption; try lia.
        intros c' d' Hr Hd H2. destruct (Hnew _ _ Hr Hd) as [Hold|Heq].
        -- specialize (Hdom _ _ Hr Hold H2). unfold longer_first in *. simpl in *. lia.
        -- inversion Heq; subst. unfold longer_first. simpl. lia.
      * repeat split; try assumption; try lia.
        intros c' d' Hr Hd H2. destruct (Hnew _ _ Hr Hd) as [Hold|Heq].
        -- apply Hdom; assumption.
        -- inversion Heq; subst. unfold longer_first. simpl. lia.
    + cbn [best_inv]. repeat split; try assumption; try lia.
      intros c' d' Hr Hd H2. destruct (Hnew _ _ Hr Hd) as [Hold|Heq].
      * exfalso. eapply Hb; eassumption.
      * inversion Heq; subst. unfold longer_first. simpl. lia.
  - destruct best as [[a b]|]; cbn [best_inv] in *.
    + destruct Hb as (Hab & Hbi & Hl2 & Hdom). repeat split; try assumption; try lia.
      intros c' d' Hr Hd H2. destruct (Hnew _ _ Hr Hd) as [Hold|Heq].
      * apply Hdom; assumption.
      * inversion Heq; subst. lia.
    + intros c' d' Hr Hd H2. destruct (Hnew _ _ Hr Hd) as [Hold|Heq].
      * eapply Hb; eassumption.
      * inversion Heq; subst. lia.
Qed.

(** No run ends just before a position that qualifies, or just after one
    that does not. *)
Lemma best_inv_skip (i : nat) (best : option (nat * nat)) :
  best_inv scores med i best ->
  (qual i = true \/ (i = O \/ qual (i - 1) = false)) ->
  best_inv scores med (S i) best.
Proof.
  intros Hb Hno.
  assert (Hold : forall c d, maxrun c d = true -> (S d < S i)%nat -> (S d < i)%nat).
  { intros c d Hr Hd. destruct (Nat.eq_dec (S d) i) as [E|]; [|lia].
    apply Interval.maximal_run_iff in Hr. destruct Hr as (Hcd & Hall & _ & Hr).
    destruct Hno as [Hq|[Hz|Hq]].
    - rewrite E in Hr. congruence.
    - lia.
    - rewrite <- E in Hq. simpl in Hq. rewrite Nat.sub_0_r in Hq.
      rewrite Hall in Hq by lia. discriminate. }
  destruct best as [[a b]|]; cbn [best_inv] in *.
  - destruct Hb as (Hab & Hbi & Hl2 & Hdom). repeat split; try assumption; try lia.
    intros c d Hr Hd H2. apply Hdom; eauto.
  - intros c d Hr Hd H2. eapply Hb; eauto.
Qed.

Lemma step_inv (i : nat) (sc : Q) best cur :
  nth_error scores i = Some sc ->
  cur_inv scores med i cur -> best_inv scores med i best ->
  let '(best', cur') := step med (best, cur) (i, sc) in
  cur_inv scores med (S i) cur' /\ best_inv scores med (S i) best'.
Proof.
  intros Hsc Hcur Hbest.
  assert (Hin : (i < n)%nat) by (apply nth_error_Some; congruence).
  pose proof (Interval.qualifies_nth med Hsc) as Hq.
  unfold step. rewrite <- Hq.
  destruct cur as [c|]; destruct (qual i) eqn:Ei; cbn [negb].
  - split.
    + destruct Hcur as (Hc & Hall & Hl). repeat split; try lia; try assumption.
      intros j Hj. destruct (Nat.eq_dec j i) as [->|]; [assumption|apply Hall; lia].
    + apply best_inv_skip; auto.
  - split.
    + right. replace (S i - 1)%nat with i by lia. assumption.
    + apply close_inv; try assumption. lia.
  - split.
    + repeat split; try lia.
      * intros j Hj. replace j with i by lia. assumption.
      * destruct Hcur as [->|Hcur]; [left; reflexivity|right; assumption].
    + apply best_inv_skip; auto.
  - split.
    + right. replace (S i - 1)%nat with i by lia. assumption.
    + apply best_inv_skip; auto.
Qed.

Lemma loop_inv (rest : list Q) : forall i best cur,
  (i <= n)%nat -> skipn i scores = rest ->
  cur_inv scores med i cur -> best_inv scores med i best ->
  let '(best', cur') :=
    fold_left (step med) (combine (seq i (length rest)) rest) (best, cur) in
  cur_inv scores med n cur' /\ best_inv scores med n best'.
Proof.
  induction rest as [|sc rest IH]; intros i best cur Hle Hskip Hcur Hbest.
  - simpl.
    assert (n <= i)%nat.
    { apply (f_equal (@length Q)) in Hskip. rewrite length_skipn in Hskip.
      simpl in Hskip. lia. }
    replace n with i by lia. auto.
  - destruct (Interval.skipn_cons_nth Hskip) as [Hnth Hskip'].
    pose proof (step_inv Hnth Hcur Hbest) as Hstep.
    assert (Hlt : (i < n)%nat) by (apply nth_error_Some; congruence).
    cbn [length seq combine fold_left].
    destruct (step med (best, cur) (i, sc)) as [best1 cur1].
    destruct Hstep as [Hc1 Hb1]. apply IH; assumption || lia.
Qed.

Lemma longer_first_antisym (x y : nat * nat) :
  longer_first x y -> longer_first y x ->
  fst x = fst y /\ (snd x - fst x = snd y - fst y)%nat.
Proof. unfold longer_first. lia. Qed.

Lemma result_inv :
  match fold_left (step med) (combine (seq 0 n) scores) (None, None) with
  | (best, cur) =>
      best_inv scores med (S n)
        match cur with
        | Some c => if (MIN_BLOCK_LEN <=? n - c)%nat then Some (longer best c n) else best
        | None => best
        end
  end.
Proof.
  pose proof (@loop_inv scores O None None (Nat.le_0_l _) eq_refl) as H.
  destruct (fold_left _ _ _) as [best cur].
  destruct H as [Hcur Hbest].
  { left. reflexivity. }
  { cbn. intros c d _ Hd. lia. }
  assert (Hend : qual n = false).
  { unfold qualifies. assert (E : nth_error scores n = None) by (apply nth_error_None; lia).
    rewrite E. reflexivity. }
  destruct cur as [c|].
  - apply (close_inv (Nat.le_refl n) Hcur Hbest Hend).
  - apply best_inv_skip; [assumption|]. right. exact Hcur.
Qed.

End Facts.

End ProbeFacts.

(** X12. What [_best_interval] of the style probe computes, whatever float
    the midpoint of [statistics.median] rounds to.  On an empty score list
    it raises StatisticsError.  Otherwise, with [med] the median, it
    returns (a, b) exactly when positions a..b are a maximal run of scores
    at or above [med] of length at least two that is longer than, or as
    long as and not later than, every other such run; it returns nothing
    when no maximal run has two positions. *)
Theorem probe_best_interval_characterised (midpoint : Q -> Q -> Q) (scores : list Q) :
  (scores = [] -> Probe._best_interval midpoint scores = Raise StatisticsError)
  /\ (scores <> [] ->
      exists med res,
        Floats.median midpoint scores = Ok med
        /\ Probe._best_interval midpoint scores = Ok res
        /\ forall a b,
             res = Some (a, b)
             <-> Spec.is_maximal_run scores med a b = true
                 /\ (2 <= b - a + 1)%nat
                 /\ forall c d, Spec.is_maximal_run scores med c d = true ->
                                (2 <= d - c + 1)%nat ->
                                ProbeNotions.longer_first (a, b) (c, d)).
Proof.
  split; [intros ->; reflexivity|]. intros Hne.
  unfold Probe._best_interval.
  destruct (Floats.median midpoint scores) as [med|e] eqn:Em.
  2:{ destruct scores; [congruence|]. unfold Floats.median in Em.
      destruct (Nat.odd _); discriminate. }
  exists med. cbn [bind].
  pose proof (ProbeFacts.result_inv scores med) as H.
  destruct (fold_left _ _ _) as [best cur].
  set (res := match cur with
              | Some c => if (Probe.MIN_BLOCK_LEN <=? length scores - c)%nat
                          then Some (Probe.longer best c (length scores)) else best
              | None => best end) in *.
  exists res. split; [reflexivity|]. split.
  { unfold res. destruct cur as [c|]; [|reflexivity].
    destruct (Probe.MIN_BLOCK_LEN <=? _)%nat; reflexivity. }
  clearbody res. clear best cur.
  assert (Hclosed : forall c d, Spec.is_maximal_run scores med c d = true ->
                                (S d < S (length scores))%nat).
  { intros c d Hr. pose proof (Interval.maximal_run_bounds Hr). lia. }
  intros a b. destruct res as [[a0 b0]|]; cbn [ProbeNotions.best_inv] in H.
  - destruct H as (Hrun & _ & Hlen & Hdom). split.
    + intros E. inversion E; subst. repeat split; try assumption.
      intros c d Hr H2. apply Hdom; eauto.
    + intros (Hr & H2 & Hd).
      destruct (@ProbeFacts.longer_first_antisym (a, b) (a0, b0)) as [E1 E2].
      * apply Hd; assumption.
      * apply Hdom; eauto.
      * simpl in E1, E2. pose proof (Interval.maximal_run_bounds Hr).
        pose proof (Interval.maximal_run_bounds Hrun). do 2 f_equal; lia.
  - split; [discriminate|]. intros (Hr & H2 & _). exfalso. eapply H; eauto.
Qed.

(** ** What deduplication leaves *)

Module DedupeCover.

Section Cover.

Variable A : Type.
Variable dup : A -> A -> bool.

(** Every element the loop has read is kept, or duplicates a kept one. *)
Lemma keep_loop_covers (l : list A) : forall kept,
  let out := fold_left (Spec.keep_step dup) l kept in
  (forall k, In k kept -> In k out)
  /\ forall r, In r l -> In r out \/ exists k, In k out /\ dup k r = true.
Proof.
  induction l as [|x l IH]; intros kept; cbn [fold_left].
  - split; [auto|contradiction].
  - destruct (IH (Spec.keep_step dup kept x)) as [Hkept Hl].
    assert (Hsub : forall k, In k kept -> In k (Spec.keep_step dup kept x)).
    { intros k Hk. unfold Spec.keep_step. destruct (existsb _ kept); [assumption|].
      apply in_or_app. left. assumption. }
    split; [auto|].
    intros r [<-|Hr]; [|auto].
    unfold Spec.keep_step at 1 3. destruct (existsb (fun k => dup k x) kept) eqn:E.
    + right. apply existsb_exists in E. destruct E as (k & Hk & Hd).
      exists k. split; [|assumption]. apply Hkept. apply Hsub. assumption.
    + left. apply Hkept. unfold Spec.keep_step. rewrite E. apply in_or_app. right.
      left. reflexivity.
Qed.

End Cover.

Lemma counts_as_duplicate_spec (rapidfuzz : option (str -> str -> Q)) (threshold : Z)
  (k r : Normalizer.NormalizedRef) :
  Notions.counts_as_duplicate rapidfuzz threshold k r
  = Spec.duplicate_of rapidfuzz threshold k r.
Proof.
  unfold Notions.counts_as_duplicate, Spec.duplicate_of.
  destruct rapidfuzz as [ratio|]; [apply Dedupe.is_duplicate_spec|reflexivity].
Qed.

End DedupeCover.

(** X13. The output of [dedupe_records], with or without rapidfuzz: no
    record of the output is a duplicate of an earlier record of the output;
    every input record is in the output or is a duplicate of a record of
    the output; and the first input record is always kept. *)
Theorem dedupe_records_leaves_no_duplicates
  (rapidfuzz : option (str -> str -> Q)) (X : list Normalizer.NormalizedRef)
  (threshold : Z) :
  let out := Normalizer.dedupe_records rapidfuzz X threshold in
  let dup := Notions.counts_as_duplicate rapidfuzz threshold in
  ForallOrdPairs (fun k r => dup k r = false) out
  /\ (forall r, In r X -> In r out \/ exists k, In k out /\ dup k r = true)
  /\ (X <> [] -> hd_error out = hd_error X).
Proof.
  cbv zeta. rewrite Dedupe.dedupe_records_first_seen. split; [|split].
  - pose proof (Dedupe.first_seen_chain (Spec.duplicate_of rapidfuzz threshold) X) as H.
    induction H as [|k l Hk _ IH]; constructor; [|exact IH].
    eapply Forall_impl; [|exact Hk]. intros r Hr.
    rewrite DedupeCover.counts_as_duplicate_spec. exact Hr.
  - intros r Hr.
    pose proof (DedupeCover.keep_loop_covers (Spec.duplicate_of rapidfuzz threshold) X [])
      as Hc.
    cbv zeta in Hc. destruct Hc as [_ Hc].
    destruct (Hc r Hr) as [H|(k & Hk & Hd)]; [left; exact H|].
    right. exists k. split; [exact Hk|].
    rewrite DedupeCover.counts_as_duplicate_spec. exact Hd.
  - intros Hne. destruct X as [|x X]; [congruence|].
    unfold Spec.first_seen. cbn [fold_left]. unfold Spec.keep_step at 2. cbn [existsb app].
    destruct (Dedupe.keep_loop_subsequence (Spec.duplicate_of rapidfuzz threshold) X [x])
      as (l' & E & _).
    rewrite E. reflexivity.
Qed.

(** ** The page sample *)

Module Sample.

Import FindBibliography Notions.

Lemma load_pages_ok (doc : document) (idxs : list nat) :
  Forall (fun i => (i < length (page_texts doc))%nat) idxs ->
  load_pages doc idxs = Ok (map (page_at doc) idxs).
Proof.
  induction 1 as [|i idxs Hi _ IH]; cbn [load_pages map]; [reflexivity|].
  unfold load_page. rewrite (@nth_error_nth' _ (page_texts doc) i [] Hi). cbn [bind]. rewrite IH. reflexivity.
Qed.

Lemma load_pages_fail (doc : document) (idxs : list nat) :
  Exists (fun i => (length (page_texts doc) <= i)%nat) idxs ->
  load_pages doc idxs = Raise ValueError.
Proof.
  induction idxs as [|i idxs IH]; intros H; [inversion H|].
  cbn [load_pages]. unfold load_page.
  destruct (nth_error (page_texts doc) i) as [t|] eqn:E; [|reflexivity].
  cbn [bind]. rewrite IH; [reflexivity|].
  inversion H as [? ? Hi|? ? Hrest]; subst; [|assumption].
  apply nth_error_None in Hi. congruence.
Qed.

Lemma tail_indices_in_document (doc : document) (tail_n : Z) :
  Forall (fun i => (i < length (page_texts doc))%nat) (tail_indices (page_count doc) tail_n).
Proof.
  unfold tail_indices, page_count. apply Forall_forall. intros i Hi.
  apply in_map_iff in Hi. destruct Hi as (k & <- & Hk). apply in_seq in Hk. lia.
Qed.

Lemma tail_indices_length (n tail_n : Z) :
  (0 <= n)%Z ->
  length (tail_indices n tail_n) = Z.to_nat (Z.min (Z.max tail_n 0) n).
Proof. intros Hn. unfold tail_indices. rewrite length_map, length_seq. lia. Qed.

Lemma tail_indices_explicit (len : nat) (tail_n : Z) :
  tail_indices (Z.of_nat len) tail_n
  = map (fun k => (len - 1 - k)%nat) (seq 0 (Z.to_nat (Z.min tail_n (Z.of_nat len)))).
Proof.
  unfold tail_indices.
  replace (Z.to_nat (Z.of_nat len - 1 - Z.max (-1) (Z.of_nat len - tail_n - 1)))
    with (Z.to_nat (Z.min tail_n (Z.of_nat len))) by lia.
  apply map_ext_in. intros k Hk. apply in_seq in Hk. lia.
Qed.

End Sample.

(** X14. The page sample of [_pull_pages], with n the page count and
    head_n, tail_n the integers that math.ceil(n * head) and
    math.ceil(n * tail) evaluate to.  When head_n is at most n, the sample
    is pages 0 .. head_n - 1 followed by the last min(tail_n, n) pages
    (none for tail_n <= 0) from the last page downwards, each with its own
    text; a page that belongs to both parts is sampled twice.  When head_n
    exceeds n, loading page n fails and the call raises. *)
Theorem pull_pages_sample (ceil_mul : Z -> Q -> Z) (doc : document) (head tail : Q) :
  let n := length (page_texts doc) in
  let head_n := ceil_mul (Z.of_nat n) head in
  let tail_n := ceil_mul (Z.of_nat n) tail in
  ((head_n <= Z.of_nat n)%Z ->
      exists pages,
        Floats._pull_pages ceil_mul doc head tail = Ok pages
        /\ map fst pages
           = seq 0 (Z.to_nat head_n)
             ++ map (fun k => (n - 1 - k)%nat) (seq 0 (Z.to_nat (Z.min tail_n (Z.of_nat n))))
        /\ forall i t, In (i, t) pages -> nth_error (page_texts doc) i = Some t)
  /\ ((Z.of_nat n < head_n)%Z -> Floats._pull_pages ceil_mul doc head tail = Raise ValueError).
Proof.
  intros n head_n tail_n.
  split.
  - intros Hh. unfold Floats._pull_pages, page_count. fold n. fold head_n. fold tail_n.
    rewrite Sample.load_pages_ok.
    2:{ apply Forall_forall. intros i Hi. apply in_seq in Hi. fold n. lia. }
    cbn [bind].
    pose proof (Sample.tail_indices_in_document doc tail_n) as Ht.
    unfold page_count in Ht. fold n in Ht.
    rewrite Sample.load_pages_ok by exact Ht.
    cbn [bind]. eexists. split; [reflexivity|]. split.
    + rewrite map_app, !map_map. unfold Notions.page_at. cbn [fst].
      rewrite !map_id. rewrite Sample.tail_indices_explicit. reflexivity.
    + intros i t Hin.
      assert (Hall : Forall (fun i => (i < n)%nat)
                       (seq 0 (Z.to_nat head_n) ++ FindBibliography.tail_indices (Z.of_nat n) tail_n)).
      { apply Forall_app. split; [|exact Ht].
        apply Forall_forall. intros j Hj. apply in_seq in Hj. lia. }
      rewrite <- map_app in Hin. apply in_map_iff in Hin.
      destruct Hin as (j & E & Hj). unfold Notions.page_at in E. inversion E; subst.
      rewrite Forall_forall in Hall. apply nth_error_nth'. apply Hall. exact Hj.
  - intros Hh. unfold Floats._pull_pages, page_count. fold n. fold head_n.
    rewrite Sample.load_pages_fail; [reflexivity|].
    apply Exists_exists. exists n. split; [|unfold n; lia].
    apply in_seq. lia.
Qed.


(** ** Soundness of the pattern matcher, and the ToC page number *)

Module ReSound.

Import Re ReSem.

Lemma m_rep (ic : bool) (r : re) (lo : nat) (hi : option nat) (greedy : bool) k z cs :
  m ic (Rep r lo hi greedy) k z cs
  = rep_loop (m ic r) greedy k (S (length (after z))) lo hi z cs.
Proof. reflexivity. Qed.

Lemma extends_refl ic r cs : extends ic r cs cs.
Proof. exists []. split; [reflexivity|constructor]. Qed.

Lemma extends_trans ic r cs1 cs2 cs3 :
  extends ic r cs1 cs2 -> extends ic r cs2 cs3 -> extends ic r cs1 cs3.
Proof.
  intros (n1 & -> & H1) (n2 & -> & H2). exists (n2 ++ n1).
  split; [rewrite app_assoc; reflexivity|]. apply Forall_app. auto.
Qed.

Lemma extends_lift ic (r r' : re) cs cs' :
  (forall i body, group_of r i body -> group_of r' i body) ->
  extends ic r cs cs' -> extends ic r' cs cs'.
Proof.
  intros Hsub (new & -> & H). exists new. split; [reflexivity|].
  eapply Forall_impl; [|exact H]. intros e (body & z1 & z2 & Hg & Hm & He).
  exists body, z1, z2. auto.
Qed.

Lemma orelse_cases (A : Type) (x : option A) (y : unit -> option A) (v : A) :
  orelse x y = Some v -> x = Some v \/ (x = None /\ y tt = Some v).
Proof. destruct x; simpl; intros H; [left; assumption|right; auto]. Qed.

Lemma one_sound (p : char -> bool) k z cs res :
  one p k z cs = Some res ->
  exists c rest, after z = c :: rest /\ p c = true /\ k (advance z) cs = Some res.
Proof.
  unfold one. destruct (after z) as [|c rest]; [discriminate|].
  destruct (p c) eqn:E; [|discriminate]. intros H. exists c, rest. auto.
Qed.

(** Soundness of the backtracking matcher: whatever it returns was handed
    to the continuation at a position that the pattern can reach, with
    captures of the pattern added. *)
Lemma m_sound (ic : bool) (r : re) : forall k z cs res,
  m ic r k z cs = Some res ->
  exists z' cs', k z' cs' = Some res /\ matches ic r z z' /\ extends ic r cs cs'.
Proof.
  induction r as [|x| |negated items|a IHa b IHb|a IHa b IHb|r IH lo hi greedy
                  |idx r IH| | | |r IH|r IH];
    intros k z cs res H;
    try match type of H with m _ (Rep _ _ _ _) _ _ _ = _ => rewrite m_rep in H end;
    cbn [m] in H.
  - exists z, cs. split; [assumption|]. split; [constructor|apply extends_refl].
  - apply one_sound in H. destruct H as (c & rest & Ha & Hp & Hk).
    exists (advance z), cs. split; [assumption|]. split; [|apply extends_refl].
    eapply m_char; [reflexivity|eassumption|assumption].
  - apply one_sound in H. destruct H as (c & rest & Ha & Hp & Hk).
    exists (advance z), cs. split; [assumption|]. split; [|apply extends_refl].
    eapply m_char; [reflexivity|eassumption|assumption].
  - apply one_sound in H. destruct H as (c & rest & Ha & Hp & Hk).
    exists (advance z), cs. split; [assumption|]. split; [|apply extends_refl].
    eapply m_char; [reflexivity|eassumption|assumption].
  - apply IHa in H. destruct H as (z1 & cs1 & H & Ma & Ea).
    apply IHb in H. destruct H as (z2 & cs2 & H & Mb & Eb).
    exists z2, cs2. split; [assumption|]. split; [econstructor; eassumption|].
    eapply extends_trans; eapply extends_lift; try eassumption; intros; 
      [apply g_seq_l|apply g_seq_r]; assumption.
  - unfold orelse in H. destruct (m ic a k z cs) eqn:Ea.
    + inversion H; subst. apply IHa in Ea. destruct Ea as (z' & cs' & Hk & Ma & Ex).
      exists z', cs'. split; [assumption|]. split; [apply m_alt_l; assumption|].
      eapply extends_lift; [|eassumption]. intros; apply g_alt_l; assumption.
    + apply IHb in H. destruct H as (z' & cs' & Hk & Mb & Ex).
      exists z', cs'. split; [assumption|]. split; [apply m_alt_r; assumption|].
      eapply extends_lift; [|eassumption]. intros; apply g_alt_r; assumption.
  - revert H. generalize (S (length (after z))) as fuel. intros fuel.
    revert lo hi z cs. induction fuel as [|fuel IHf]; intros lo hi z cs H; [discriminate|].
    cbn [rep_loop] in H.
    assert (Hstep :
      match hi with
      | Some O => None
      | _ => m ic r
               (fun z' cs' =>
                  if (pos z' =? pos z)%nat then None
                  else rep_loop (m ic r) greedy k fuel (pred lo) (option_map pred hi) z' cs')
               z cs
      end = Some res ->
      exists z' cs', k z' cs' = Some res /\ matches ic (Rep r lo hi greedy) z z'
                     /\ extends ic (Rep r lo hi greedy) cs cs').
    { intros Hs.
      assert (Hhi : hi <> Some O) by (intros ->; discriminate).
      assert (Hs' : m ic r
               (fun z' cs' =>
                  if (pos z' =? pos z)%nat then None
                  else rep_loop (m ic r) greedy k fuel (pred lo) (option_map pred hi) z' cs')
               z cs = Some res).
      { destruct hi as [[|h]|]; [congruence|exact Hs|exact Hs]. }
      clear Hs. apply IH in Hs'. destruct Hs' as (z1 & cs1 & Hk1 & M1 & E1).
      destruct (pos z1 =? pos z)%nat; [discriminate|].
      apply IHf in Hk1. destruct Hk1 as (z2 & cs2 & Hk2 & M2 & E2).
      exists z2, cs2. split; [assumption|]. split.
      - eapply m_rep_more; eassumption.
      - eapply extends_trans.
        + eapply extends_lift; [|exact E1]. intros; apply g_rep; assumption.
        + eapply extends_lift; [|exact E2]. intros i body Hg.
          inversion Hg; subst. apply g_rep. assumption. }
    destruct lo as [|lo].
    + destruct greedy; apply orelse_cases in H; destruct H as [H|[_ H]].
      * apply Hstep. exact H.
      * exists z, cs. split; [assumption|]. split; [constructor|apply extends_refl].
      * exists z, cs. split; [assumption|]. split; [constructor|apply extends_refl].
      * apply Hstep. exact H.
    + apply Hstep. exact H.
  - apply IH in H. destruct H as (z' & cs' & Hk & M & E).
    eexists z', _. split; [exact Hk|]. split; [constructor; assumption|].
    destruct E as (new & -> & Hnew).
    exists ((idx, (pos z, pos z', firstn (pos z' - pos z) (after z))) :: new).
    split; [reflexivity|]. constructor.
    + exists r, z, z'. split; [constructor|]. split; [assumption|reflexivity].
    + eapply Forall_impl; [|exact Hnew]. intros e (body & z1 & z2 & Hg & Hm & He).
      exists body, z1, z2. split; [apply g_group; assumption|auto].
  - destruct (before z) eqn:E; [|discriminate].
    exists z, cs. split; [assumption|]. split; [constructor; assumption|apply extends_refl].
  - destruct (at_end z) eqn:E; [|discriminate].
    exists z, cs. split; [assumption|]. split; [constructor; assumption|apply extends_refl].
  - destruct (at_word_boundary z) eqn:E; [|discriminate].
    exists z, cs. split; [assumption|]. split; [constructor; assumption|apply extends_refl].
  - destruct (m ic r (fun z' cs' => Some (z', cs')) z cs) as [[z1 cs1]|] eqn:E; [|discriminate].
    apply IH in E. destruct E as (z' & cs' & Hk & M & Ex). inversion Hk; subst.
    exists z, cs1. split; [assumption|]. split; [econstructor; eassumption|].
    eapply extends_lift; [|eassumption]. intros; apply g_ahead; assumption.
  - destruct (before z) as [|c b] eqn:Eb; [discriminate|].
    match type of H with match ?x with _ => _ end = _ =>
      destruct x as [[z1 cs1]|] eqn:E; [|discriminate] end.
    apply IH in E. destruct E as (z' & cs' & Hk & M & Ex).
    destruct (pos z' =? pos z)%nat; [|discriminate]. inversion Hk; subst.
    exists z, cs1. split; [assumption|]. split; [econstructor|].
    eapply extends_lift; [|eassumption]. intros; apply g_behind; assumption.
Qed.

End ReSound.

Module TocNumber.

Import Re ReSem ReSound FindBibliography.

Lemma char_matches ic r p z z1 :
  char_test ic r = Some p -> matches ic r z z1 ->
  exists c rest, after z = c :: rest /\ p c = true /\ z1 = advance z.
Proof.
  intros Hp Hm.
  destruct r; try discriminate; inversion Hm; subst;
    match goal with
    | H1 : char_test _ _ = Some ?q, H2 : char_test _ _ = Some p |- _ =>
        rewrite H1 in H2; inversion H2; subst; eauto
    end.
Qed.

(** A bounded repetition of a one-character pattern reads at most [h]
    characters, each of which passes the test. *)
Lemma bounded_rep_matches ic r p g : char_test ic r = Some p ->
  forall h lo z z', matches ic (Rep r lo (Some h) g) z z' ->
  exists t, after z = t ++ after z' /\ pos z' = (pos z + length t)%nat
            /\ (length t <= h)%nat /\ Forall (fun c => p c = true) t.
Proof.
  intros Hp. induction h as [|h IH]; intros lo z z' Hm; inversion Hm; subst;
    try discriminate.
  - exists []. repeat split; auto.
  - congruence.
  - exists []. repeat split; auto. simpl; lia.
  - match goal with H : matches ic r _ _ |- _ =>
      destruct (char_matches Hp H) as (c & rest & Ha & Hc & ->) end.
    match goal with H : matches ic (Rep _ _ _ _) _ _ |- _ =>
      apply IH in H; destruct H as (t & Ht & Hpos & Hlen & Hall) end.
    unfold advance in Ht, Hpos. rewrite Ha in Ht, Hpos. simpl in Ht, Hpos.
    exists (c :: t). simpl. repeat split.
    + rewrite Ha, Ht. reflexivity.
    + lia.
    + lia.
    + constructor; assumption.
Qed.

Lemma scan_match_at rx a : forall b p mo,
  scan rx b a p = Some mo ->
  exists z, match_at rx z = Some mo.
Proof.
  induction a as [|c a IH]; intros b p mo; simpl.
  - destruct (match_at rx _) eqn:E; [|discriminate].
    intros H; inversion H; subst. eauto.
  - destruct (match_at rx {| before := b; after := c :: a; pos := p |}) eqn:E.
    + intros H; inversion H; subst. eauto.
    + apply IH.
Qed.

Lemma lookup_In i cs v : lookup i cs = Some v -> In (i, v) cs.
Proof.
  induction cs as [|[j w] cs IH]; simpl; [discriminate|].
  destruct (Nat.eqb_spec i j) as [->|_].
  - intros H; inversion H; subst. left; reflexivity.
  - intros H. right. auto.
Qed.

(** What [m.group(i)] returns after a search is text that the body of
    group [i] can read. *)
Lemma search_group rx s mo i t :
  search rx s = Some mo -> group mo i = Some t ->
  exists body z1 z2, group_of (ast rx) i body /\ matches (icase rx) body z1 z2
                     /\ t = firstn (pos z2 - pos z1) (after z1).
Proof.
  unfold search. intros Hs Hg. apply scan_match_at in Hs. destruct Hs as (z & Hm).
  unfold match_at in Hm.
  destruct (m (icase rx) (ast rx) (fun z' cs => Some (z', cs)) z []) as [res|] eqn:E;
    [|discriminate].
  apply m_sound in E. destruct E as (z' & cs' & Hk & _ & (new & -> & Hnew)).
  inversion Hk; subst res. simpl in Hm. inversion Hm; subst mo. clear Hm Hk.
  unfold group in Hg. simpl in Hg. rewrite app_nil_r in Hg.
  destruct (lookup i new) as [v|] eqn:El; [|discriminate].
  simpl in Hg. inversion Hg; subst t.
  apply lookup_In in El. rewrite Forall_forall in Hnew. apply Hnew in El.
  destruct El as (body & z1 & z2 & Hgo & Hma & He). simpl in *.
  exists body, z1, z2. rewrite He. auto.
Qed.

Lemma int_digits_bound s : forall acc n,
  int_digits acc s = Some n -> (n < (acc + 1) * 10 ^ N.of_nat (length s))%N.
Proof.
  induction s as [|c s IH]; intros acc n; simpl int_digits.
  - intros H; inversion H; subst. simpl. lia.
  - destruct (isdecimal c) eqn:Ed; [|discriminate]. intros H. apply IH in H.
    unfold isdecimal, in_range in Ed.
    apply andb_prop in Ed. destruct Ed as [E1 E2].
    apply N.leb_le in E1, E2.
    replace (N.of_nat (length (c :: s))) with (N.succ (N.of_nat (length s)))
      by (simpl length; lia).
    rewrite N.pow_succ_r by lia.
    eapply N.lt_le_trans; [exact H|].
    set (P := (10 ^ N.of_nat (length s))%N) in *. nia.
Qed.

Lemma pow10_mono (n : nat) : (n <= 4)%nat -> (10 ^ N.of_nat n <= 10000)%N.
Proof.
  intros H. do 5 (destruct n as [|n]; [vm_compute; discriminate|]). lia.
Qed.

Lemma toc_num_group body :
  group_of (ast _TOC_NUM) 1 body ->
  body = Rep (Class false [IDigit true]) 1%nat (Some 4%nat) true.
Proof.
  unfold _TOC_NUM. cbn [ast]. intros H.
  repeat match goal with
         | H : group_of _ _ _ |- _ => inversion H; subst; clear H
         end; reflexivity.
Qed.

Lemma toc_num_value ln mo z :
  search _TOC_NUM ln = Some mo ->
  int_of (RefParser.group_or_empty mo 1) = Some z -> (0 <= z <= 9999)%Z.
Proof.
  intros Hs Hi. unfold RefParser.group_or_empty in Hi.
  destruct (group mo 1) as [t|] eqn:Eg; [|discriminate].
  destruct (search_group Hs Eg) as (body & z1 & z2 & Hgo & Hma & ->).
  apply toc_num_group in Hgo. subst body.
  eapply bounded_rep_matches in Hma; [|reflexivity].
  destruct Hma as (t & Ht & Hpos & Hlen & _).
  rewrite Hpos, Ht in Hi.
  replace (pos z1 + length t - pos z1)%nat with (length t + 0)%nat in Hi by lia.
  rewrite firstn_app_2 in Hi. simpl firstn in Hi. rewrite app_nil_r in Hi.
  unfold int_of in Hi. destruct t as [|c t]; [discriminate|].
  destruct (int_digits 0 (c :: t)) as [n|] eqn:En; [|discriminate].
  simpl in Hi. inversion Hi; subst z.
  apply int_digits_bound in En. pose proof (pow10_mono Hlen). lia.
Qed.

End TocNumber.

(** X15. A page number that [_bib_from_toc] returns lies between 0 and
    9999: it is the value of the one to four digits that [_TOC_NUM] finds
    at the end of a line which holds one of the ToC keys.  The number is
    not compared with the page count. *)
Theorem toc_page_number_range (lines : list str) (b : Z) :
  FindBibliography._bib_from_toc lines = Some b ->
  (0 <= b <= 9999)%Z
  /\ exists ln, In ln lines
       /\ existsb (fun k => contains k (lower ln)) FindBibliography._TOC_KEYS = true
       /\ exists mo, Re.search FindBibliography._TOC_NUM ln = Some mo
            /\ int_of (RefParser.group_or_empty mo 1) = Some b.
Proof.
  induction lines as [|ln lines IH]; cbn [FindBibliography._bib_from_toc In];
    [discriminate|].
  assert (Hrest : FindBibliography._bib_from_toc lines = Some b ->
    (0 <= b <= 9999)%Z
    /\ exists ln0, (ln = ln0 \/ In ln0 lines)
       /\ existsb (fun k => contains k (lower ln0)) FindBibliography._TOC_KEYS = true
       /\ exists mo, Re.search FindBibliography._TOC_NUM ln0 = Some mo
            /\ int_of (RefParser.group_or_empty mo 1) = Some b).
  { intros H. apply IH in H. destruct H as (Hb & l & Hin & Hk).
    split; [assumption|]. exists l. auto. }
  destruct (existsb (fun k => contains k (lower ln)) FindBibliography._TOC_KEYS) eqn:Ek;
    [|assumption].
  destruct (Re.search FindBibliography._TOC_NUM ln) as [mo|] eqn:Es; [|assumption].
  destruct (int_of (RefParser.group_or_empty mo 1)) as [z|] eqn:Ei; [|assumption].
  intros H. inversion H; subst z. split.
  - eapply TocNumber.toc_num_value; eassumption.
  - exists ln. split; [left; reflexivity|]. split; [assumption|]. eauto.
Qed.

Lemma toc_page_number_range_witness :
  (0 <= 391 <= 9999)%Z
  /\ exists ln, In ln [py "Bibliography ..... 391"]
       /\ existsb (fun k => contains k (lower ln)) FindBibliography._TOC_KEYS = true
       /\ exists mo, Re.search FindBibliography._TOC_NUM ln = Some mo
            /\ int_of (RefParser.group_or_empty mo 1) = Some 391%Z.
Proof.
  apply (@toc_page_number_range [py "Bibliography ..... 391"] 391%Z).
  vm_compute. reflexivity.
Defined.

(** ** White space normalisation *)


Module GreedyRun.

Import Re ReSem WsNotions.

Lemma advance_cons (z : cur) (c : char) (r : str) :
  after z = c :: r ->
  after (advance z) = r /\ pos (advance z) = S (pos z) /\ before (advance z) = c :: before z.
Proof. intros H. unfold advance. rewrite H. simpl. auto. Qed.

(** A greedy, unbounded repetition of a one-character test, with nothing
    after it, reads the whole run of characters that pass the test, and
    fails when the run is shorter than the least count. *)
Lemma greedy_run (p : char -> bool) : forall fuel lo z cs,
  (length (after z) < fuel)%nat ->
  rep_loop (one p) true stop_here fuel lo None z cs
  = if (lo <=? run_length p (after z))%nat
    then Some (Nat.iter (run_length p (after z)) advance z, cs)
    else None.
Proof.
  induction fuel as [|fuel IH]; intros lo z cs Hf; [lia|].
  cbn [rep_loop].
  assert (Hone : forall k, one p k z cs
                 = match after z with
                   | c :: _ => if p c then k (advance z) cs else None
                   | [] => None
                   end) by reflexivity.
  rewrite !Hone. clear Hone.
  destruct (after z) as [|c r] eqn:Ea.
  - cbn [run_length]. destruct lo; reflexivity.
  - cbn [run_length]. destruct (p c) eqn:Ep.
    + destruct (advance_cons Ea) as (Ha & Hp & _).
      rewrite Hp. replace (S (pos z) =? pos z)%nat with false
        by (symmetry; apply Nat.eqb_neq; lia).
      rewrite IH by (rewrite Ha; simpl in Hf; lia).
      rewrite Ha. cbn [option_map].
      assert (Hit : Nat.iter (run_length p r) advance (advance z)
                    = Nat.iter (S (run_length p r)) advance z).
      { clear. generalize (run_length p r) as n. intros n.
        induction n as [|n IHn]; [reflexivity|]. simpl. rewrite IHn. reflexivity. }
      rewrite Hit.
      destruct lo as [|lo]; cbn [pred].
      * simpl. reflexivity.
      * change (S lo <=? S (run_length p r))%nat with (lo <=? run_length p r)%nat.
        reflexivity.
    + destruct lo; reflexivity.
Qed.

Lemma iter_advance (n : nat) : forall z,
  (n <= length (after z))%nat ->
  after (Nat.iter n advance z) = skipn n (after z)
  /\ pos (Nat.iter n advance z) = (pos z + n)%nat.
Proof.
  induction n as [|n IH]; intros z Hn.
  - simpl. split; [reflexivity|lia].
  - destruct (after z) as [|c r] eqn:Ea; [simpl in Hn; lia|].
    assert (Hit : Nat.iter (S n) advance z = Nat.iter n advance (advance z)).
    { clear. induction n as [|n IHn]; [reflexivity|].
      simpl in *. rewrite IHn. reflexivity. }
    rewrite Hit. destruct (advance_cons Ea) as (Ha & Hp & _).
    destruct (IH (advance z)) as [H1 H2]; [rewrite Ha; simpl in Hn; lia|].
    rewrite H1, H2, Ha, Hp. simpl. split; [reflexivity|lia].
Qed.

Lemma run_length_le (p : char -> bool) (s : str) : (run_length p s <= length s)%nat.
Proof. induction s as [|c r IH]; simpl; [lia|]. destruct (p c); simpl; lia. Qed.

Lemma skipn_run (p : char -> bool) (s : str) :
  match skipn (run_length p s) s with
  | c :: _ => p c = false
  | [] => True
  end.
Proof.
  induction s as [|c r IH]; simpl; [exact I|].
  destruct (p c) eqn:E; simpl; [exact IH|exact E].
Qed.

End GreedyRun.

Module FixWs.

Import Re ReSem WsNotions GreedyRun RefParser.

Lemma is_space_class_spec (c : char) : is_space_class c = isspace c.
Proof.
  unfold is_space_class, class_match, item_match. simpl.
  destruct (isspace c); reflexivity.
Qed.

Lemma run_length_ext (p q : char -> bool) (s : str) :
  (forall c, p c = q c) -> run_length p s = run_length q s.
Proof.
  intros H. induction s as [|c r IH]; simpl; [reflexivity|].
  rewrite H, IH. reflexivity.
Qed.

(** Where [\s{2,}] matches, and what it reads. *)
Lemma ws2_match_at (z : cur) :
  match_at RE_WS_2 z
  = if (2 <=? run_length isspace (after z))%nat
    then Some (mk_mobj z (Nat.iter (run_length isspace (after z)) advance z, []))
    else None.
Proof.
  unfold match_at, RE_WS_2. cbn [ast icase].
  rewrite ReSound.m_rep.
  change (m false (Class false [ISpace true])) with (one is_space_class).
  change (fun (z' : cur) (cs : caps) => Some (z', cs)) with stop_here.
  rewrite greedy_run by lia.
  rewrite (run_length_ext (after z) is_space_class_spec).
  destruct (2 <=? _)%nat; reflexivity.
Qed.

Lemma single_spaced_cons (c : char) (s : str) :
  single_spaced s = true ->
  (isspace c = true -> match s with d :: _ => isspace d = false | [] => True end) ->
  single_spaced (c :: s) = true.
Proof.
  intros Hs Hc. cbn [single_spaced]. destruct s as [|d s']; [reflexivity|].
  rewrite Hs. destruct (isspace c); [rewrite Hc by reflexivity|]; reflexivity.
Qed.

(** The second substitution of [fix_ws] leaves no two neighbouring white
    space characters, and an output that starts with white space comes
    from an input that does. *)
Lemma sub_ws2 : forall fuel z,
  (length (after z) < fuel)%nat ->
  let out := sub_fuel fuel RE_WS_2 (py " ") z in
  single_spaced out = true
  /\ match out with
     | c :: _ => isspace c = true ->
                 match after z with d :: _ => isspace d = true | [] => False end
     | [] => True
     end.
Proof.
  induction fuel as [|fuel IH]; intros z Hf; [lia|].
  cbn [sub_fuel]. rewrite ws2_match_at.
  destruct (Nat.leb_spec 2 (run_length isspace (after z))) as [Hrun|Hrun].
  - (* a run of two or more is replaced by one space *)
    set (n := run_length isspace (after z)) in *.
    assert (Hn : (n <= length (after z))%nat) by apply run_length_le.
    destruct (iter_advance Hn) as [Ha Hp].
    cbn [mk_mobj m_stop m_rest]. rewrite Hp.
    replace (pos z + n =? pos z)%nat with false by (symmetry; apply Nat.eqb_neq; lia).
    assert (Hlen : (length (after (Nat.iter n advance z)) < fuel)%nat).
    { rewrite Ha, length_skipn. lia. }
    destruct (IH _ Hlen) as [Hs Hh]. cbv zeta in Hs, Hh.
    pose proof (skipn_run isspace (after z)) as Hstop. fold n in Hstop.
    rewrite <- Ha in Hstop.
    change (py " " ++ ?x) with (32%N :: x).
    split.
    + apply single_spaced_cons; [exact Hs|]. intros _.
      destruct (sub_fuel fuel RE_WS_2 (py " ") (Nat.iter n advance z)) as [|d out'];
        [exact I|].
      destruct (isspace d) eqn:Ed; [|reflexivity].
      specialize (Hh eq_refl).
      destruct (after (Nat.iter n advance z)); [contradiction|congruence].
    + intros _. clear - Hrun. subst n.
      destruct (after z) as [|d r]; [simpl in Hrun; lia|].
      simpl in Hrun. destruct (isspace d); [reflexivity|lia].
  - (* no match here: the character is copied *)
    destruct (after z) as [|c r] eqn:Ea; [split; [reflexivity|exact I]|].
    destruct (advance_cons Ea) as (Ha & _ & _).
    assert (Hlen : (length (after (advance z)) < fuel)%nat)
      by (rewrite Ha; simpl in Hf; lia).
    destruct (IH _ Hlen) as [Hs Hh]. cbv zeta in Hs, Hh. rewrite Ha in Hh.
    split.
    + apply single_spaced_cons; [exact Hs|]. intros Hc.
      destruct (sub_fuel fuel RE_WS_2 (py " ") (advance z)) as [|d out']; [exact I|].
      destruct (isspace d) eqn:Ed; [|reflexivity].
      specialize (Hh eq_refl). destruct r as [|d' r']; [contradiction|].
      simpl in Hrun. rewrite Hc, Hh in Hrun. lia.
    + intros Hc. exact Hc.
Qed.

Lemma single_spaced_tail (c : char) (s : str) :
  single_spaced (c :: s) = true -> single_spaced s = true.
Proof.
  cbn [single_spaced]. destruct s as [|d s']; [reflexivity|].
  intros H. apply andb_prop in H. tauto.
Qed.

Lemma single_spaced_lstrip (p : char -> bool) (s : str) :
  single_spaced s = true -> single_spaced (lstrip_by p s) = true.
Proof.
  induction s as [|c r IH]; intros H; [reflexivity|].
  cbn [lstrip_by]. destruct (p c); [|exact H].
  apply IH. eapply single_spaced_tail; eassumption.
Qed.

Lemma single_spaced_app (a b : str) :
  single_spaced (a ++ b) = true <->
  single_spaced a = true /\ single_spaced b = true
  /\ match rev a, b with
     | c1 :: _, c2 :: _ => isspace c1 && isspace c2 = false
     | _, _ => True
     end.
Proof.
  induction a as [|x a IH].
  - simpl. tauto.
  - destruct a as [|y a'].
    + simpl rev. simpl app. cbn [single_spaced].
      destruct b as [|d b']; [simpl; tauto|].
      rewrite andb_true_iff, negb_true_iff. tauto.
    + change ((x :: y :: a') ++ b) with (x :: (y :: a') ++ b).
      change (single_spaced (x :: (y :: a') ++ b))
        with (negb (isspace x && isspace y) && single_spaced ((y :: a') ++ b)).
      change (single_spaced (x :: y :: a'))
        with (negb (isspace x && isspace y) && single_spaced (y :: a')).
      rewrite !andb_true_iff, IH.
      assert (Hrev : forall l (u : char), l <> [] -> hd_error (rev l ++ [u]) = hd_error (rev l)).
      { intros l u Hl. destruct (rev l) eqn:E; [|reflexivity].
        apply (f_equal (@rev char)) in E. rewrite rev_involutive in E. simpl in E. congruence. }
      assert (Hhd : hd_error (rev (x :: y :: a')) = hd_error (rev (y :: a'))).
      { change (rev (x :: y :: a')) with (rev (y :: a') ++ [x]). apply Hrev. discriminate. }
      destruct (rev (x :: y :: a')) as [|u1 l1]; destruct (rev (y :: a')) as [|u2 l2];
        simpl in Hhd; try discriminate; [tauto|].
      inversion Hhd; subst. tauto.
Qed.

Lemma single_spaced_rev (s : str) : single_spaced s = true -> single_spaced (rev s) = true.
Proof.
  induction s as [|c r IH]; intros H; [reflexivity|].
  simpl rev. apply single_spaced_app. split; [|split].
  - apply IH. eapply single_spaced_tail; eassumption.
  - reflexivity.
  - rewrite rev_involutive. destruct r as [|d r']; [exact I|].
    cbn [single_spaced] in H. apply andb_prop in H. destruct H as [H _].
    apply negb_true_iff in H. rewrite andb_comm. exact H.
Qed.

Lemma lstrip_head (p : char -> bool) (s : str) :
  match lstrip_by p s with c :: _ => p c = false | [] => True end.
Proof.
  induction s as [|c r IH]; simpl; [exact I|].
  destruct (p c) eqn:E; [exact IH|exact E].
Qed.

(** [lstrip_by] returns a suffix. *)
Lemma lstrip_suffix (p : char -> bool) (s : str) : exists a, s = a ++ lstrip_by p s.
Proof.
  induction s as [|c r (a & IH)]; [exists []; reflexivity|].
  simpl. destruct (p c); [|exists []; reflexivity].
  exists (c :: a). simpl. rewrite <- IH. reflexivity.
Qed.

Lemma strip_ends (p : char -> bool) (s : str) :
  (forall c, first_char (strip_by p s) = Some c -> p c = false)
  /\ (forall c, last_char (strip_by p s) = Some c -> p c = false).
Proof.
  unfold strip_by, rstrip_by, first_char, last_char. rewrite rev_involutive.
  set (t := lstrip_by p s). split.
  - intros c Hc.
    destruct (lstrip_suffix p (rev t)) as (a & Ha).
    set (u := lstrip_by p (rev t)) in *.
    destruct u as [|x u'] eqn:Eu; [discriminate|].
    (* the first character of [rev u] is the last of [rev t], the first of [t] *)
    apply (f_equal (@rev char)) in Ha. rewrite rev_involutive, rev_app_distr in Ha.
    rewrite <- Eu in Ha.
    assert (Hne : rev u <> []).
    { rewrite Eu. simpl. destruct (rev u'); discriminate. }
    rewrite <- Eu in Hc.
    destruct (rev u) as [|y v] eqn:Er; [congruence|].
    simpl in Hc. inversion Hc; subst y.
    simpl in Ha. pose proof (lstrip_head p s) as Hh. fold t in Hh.
    rewrite Ha in Hh. exact Hh.
  - intros c Hc. pose proof (lstrip_head p (rev t)) as Hh.
    destruct (lstrip_by p (rev t)) as [|x u']; [discriminate|].
    simpl in Hc. inversion Hc; subst. exact Hh.
Qed.

Lemma single_spaced_strip (s : str) : single_spaced s = true -> single_spaced (strip s) = true.
Proof.
  intros H. unfold strip, strip_by, rstrip_by.
  apply single_spaced_rev, single_spaced_lstrip, single_spaced_rev, single_spaced_lstrip.
  exact H.
Qed.

End FixWs.


Module FixWsStable.

Import Re ReSem WsNotions GreedyRun RefParser.

Lemma blank_class_match_at (z : cur) :
  match_at RE_WS_RUN z
  = if (1 <=? run_length is_blank_class (after z))%nat
    then Some (mk_mobj z (Nat.iter (run_length is_blank_class (after z)) advance z, []))
    else None.
Proof.
  unfold match_at, RE_WS_RUN. cbn [ast icase].
  rewrite ReSound.m_rep.
  change (m false (Class false [IChar 32%N; IChar 9%N; IChar 160%N; IRange 8192%N 8203%N]))
    with (one is_blank_class).
  change (fun (z' : cur) (cs : caps) => Some (z', cs)) with stop_here.
  rewrite greedy_run by lia.
  destruct (1 <=? _)%nat; reflexivity.
Qed.

(** Substitution of one space for the runs of a character test. *)
Section Runs.

Variable rx : regex.
Variable p : char -> bool.
Variable lo : nat.
Hypothesis Hlo : (1 <= lo)%nat.
Hypothesis Hmatch : forall z,
  match_at rx z
  = if (lo <=? run_length p (after z))%nat
    then Some (mk_mobj z (Nat.iter (run_length p (after z)) advance z, []))
    else None.

(** The output holds characters of the input and spaces only. *)
Lemma sub_keeps (Q : char -> Prop) : Q 32%N -> forall fuel z,
  (length (after z) < fuel)%nat -> Forall Q (after z) ->
  Forall Q (sub_fuel fuel rx (py " ") z).
Proof using Hlo Hmatch.
  intros Hq. induction fuel as [|fuel IH]; intros z Hf Hall; [lia|].
  cbn [sub_fuel]. rewrite Hmatch.
  destruct (Nat.leb_spec lo (run_length p (after z))) as [Hrun|Hrun].
  - set (n := run_length p (after z)) in *.
    assert (Hn : (n <= length (after z))%nat) by apply run_length_le.
    destruct (iter_advance Hn) as [Ha Hp].
    cbn [mk_mobj m_stop m_rest]. rewrite Hp.
    replace (pos z + n =? pos z)%nat with false by (symmetry; apply Nat.eqb_neq; lia).
    change (py " " ++ ?x) with (32%N :: x). constructor; [exact Hq|].
    apply IH.
    + rewrite Ha, length_skipn. lia.
    + rewrite Ha. rewrite <- (firstn_skipn n (after z)) in Hall.
      apply Forall_app in Hall. tauto.
  - destruct (after z) as [|c r] eqn:Ea; [constructor|].
    destruct (advance_cons Ea) as (Ha & _ & _).
    constructor; [exact (Forall_inv Hall)|].
    apply IH; [rewrite Ha; simpl in Hf; lia|rewrite Ha; exact (Forall_inv_tail Hall)].
Qed.

Lemma sub_stable : forall fuel z,
  (length (after z) < fuel)%nat -> stable p lo (after z) ->
  sub_fuel fuel rx (py " ") z = after z.
Proof using Hlo Hmatch.
  induction fuel as [|fuel IH]; intros z Hf Hst; [lia|].
  cbn [sub_fuel]. rewrite Hmatch.
  destruct (after z) as [|c r] eqn:Ea.
  - cbn [run_length]. destruct (Nat.leb_spec lo 0); [lia|reflexivity].
  - destruct (advance_cons Ea) as (Ha & Hp & _).
    destruct Hst as [Hc Hr].
    assert (Hrec : sub_fuel fuel rx (py " ") (advance z) = r).
    { rewrite <- Ha. apply IH; rewrite Ha; [simpl in Hf; lia|exact Hr]. }
    destruct (Nat.leb_spec lo (run_length p (c :: r))) as [Hrun|Hrun].
    + destruct Hc as [Hc|[Hc ->]]; [lia|]. rewrite Hc.
      cbn [mk_mobj m_stop m_rest]. change (Nat.iter 1 advance z) with (advance z).
      rewrite Hp.
      replace (S (pos z) =? pos z)%nat with false by (symmetry; apply Nat.eqb_neq; lia).
      rewrite Hrec. reflexivity.
    + rewrite Hrec. reflexivity.
Qed.

End Runs.

(** After the first substitution the only character of the class
    [[ \t  -​]] that is left is the space. *)
Lemma sub_blank_class : forall fuel z,
  (length (after z) < fuel)%nat ->
  Forall (fun c => is_blank_class c = true -> c = 32%N)
         (sub_fuel fuel RE_WS_RUN (py " ") z).
Proof.
  induction fuel as [|fuel IH]; intros z Hf; [lia|].
  cbn [sub_fuel]. rewrite blank_class_match_at.
  destruct (Nat.leb_spec 1 (run_length is_blank_class (after z))) as [Hrun|Hrun].
  - set (n := run_length is_blank_class (after z)) in *.
    assert (Hn : (n <= length (after z))%nat) by apply run_length_le.
    destruct (iter_advance Hn) as [Ha Hp].
    cbn [mk_mobj m_stop m_rest]. rewrite Hp.
    replace (pos z + n =? pos z)%nat with false by (symmetry; apply Nat.eqb_neq; lia).
    change (py " " ++ ?x) with (32%N :: x). constructor; [reflexivity|].
    apply IH. rewrite Ha, length_skipn. lia.
  - destruct (after z) as [|c r] eqn:Ea; [constructor|].
    destruct (advance_cons Ea) as (Ha & _ & _).
    constructor.
    + intros Hc. simpl in Hrun. rewrite Hc in Hrun. lia.
    + apply IH. rewrite Ha. simpl in Hf. lia.
Qed.

Lemma stable_ws2 (s : str) : single_spaced s = true -> stable isspace 2 s.
Proof.
  induction s as [|c r IH]; intros H; [exact I|].
  split; [|apply IH; eapply FixWs.single_spaced_tail; eassumption].
  left. cbn [single_spaced] in H. cbn [run_length].
  destruct (isspace c) eqn:Ec; [|lia].
  destruct r as [|d r']; [simpl; lia|].
  apply andb_prop in H. destruct H as [H _]. simpl in H.
  apply negb_true_iff in H. cbn [run_length]. rewrite H. lia.
Qed.

Lemma stable_blank (s : str) :
  Forall (fun c => is_blank_class c = true -> c = 32%N) s ->
  single_spaced s = true -> stable is_blank_class 1 s.
Proof.
  induction s as [|c r IH]; intros Hall H; [exact I|].
  inversion Hall as [|? ? Hc Hr]; subst.
  split; [|apply IH; [assumption|eapply FixWs.single_spaced_tail; eassumption]].
  cbn [run_length]. destruct (is_blank_class c) eqn:Ec; [|left; lia].
  right. specialize (Hc eq_refl). subst c. split; [|reflexivity].
  destruct r as [|d r']; [reflexivity|].
  cbn [run_length]. destruct (is_blank_class d) eqn:Ed; [|reflexivity].
  pose proof (Forall_inv Hr Ed) as Hd. subst d.
  cbn [single_spaced] in H. apply andb_prop in H. destruct H as [H _].
  vm_compute in H. discriminate.
Qed.

Lemma Forall_lstrip (Q : char -> Prop) (q : char -> bool) (s : str) :
  Forall Q s -> Forall Q (lstrip_by q s).
Proof.
  induction 1 as [|c r Hc Hr IH]; simpl; [constructor|].
  destruct (q c); [exact IH|constructor; assumption].
Qed.

Lemma Forall_strip (Q : char -> Prop) (s : str) : Forall Q s -> Forall Q (strip s).
Proof.
  intros H. unfold strip, strip_by, rstrip_by.
  apply Forall_rev, Forall_lstrip, Forall_rev, Forall_lstrip. exact H.
Qed.

Lemma lstrip_id (q : char -> bool) (s : str) :
  (forall c, hd_error s = Some c -> q c = false) -> lstrip_by q s = s.
Proof.
  destruct s as [|c r]; [reflexivity|]. intros H. simpl.
  rewrite (H c eq_refl). reflexivity.
Qed.

Lemma strip_id (s : str) :
  (forall c, first_char s = Some c -> isspace c = false) ->
  (forall c, last_char s = Some c -> isspace c = false) ->
  strip s = s.
Proof.
  intros H1 H2. unfold strip, strip_by, rstrip_by.
  rewrite (lstrip_id H1). rewrite (lstrip_id H2). apply rev_involutive.
Qed.

End FixWsStable.

(** X16. The text that [fix_ws] returns, and so the text that [clean]
    returns, neither starts nor ends with white space, and no two
    neighbouring characters of it are both white space. *)
Theorem fix_ws_normal_form (s : str) :
  (forall c, WsNotions.first_char (RefParser.fix_ws s) = Some c -> isspace c = false)
  /\ (forall c, WsNotions.last_char (RefParser.fix_ws s) = Some c -> isspace c = false)
  /\ WsNotions.single_spaced (RefParser.fix_ws s) = true.
Proof.
  unfold RefParser.fix_ws. cbv zeta.
  destruct (FixWs.strip_ends isspace
              (Re.sub RefParser.RE_WS_2 (py " ")
                 (Re.sub RefParser.RE_WS_RUN (py " ") s))) as [H1 H2].
  split; [exact H1|]. split; [exact H2|].
  apply FixWs.single_spaced_strip. unfold Re.sub.
  apply (FixWs.sub_ws2 (z := Re.start_of _)). simpl. lia.
Qed.

(** X17. [fix_ws] is idempotent: applied to its own output it changes
    nothing. *)
Theorem fix_ws_idempotent (s : str) :
  RefParser.fix_ws (RefParser.fix_ws s) = RefParser.fix_ws s.
Proof.
  assert (Hq : Forall (fun c => WsNotions.is_blank_class c = true -> c = 32%N)
                      (RefParser.fix_ws s)).
  { unfold RefParser.fix_ws. cbv zeta. apply FixWsStable.Forall_strip.
    unfold Re.sub at 1.
    apply (FixWsStable.sub_keeps (rx := RefParser.RE_WS_2) (p := isspace) (lo := 2%nat)).
    - lia.
    - apply FixWs.ws2_match_at.
    - reflexivity.
    - simpl. lia.
    - unfold Re.sub. apply FixWsStable.sub_blank_class. simpl. lia. }
  assert (Hss : WsNotions.single_spaced (RefParser.fix_ws s) = true).
  { unfold RefParser.fix_ws. cbv zeta. apply FixWs.single_spaced_strip. unfold Re.sub.
    apply (FixWs.sub_ws2 (z := Re.start_of _)). simpl. lia. }
  assert (Hends : (forall c, WsNotions.first_char (RefParser.fix_ws s) = Some c ->
                             isspace c = false)
                  /\ (forall c, WsNotions.last_char (RefParser.fix_ws s) = Some c ->
                                isspace c = false)).
  { unfold RefParser.fix_ws. cbv zeta. apply FixWs.strip_ends. }
  set (t := RefParser.fix_ws s) in *. clearbody t.
  unfold RefParser.fix_ws. cbv zeta.
  assert (E1 : Re.sub RefParser.RE_WS_RUN (py " ") t = t).
  { unfold Re.sub.
    apply (FixWsStable.sub_stable (rx := RefParser.RE_WS_RUN)
             (p := WsNotions.is_blank_class) (lo := 1%nat)).
    - lia.
    - apply FixWsStable.blank_class_match_at.
    - simpl. lia.
    - apply FixWsStable.stable_blank; assumption. }
  rewrite E1.
  assert (E2 : Re.sub RefParser.RE_WS_2 (py " ") t = t).
  { unfold Re.sub.
    apply (FixWsStable.sub_stable (rx := RefParser.RE_WS_2)
             (p := isspace) (lo := 2%nat)).
    - lia.
    - apply FixWs.ws2_match_at.
    - simpl. lia.
    - apply FixWsStable.stable_ws2; assumption. }
  rewrite E2. apply FixWsStable.strip_id; tauto.
Qed.
